(** * ProxyPOP3: a shallow embedding of the POP3 proxy session engine

    Sources embedded here:
    - [POP3filter/src/pop3.c]: the per-session state machine, the session
      pool, the acceptor and the external-transformation state;
    - the management channel ([parse_commands], [parse_config], ...).

    Collaborators whose sources are not part of the repository snapshot
    (the byte buffer, the request/response parsers, the selector, the
    MIME type tree, the management helpers) are modelled from the
    specification and are marked as such. *)

From Stdlib Require Import ZArith Ascii String Lia.
From stdpp Require Import base option list gmap.

Local Open Scope bool_scope.
Local Open Scope list_scope.

(* ===================================================================== *)
(** * C bytes and NUL-terminated strings *)
(* ===================================================================== *)

Module CStr.

(** A byte sequence as it travels on a socket or sits in memory. *)
Abbreviation bytes := (list ascii).

(** String literals of the C source. *)
Definition lit (s : string) : bytes := list_ascii_of_string s.

Definition NUL : ascii := ascii_of_nat 0.
Definition CR : ascii := ascii_of_nat 13.
Definition LF : ascii := ascii_of_nat 10.
Definition CRLF : bytes := [CR; LF].

(** [toupper] / [tolower] of <ctype.h> in the C locale. *)
Definition toupper (c : ascii) : ascii :=
  let n := nat_of_ascii c in
  if (97 <=? n)%nat && (n <=? 122)%nat then ascii_of_nat (n - 32) else c.

Definition tolower (c : ascii) : ascii :=
  let n := nat_of_ascii c in
  if (65 <=? n)%nat && (n <=? 90)%nat then ascii_of_nat (n + 32) else c.

(** The contents of a C string held in [m]: the bytes before the first
    NUL.  [None] when [m] holds no terminator (reading it as a string
    runs off the end of the object). *)
Fixpoint c_str (m : bytes) : option bytes :=
  match m with
  | [] => None
  | c :: m' =>
      if Ascii.eqb c NUL then Some []
      else match c_str m' with
           | Some s => Some (c :: s)
           | None => None
           end
  end.

(** [to_upper] of pop3.c: upper-cases, in place, every byte up to the
    terminator.  On string contents this is a [map]. *)
Definition to_upper (s : bytes) : bytes := map toupper s.

(** Does [n] start [h]?  (the inner comparison loop of [strstr]) *)
Fixpoint starts_with (n h : bytes) : bool :=
  match n, h with
  | [], _ => true
  | _ :: _, [] => false
  | a :: n', b :: h' => Ascii.eqb a b && starts_with n' h'
  end.

(** [strstr(h, n)]: offset of the first occurrence of [n] in [h], or
    [None] for a NULL result. *)
Fixpoint strstr (h n : bytes) : option nat :=
  if starts_with n h then Some 0%nat
  else match h with
       | [] => None
       | _ :: h' => S <$> strstr h' n
       end.

(** [strcasecmp(a, b)]: the difference of the first pair of bytes that
    differ after [tolower], 0 when there is none. *)
Fixpoint strcasecmp (a b : bytes) : Z :=
  match a, b with
  | [], [] => 0
  | [], y :: _ => 0 - Z.of_nat (nat_of_ascii (tolower y))
  | x :: _, [] => Z.of_nat (nat_of_ascii (tolower x))
  | x :: a', y :: b' =>
      let d := (Z.of_nat (nat_of_ascii (tolower x))
                - Z.of_nat (nat_of_ascii (tolower y)))%Z in
      if (d =? 0)%Z then strcasecmp a' b' else d
  end.

(** [strcmp(a, b)]. *)
Fixpoint strcmp (a b : bytes) : Z :=
  match a, b with
  | [], [] => 0
  | [], y :: _ => 0 - Z.of_nat (nat_of_ascii y)
  | x :: _, [] => Z.of_nat (nat_of_ascii x)
  | x :: a', y :: b' =>
      let d := (Z.of_nat (nat_of_ascii x) - Z.of_nat (nat_of_ascii y))%Z in
      if (d =? 0)%Z then strcmp a' b' else d
  end.

(** Substring, and substring up to letter case: the words the
    specification uses. *)
Definition contains (h n : bytes) : Prop :=
  exists pre post, h = pre ++ n ++ post.

Definition contains_nocase (h n : bytes) : Prop :=
  exists pre mid post,
    h = pre ++ mid ++ post /\ map toupper mid = map toupper n.

(** ** Facts *)

Lemma eqb_ascii_true (a b : ascii) : Ascii.eqb a b = true <-> a = b.
Proof. apply Ascii.eqb_eq. Qed.

Lemma starts_with_spec (n h : bytes) :
  starts_with n h = true <-> exists post, h = n ++ post.
Proof.
  revert h. induction n as [|a n IH]; intros h; simpl.
  - split; [intros _; exists h; reflexivity | reflexivity].
  - destruct h as [|b h].
    + split; [discriminate | intros [post H]; discriminate].
    + rewrite andb_true_iff, eqb_ascii_true, IH. split.
      * intros [-> [post ->]]. exists post. reflexivity.
      * intros [post H]. injection H as -> ->. split; [reflexivity | eauto].
Qed.

Lemma strstr_found (h n : bytes) :
  is_Some (strstr h n) <-> contains h n.
Proof.
  induction h as [|c h IH]; simpl.
  - destruct (starts_with n []) eqn:E.
    + split; [|intros _; eexists; reflexivity].
      intros _. apply starts_with_spec in E as [post E].
      exists [], post. exact E.
    + split; [intros [x Hx]; discriminate|].
      intros (pre & post & H).
      destruct pre; simpl in H.
      * assert (starts_with n [] = true) as E'
          by (apply starts_with_spec; exists post; exact H).
        congruence.
      * discriminate.
  - destruct (starts_with n (c :: h)) eqn:E.
    + split; [|intros _; eexists; reflexivity].
      intros _. apply starts_with_spec in E as [post E].
      exists [], post. exact E.
    + rewrite fmap_is_Some, IH. split.
      * intros (pre & post & ->). exists (c :: pre), post. reflexivity.
      * intros (pre & post & H). destruct pre as [|p pre]; simpl in H.
        -- assert (starts_with n (c :: h) = true) as E'
             by (apply starts_with_spec; exists post; exact H).
           congruence.
        -- injection H as _ ->. exists pre, post. reflexivity.
Qed.

Lemma map_eq_app_inv {A B} (f : A -> B) (l : list A) (x y : list B) :
  map f l = x ++ y ->
  exists l1 l2, l = l1 ++ l2 /\ map f l1 = x /\ map f l2 = y.
Proof.
  revert l. induction x as [|b x IH]; intros l H; simpl in H.
  - exists [], l. auto.
  - destruct l as [|a l]; [discriminate|]. simpl in H.
    injection H as Hb H. destruct (IH _ H) as (l1 & l2 & -> & H1 & H2).
    exists (a :: l1), l2. simpl. rewrite Hb, H1. auto.
Qed.

Lemma toupper_idem (c : ascii) : toupper (toupper c) = toupper c.
Proof.
  destruct c as [[] [] [] [] [] [] [] []]; reflexivity.
Qed.

Lemma to_upper_idem (s : bytes) : to_upper (to_upper s) = to_upper s.
Proof.
  unfold to_upper. rewrite map_map. apply map_ext. intros; apply toupper_idem.
Qed.

(** Searching the upper-cased text for an upper-case needle is searching
    the text up to letter case. *)
Lemma contains_to_upper (h n : bytes) :
  contains (to_upper h) (to_upper n) <-> contains_nocase h n.
Proof.
  unfold contains, contains_nocase, to_upper. split.
  - intros (pre & post & H).
    apply map_eq_app_inv in H as (l1 & l23 & -> & _ & H).
    apply map_eq_app_inv in H as (l2 & l3 & -> & H2 & _).
    exists l1, l2, l3. split; [reflexivity | exact H2].
  - intros (pre & mid & post & -> & H).
    exists (map toupper pre), (map toupper post).
    rewrite !map_app, H. reflexivity.
Qed.

(** A string's contents hold no NUL, and a terminator right after
    NUL-free bytes ends the string there. *)
Lemma c_str_no_NUL (m s : bytes) :
  c_str m = Some s -> Forall (fun c => Ascii.eqb c NUL = false) s.
Proof.
  revert s. induction m as [|c m IH]; simpl; intros s; [discriminate|].
  destruct (Ascii.eqb c NUL) eqn:E.
  - intros [= <-]. constructor.
  - destruct (c_str m) as [s'|]; [|discriminate].
    intros [= <-]. constructor; [exact E | apply IH; reflexivity].
Qed.

Lemma c_str_terminated (s rest : bytes) :
  Forall (fun c => Ascii.eqb c NUL = false) s ->
  c_str (s ++ NUL :: rest) = Some s.
Proof.
  induction 1 as [|c s Hc Hs IH]; simpl; [reflexivity|].
  rewrite Hc, IH. reflexivity.
Qed.

Lemma c_str_length (m s : bytes) :
  c_str m = Some s -> (length s < length m)%nat.
Proof.
  revert s. induction m as [|c m IH]; simpl; intros s; [discriminate|].
  destruct (Ascii.eqb c NUL).
  - intros [= <-]. simpl. lia.
  - destruct (c_str m) as [s'|]; [|discriminate].
    intros [= <-]. simpl. specialize (IH s' eq_refl). lia.
Qed.

Lemma contains_refl_app (pre n post : bytes) : contains (pre ++ n ++ post) n.
Proof. exists pre, post. reflexivity. Qed.

End CStr.

(* ===================================================================== *)
(** * pop3.c: the session pool *)
(* ===================================================================== *)

Module Pool.

(** Addresses of heap-allocated [struct pop3] objects; [None] is NULL. *)
Abbreviation addr := nat.

(** The fields of [struct pop3] that [pop3_new] and [pop3_destroy]
    read or write. *)
Record pop3 := mk_pop3 {
  client_fd : Z;
  origin_fd : Z;
  origin_resolution : bool;   (* is the addrinfo pointer non-NULL *)
  references : Z;             (* unsigned *)
  next : option addr;         (* siguiente en el pool *)
}.

Definition UINT_MOD : Z := 2 ^ 32.

(** [static const unsigned max_pool = 50] *)
Definition max_pool : Z := 50.

(** The allocator's objects and the three file-level statics. *)
Record state := mk_state {
  heap : gmap addr pop3;
  pool : option addr;
  pool_size : Z;
}.

Definition initial : state :=
  {| heap := ∅; pool := None; pool_size := 0 |}.

(** What [pop3_new] leaves in [*ret] after the [memset] and the field
    initialisation. *)
Definition fresh_pop3 (fd : Z) : pop3 :=
  {| client_fd := fd; origin_fd := -1; origin_resolution := false;
     references := 1; next := None |}.

(** [pop3_new(client_fd)].  [malloc_ok] says whether [malloc] succeeds
    when it is called.  The result is the new state and the returned
    pointer; the outer [None] is undefined behaviour (the list head
    points to freed memory). *)
Definition pop3_new (fd : Z) (malloc_ok : bool) (st : state)
  : option (state * option addr) :=
  match pool st with
  | None =>
      if malloc_ok then
        let a := fresh (dom (heap st)) in
        Some ({| heap := <[a := fresh_pop3 fd]> (heap st);
                 pool := None;
                 pool_size := pool_size st |}, Some a)
      else Some (st, None)
  | Some p =>
      match heap st !! p with
      | None => None
      | Some o =>
          Some ({| heap := <[p := fresh_pop3 fd]> (heap st);
                   pool := next o;
                   pool_size := pool_size st |}, Some p)
      end
  end.

(** [pop3_destroy_(s)]: really frees. *)
Definition pop3_destroy_ (a : addr) (st : state) : state :=
  {| heap := delete a (heap st); pool := pool st; pool_size := pool_size st |}.

(** [pop3_destroy(s)]. *)
Definition pop3_destroy (s : option addr) (st : state) : option state :=
  match s with
  | None => Some st
  | Some a =>
      match heap st !! a with
      | None => None
      | Some o =>
          if (references o =? 1)%Z then
            if (pool_size st <? max_pool)%Z then
              Some {| heap := <[a := mk_pop3 (client_fd o) (origin_fd o)
                                       (origin_resolution o) (references o)
                                       (pool st)]> (heap st);
                      pool := Some a;
                      pool_size := ((pool_size st + 1) mod UINT_MOD)%Z |}
            else Some (pop3_destroy_ a st)
          else
            Some {| heap := <[a := mk_pop3 (client_fd o) (origin_fd o)
                                     (origin_resolution o)
                                     ((references o - 1) mod UINT_MOD)%Z
                                     (next o)]> (heap st);
                    pool := pool st;
                    pool_size := pool_size st |}
      end
  end.

(** A call made by the rest of the program. *)
Inductive op :=
| New (fd : Z) (malloc_ok : bool)
| Destroy (s : option addr).

Definition step (o : op) (st : state) : option state :=
  match o with
  | New fd ok => fst <$> pop3_new fd ok st
  | Destroy s => pop3_destroy s st
  end.

Fixpoint run (ops : list op) (st : state) : option state :=
  match ops with
  | [] => Some st
  | o :: ops' =>
      match step o st with
      | Some st' => run ops' st'
      | None => None
      end
  end.

(** The free list as [pop3_pool_destroy] walks it: follow [next] from
    [pool], at most [fuel] links. *)
Fixpoint walk (fuel : nat) (h : gmap addr pop3) (p : option addr) : list addr :=
  match fuel, p with
  | S f, Some a =>
      a :: match h !! a with
           | Some o => walk f h (next o)
           | None => []
           end
  | _, _ => []
  end.

(** The distinct entries met on the free list within [fuel] links. *)
Definition entries (fuel : nat) (st : state) : gset addr :=
  list_to_set (walk fuel (heap st) (pool st)).

(** ** The invariant: some set of at most [pool_size] addresses holds
    the head of the list and is closed under [next]. *)
Definition covers (R : gset addr) (st : state) : Prop :=
  (Z.of_nat (size R) <= pool_size st)%Z /\
  (pool_size st <= max_pool)%Z /\
  (forall p, pool st = Some p -> p ∈ R) /\
  (forall a o n, a ∈ R -> heap st !! a = Some o -> next o = Some n -> n ∈ R).

Definition inv (st : state) : Prop := exists R, covers R st.

Lemma inv_initial : inv initial.
Proof.
  exists ∅. unfold covers, initial, max_pool; cbn [heap pool pool_size].
  rewrite size_empty. repeat split; try lia; try discriminate; set_solver.
Qed.

Lemma inv_new fd ok st st' r :
  inv st -> pop3_new fd ok st = Some (st', r) -> inv st'.
Proof.
  intros (R & Hs & Hm & Hp & Hc). unfold pop3_new.
  destruct (pool st) as [p|] eqn:Ep.
  - destruct (heap st !! p) as [o|] eqn:Eo; [|discriminate].
    intros [= <- <-]. exists R. unfold covers; simpl.
    repeat split; try assumption.
    + intros q Hq. eapply Hc; eauto.
    + intros a o' n Ha. rewrite lookup_insert. case_decide.
      * intros [= <-]. simpl. discriminate.
      * intros. eapply Hc; eauto.
  - destruct ok; intros [= <- <-];
      [|exists R; repeat split; auto; rewrite Ep; discriminate].
    exists R. unfold covers; simpl.
    repeat split; try assumption; try discriminate.
    intros a o' n Ha. rewrite lookup_insert. case_decide.
    + intros [= <-]. simpl. discriminate.
    + intros. eapply Hc; eauto.
Qed.

Lemma inv_destroy s st st' :
  inv st -> pop3_destroy s st = Some st' -> inv st'.
Proof.
  intros (R & Hs & Hm & Hp & Hc). unfold pop3_destroy.
  destruct s as [a|]; [|intros [= <-]; exists R; repeat split; auto].
  destruct (heap st !! a) as [o|] eqn:Eo; [|discriminate].
  destruct (references o =? 1)%Z.
  - destruct (pool_size st <? max_pool)%Z eqn:El.
    + apply Z.ltb_lt in El. intros [= <-].
      exists ({[a]} ∪ R). unfold covers; simpl.
      assert (0 <= pool_size st)%Z by lia.
      rewrite Z.mod_small by (unfold UINT_MOD, max_pool in *; lia).
      repeat split.
      * pose proof (size_union_alt {[a]} R) as Hu.
        assert (R ∖ {[a]} ⊆ R) as Hsub
          by (intros y Hy; apply elem_of_difference in Hy as [Hy _]; exact Hy).
        pose proof (subseteq_size _ _ Hsub) as Hd.
        rewrite size_singleton in Hu. lia.
      * lia.
      * intros p [= <-]. apply elem_of_union_l, elem_of_singleton. reflexivity.
      * intros x o' n Hx. rewrite lookup_insert. case_decide.
        -- intros [= <-]. simpl. intros Hn. apply Hp in Hn.
           apply elem_of_union_r. exact Hn.
        -- intros Ho' Hn. apply elem_of_union_r.
           apply elem_of_union in Hx as [Hx|Hx].
           ++ apply elem_of_singleton in Hx. congruence.
           ++ exact (Hc _ _ _ Hx Ho' Hn).
    + intros [= <-]. exists R. unfold covers, pop3_destroy_; simpl.
      repeat split; try assumption.
      intros x o' n Hx. rewrite lookup_delete. case_decide; [discriminate|].
      intros. eapply Hc; eauto.
  - intros [= <-]. exists R. unfold covers; simpl.
    repeat split; try assumption.
    intros x o' n Hx. rewrite lookup_insert. case_decide.
    + intros [= <-]. simpl. subst x. intros. eapply Hc; eauto.
    + intros. eapply Hc; eauto.
Qed.

Lemma inv_step o st st' : inv st -> step o st = Some st' -> inv st'.
Proof.
  destruct o as [fd ok|s]; simpl; intros Hi.
  - destruct (pop3_new fd ok st) as [[st1 r]|] eqn:E; simpl; [|discriminate].
    intros [= <-]. eapply inv_new; eauto.
  - apply inv_destroy; assumption.
Qed.

Lemma inv_run ops st st' : inv st -> run ops st = Some st' -> inv st'.
Proof.
  revert st. induction ops as [|o ops IH]; simpl; intros st Hi.
  - intros [= <-]. assumption.
  - destruct (step o st) as [st1|] eqn:E; [|discriminate].
    intros Hr. eapply IH; [|exact Hr]. eapply inv_step; eauto.
Qed.

Lemma walk_covered (R : gset addr) h p fuel :
  (forall q, p = Some q -> q ∈ R) ->
  (forall a o n, a ∈ R -> h !! a = Some o -> next o = Some n -> n ∈ R) ->
  forall x, x ∈ walk fuel h p -> x ∈ R.
Proof.
  intros Hp Hc. revert p Hp.
  induction fuel as [|f IH]; intros p Hp x; simpl.
  - intros Hx. inversion Hx.
  - destruct p as [a|]; [|intros Hx; inversion Hx].
    rewrite elem_of_cons. intros [->|Hx]; [apply Hp; reflexivity|].
    destruct (h !! a) as [o|] eqn:Eo; [|inversion Hx].
    eapply IH; [|exact Hx]. intros q Hq. eapply Hc; eauto.
Qed.

(** C10: along any run of [pop3_new] / [pop3_destroy] calls from the
    empty pool, the free list never holds more than 50 entries:
    however far it is walked, the distinct entries met number at most
    [pool_size], and [pool_size] is at most [max_pool = 50]; in
    particular a walk that meets no entry twice is at most 50 long. *)
Theorem pool_never_exceeds_max (ops : list op) (st : state) (fuel : nat) :
  run ops initial = Some st ->
  (Z.of_nat (size (entries fuel st)) <= pool_size st)%Z /\
  (pool_size st <= 50)%Z /\
  (NoDup (walk fuel (heap st) (pool st)) ->
   (length (walk fuel (heap st) (pool st)) <= 50)%nat).
Proof.
  intros Hr. destruct (inv_run _ _ _ inv_initial Hr) as (R & Hs & Hm & Hp & Hc).
  assert (entries fuel st ⊆ R) as Hsub.
  { unfold entries. intros x Hx. apply elem_of_list_to_set in Hx.
    eapply walk_covered; eauto. }
  apply subseteq_size in Hsub.
  split; [lia|]. split; [exact Hm|].
  intros Hnd. unfold entries in Hsub.
  rewrite size_list_to_set in Hsub by exact Hnd.
  unfold max_pool in Hm. lia.
Qed.

Definition sample_ops : list op :=
  [New 7 true; Destroy (Some 0%nat); New 8 true; New 9 true;
   Destroy (Some 0%nat); Destroy (Some 1%nat)].

Lemma pool_never_exceeds_max_witness :
  exists st, run sample_ops initial = Some st /\
    pool st = Some 1%nat /\
    (Z.of_nat (size (entries 5 st)) <= pool_size st)%Z /\
    (pool_size st <= 50)%Z /\
    (NoDup (walk 5 (heap st) (pool st)) ->
     (length (walk 5 (heap st) (pool st)) <= 50)%nat).
Proof.
  eexists. split; [vm_compute; reflexivity|].
  split; [reflexivity|].
  apply (pool_never_exceeds_max sample_ops _ 5). vm_compute. reflexivity.
Defined.

End Pool.

(* ===================================================================== *)
(** * The byte buffer *)
(* ===================================================================== *)

Module Buffer.
Import CStr.

(** Modelled from the spec: buffer.c is not part of the sources.  The
    specification describes fixed backing storage with a read and a
    write cursor, [read <= write <= capacity], used linearly: both
    cursors go back to the origin once the buffer is fully drained.
    Cursors are offsets into [data]; the capacity is [length data]. *)
Record buffer := mk_buffer {
  data : bytes;
  read : nat;
  write : nat;
}.

Definition limit (b : buffer) : nat := length (data b).

(** Modelled from the spec: [buffer_init], [buffer_reset] and
    [buffer_can_read] of buffer.c (the spec's [reset] and [can_read]). *)
Definition buffer_init (n : nat) : buffer :=
  {| data := replicate n NUL; read := 0; write := 0 |}.

Definition buffer_reset (b : buffer) : buffer :=
  {| data := data b; read := 0; write := 0 |}.

Definition buffer_can_read (b : buffer) : bool := (read b <? write b)%nat.

(** Modelled from the spec: [buffer_read_ptr(b, &count)] of buffer.c, the
    spec's [read_view]: the offset of the read cursor and the number of
    bytes that may be read from it. *)
Definition buffer_read_ptr (b : buffer) : nat * nat :=
  (read b, write b - read b)%nat.

(** Modelled from the spec: [buffer_write_ptr(b, &count)] of buffer.c, the
    spec's [write_view]: the offset of the write cursor and the room left
    after it. *)
Definition buffer_write_ptr (b : buffer) : nat * nat :=
  (write b, limit b - write b)%nat.

(** The bytes a reader sees: those between the two cursors. *)
Definition readable (b : buffer) : bytes :=
  take (write b - read b) (drop (read b) (data b)).

(** Modelled from the spec: [buffer_write_adv(b, n)] of buffer.c, the
    spec's [advance_write(n)], which keeps [write <= capacity]: a negative
    [n] is ignored; advancing past the limit is an assertion failure
    ([None]). *)
Definition buffer_write_adv (b : buffer) (n : Z) : option buffer :=
  if (n <? 0)%Z then Some b
  else let w := (write b + Z.to_nat n)%nat in
       if (w <=? limit b)%nat
       then Some {| data := data b; read := read b; write := w |}
       else None.

(** Modelled from the spec: [buffer_read_adv(b, n)] of buffer.c, the
    spec's [advance_read(n)], which keeps [read <= write]: a negative [n]
    is ignored; advancing past the write cursor is an assertion failure;
    a fully drained buffer goes back to the origin. *)
Definition buffer_read_adv (b : buffer) (n : Z) : option buffer :=
  if (n <? 0)%Z then Some b
  else let r := (read b + Z.to_nat n)%nat in
       if (r <=? write b)%nat then
         if (r =? write b)%nat then Some (buffer_reset b)
         else Some {| data := data b; read := r; write := write b |}
       else None.

(** Modelled from the spec: [buffer_read(b)] of buffer.c takes one byte
    from the read view, 0 when there is none. *)
Definition buffer_read (b : buffer) : ascii * buffer :=
  if buffer_can_read b then
    (nth (read b) (data b) NUL,
     default b (buffer_read_adv b 1))
  else (NUL, b).

(** [while (buffer_can_read(b)) buffer_read(b);] *)
Fixpoint drain_loop (fuel : nat) (b : buffer) : buffer :=
  match fuel with
  | O => b
  | S f => if buffer_can_read b then drain_loop f (snd (buffer_read b)) else b
  end.

Definition drain (b : buffer) : buffer := drain_loop (write b - read b) b.

(** A raw store of [bs] at offset [off] of an array (what [strcpy],
    [sprintf], [recv] and [read] do through a pointer obtained from
    [buffer_write_ptr]).  [None]: the store runs past the array. *)
Definition poke (off : nat) (bs : bytes) (m : bytes) : option bytes :=
  if (off + length bs <=? length m)%nat
  then Some (take off m ++ bs ++ drop (off + length bs) m)
  else None.

Definition store (b : buffer) (off : nat) (bs : bytes) : option buffer :=
  m ← poke off bs (data b);
  Some {| data := m; read := read b; write := write b |}.

(** ** Facts *)

Lemma poke_some off bs m :
  (off + length bs <= length m)%nat ->
  poke off bs m = Some (take off m ++ bs ++ drop (off + length bs) m).
Proof.
  intros H. unfold poke. apply Nat.leb_le in H. rewrite H. reflexivity.
Qed.

Lemma poke_length off bs m m' : poke off bs m = Some m' -> length m' = length m.
Proof.
  unfold poke. case_match eqn:E; [|discriminate]. intros [= <-].
  apply Nat.leb_le in E.
  rewrite !length_app, length_take, length_drop. lia.
Qed.

Lemma poke_take off bs m m' :
  poke off bs m = Some m' -> take (off + length bs) m' = take off m ++ bs.
Proof.
  unfold poke. case_match eqn:E; [|discriminate]. intros [= <-].
  apply Nat.leb_le in E.
  rewrite app_assoc. rewrite take_app_length'; [reflexivity|].
  rewrite length_app, length_take. lia.
Qed.

Lemma poke_take_before off bs m m' k :
  poke off bs m = Some m' -> (k <= off)%nat -> take k m' = take k m.
Proof.
  unfold poke. case_match eqn:E; [|discriminate]. intros [= <-] Hk.
  apply Nat.leb_le in E.
  rewrite take_app_le by (rewrite length_take; lia).
  rewrite take_take. f_equal. lia.
Qed.

Lemma store_some b off bs :
  (off + length bs <= limit b)%nat ->
  store b off bs =
    Some (mk_buffer (take off (data b) ++ bs ++ drop (off + length bs) (data b))
                    (read b) (write b)).
Proof.
  intros H. unfold store. rewrite poke_some by exact H. reflexivity.
Qed.

Lemma write_adv_some b n :
  (0 <= n)%Z -> (write b + Z.to_nat n <= limit b)%nat ->
  buffer_write_adv b n = Some (mk_buffer (data b) (read b) (write b + Z.to_nat n)).
Proof.
  intros Hn H. unfold buffer_write_adv.
  destruct (n <? 0)%Z eqn:E; [apply Z.ltb_lt in E; lia|].
  apply Nat.leb_le in H. rewrite H. reflexivity.
Qed.

Lemma read_adv_some b n :
  (0 <= n)%Z -> (read b + Z.to_nat n <= write b)%nat ->
  buffer_read_adv b n =
    Some (if (read b + Z.to_nat n =? write b)%nat then buffer_reset b
          else mk_buffer (data b) (read b + Z.to_nat n) (write b)).
Proof.
  intros Hn H. unfold buffer_read_adv.
  destruct (n <? 0)%Z eqn:E; [apply Z.ltb_lt in E; lia|].
  apply Nat.leb_le in H. rewrite H.
  destruct (read b + Z.to_nat n =? write b)%nat; reflexivity.
Qed.

Lemma readable_reset b : readable (buffer_reset b) = [].
Proof. reflexivity. Qed.

Lemma readable_init n : readable (buffer_init n) = [].
Proof. reflexivity. Qed.

Lemma buffer_read_step b :
  buffer_can_read b = true ->
  snd (buffer_read b) =
    if (read b + 1 =? write b)%nat then buffer_reset b
    else {| data := data b; read := read b + 1; write := write b |}.
Proof.
  intros E. unfold buffer_read. rewrite E. simpl.
  unfold buffer_can_read in E. apply Nat.ltb_lt in E.
  unfold buffer_read_adv. change (Z.to_nat 1) with 1%nat. simpl.
  destruct (read b + 1 <=? write b)%nat eqn:E3;
    [|apply Nat.leb_gt in E3; lia].
  destruct (read b + 1 =? write b)%nat; reflexivity.
Qed.

Lemma drain_loop_empty fuel b :
  (read b <= write b)%nat -> (write b - read b <= fuel)%nat ->
  buffer_can_read (drain_loop fuel b) = false /\
  data (drain_loop fuel b) = data b.
Proof.
  revert b. induction fuel as [|f IH]; intros b Hle Hf; simpl.
  - unfold buffer_can_read. split; [apply Nat.ltb_ge; lia | reflexivity].
  - destruct (buffer_can_read b) eqn:E; [|split; [exact E | reflexivity]].
    rewrite (buffer_read_step b E).
    unfold buffer_can_read in E. apply Nat.ltb_lt in E.
    destruct (read b + 1 =? write b)%nat eqn:E4.
    + destruct (IH (buffer_reset b)) as [H1 H2]; simpl; try lia.
      split; assumption.
    + apply Nat.eqb_neq in E4.
      destruct (IH {| data := data b; read := read b + 1; write := write b |})
        as [H1 H2]; simpl; try lia.
      split; assumption.
Qed.

Lemma drain_loop_cursors fuel b :
  (read b <= write b)%nat -> (write b - read b <= fuel)%nat ->
  read (drain_loop fuel b) = 0%nat /\ write (drain_loop fuel b) = 0%nat \/
  read b = write b /\ drain_loop fuel b = b.
Proof.
  revert b. induction fuel as [|f IH]; intros b Hle Hf; simpl.
  - right. split; [lia | reflexivity].
  - destruct (buffer_can_read b) eqn:E.
    + rewrite (buffer_read_step b E).
      unfold buffer_can_read in E. apply Nat.ltb_lt in E.
      destruct (read b + 1 =? write b)%nat eqn:E4.
      * left. destruct (IH (buffer_reset b)) as [H|[_ H]]; simpl; try lia.
        rewrite H. simpl. auto.
      * apply Nat.eqb_neq in E4.
        destruct (IH {| data := data b; read := read b + 1; write := write b |})
          as [H|[H _]]; simpl in *; lia.
    + unfold buffer_can_read in E. apply Nat.ltb_ge in E.
      right. split; [lia | reflexivity].
Qed.

(** Draining leaves nothing to read and does not touch the storage. *)
Lemma drain_spec b :
  (read b <= write b)%nat ->
  readable (drain b) = [] /\ data (drain b) = data b /\
  (read (drain b) = write (drain b)) /\
  (b = drain b \/ write (drain b) = 0%nat).
Proof.
  intros Hle. unfold drain.
  destruct (drain_loop_empty (write b - read b) b Hle (le_n _)) as [Hc Hd].
  destruct (drain_loop_cursors (write b - read b) b Hle (le_n _)) as [[Hr Hw]|[Hrw He]].
  - unfold readable. rewrite Hr, Hw. simpl. auto.
  - rewrite He. unfold readable. rewrite Hrw, Nat.sub_diag. simpl. auto.
Qed.

(** Advancing the read cursor drops that many bytes from the view. *)
Lemma readable_read_adv b b' (n : nat) :
  (read b + n <= write b)%nat ->
  buffer_read_adv b (Z.of_nat n) = Some b' ->
  readable b' = drop n (readable b).
Proof.
  intros Hle. rewrite read_adv_some by (rewrite ?Nat2Z.id; lia).
  rewrite Nat2Z.id. intros [= <-]. unfold readable.
  destruct (read b + n =? write b)%nat eqn:E.
  - apply Nat.eqb_eq in E. transitivity (@nil ascii); [reflexivity|].
    symmetry. apply drop_ge. rewrite length_take. lia.
  - cbn [read write data].
    rewrite skipn_firstn_comm, drop_drop. f_equal. lia.
Qed.

Lemma drain_nonempty b :
  buffer_can_read b = true ->
  read (drain b) = 0%nat /\ write (drain b) = 0%nat /\ data (drain b) = data b.
Proof.
  intros Hc. unfold buffer_can_read in Hc. apply Nat.ltb_lt in Hc.
  destruct (drain_spec b ltac:(lia)) as (_ & Hd & Hrw & [He|Hw]).
  - rewrite <- He in Hrw. lia.
  - rewrite Hw in Hrw. auto.
Qed.

End Buffer.

(* ===================================================================== *)
(** * pop3.c: states of the session machine and the socket calls *)
(* ===================================================================== *)

Module Fsm.
Import CStr.

(** [enum pop3_state] *)
Inductive pop3_state :=
| ORIGIN_RESOLV | CONNECTING | HELLO | CAPA | REQUEST | RESPONSE
| EXTERNAL_TRANSFORMATION | DONE | ERROR.

Definition pop3_state_eqb (a b : pop3_state) : bool :=
  match a, b with
  | ORIGIN_RESOLV, ORIGIN_RESOLV | CONNECTING, CONNECTING | HELLO, HELLO
  | CAPA, CAPA | REQUEST, REQUEST | RESPONSE, RESPONSE
  | EXTERNAL_TRANSFORMATION, EXTERNAL_TRANSFORMATION
  | DONE, DONE | ERROR, ERROR => true
  | _, _ => false
  end.

(** [#define BUFFER_SIZE 2048] *)
Definition BUFFER_SIZE : nat := 2048.

(** What the peer offers to a [recv] / [read] call: an error (-1), or
    the bytes that are waiting (none: the peer closed, the call
    returns 0). *)
Inductive incoming :=
| RecvError
| RecvBytes (bs : bytes).

(** [n = recv(fd, ptr, count, 0)]: the result [n] and the bytes stored
    at [ptr]. *)
Definition recv (i : incoming) (count : nat) : Z * bytes :=
  match i with
  | RecvError => (-1, [])%Z
  | RecvBytes bs => let got := take count bs in (Z.of_nat (length got), got)
  end.

(** What a [send] / [write] call answers: an error (-1), or the number
    of bytes the socket can take now. *)
Inductive outgoing :=
| SendError
| SendAccepts (k : nat).

(** [n = send(fd, ptr, count, flags)] on the bytes [view] found at
    [ptr]: the result [n] and the bytes put on the wire. *)
Definition send (o : outgoing) (view : bytes) : Z * bytes :=
  match o with
  | SendError => (-1, [])%Z
  | SendAccepts k => let put := take k view in (Z.of_nat (length put), put)
  end.

End Fsm.

(* ===================================================================== *)
(** * pop3.c: HELLO *)
(* ===================================================================== *)

Module Hello.
Import CStr Buffer Fsm.

(** ["+OK Proxy server POP3 ready.\r\n"] *)
Definition banner : bytes := lit "+OK Proxy server POP3 ready." ++ CRLF.

(** ["CAPA\r\n"] *)
Definition capa_cmd : bytes := lit "CAPA" ++ CRLF.

(** [hello_read]: [wb] is [d->wb] (the session's [write_buffer]), [i]
    what the origin offers, [ss] whether the two interest changes
    succeed.  [None]: an assertion of the buffer fails or a store runs
    past the array. *)
Definition hello_read (wb : buffer) (i : incoming) (ss : bool)
  : option (pop3_state * buffer) :=
  let '(ptr, count) := buffer_write_ptr wb in
  let n := Z.of_nat (length banner) in
  wb ← store wb ptr (banner ++ [NUL]);          (* strcpy((char * ) ptr, msg) *)
  wb ← buffer_write_adv wb n;
  let '(ptr, count) := buffer_write_ptr wb in
  let '(n, got) := recv i count in
  wb ← store wb ptr got;
  if (0 <? n)%Z then
    wb ← buffer_write_adv wb 0;
    Some (if ss then HELLO else ERROR, wb)
  else Some (ERROR, wb).

(** The result of a write handler: next state, buffer, bytes put on
    the client socket, bytes put on the origin socket. *)
Definition written : Type := pop3_state * buffer * bytes * bytes.

(** [hello_write]: [o] is what the client socket answers to [send]. *)
Definition hello_write (wb : buffer) (o : outgoing) (ss : bool)
  : option written :=
  let '(ptr, count) := buffer_read_ptr wb in
  let '(n, put) := send o (readable wb) in
  if (n =? -1)%Z then Some (ERROR, wb, [], [])
  else
    wb ← buffer_read_adv wb n;
    if negb (buffer_can_read wb) then
      let ret := if ss then CAPA else ERROR in
      Some (ret, wb, put, if pop3_state_eqb ret CAPA then capa_cmd else [])
    else Some (HELLO, wb, put, []).

(** The write events of the HELLO state, for as long as the machine
    stays in HELLO. *)
Fixpoint hello_writes (evs : list (outgoing * bool)) (wb : buffer)
  : option written :=
  match evs with
  | [] => Some (HELLO, wb, [], [])
  | (o, ss) :: evs' =>
      '(st, wb, c, og) ← hello_write wb o ss;
      if pop3_state_eqb st HELLO then
        '(st', wb', c', og') ← hello_writes evs' wb;
        Some (st', wb', c ++ c', og ++ og')
      else Some (st, wb, c, og)
  end.

(** The HELLO state from its arrival on a fresh session ([pop3_new]
    leaves [write_buffer] empty): one read event on the origin, then
    the write events on the client. *)
Definition hello_session (greeting : bytes) (evs : list (outgoing * bool))
  : option written :=
  '(st, wb) ← hello_read (buffer_init BUFFER_SIZE) (RecvBytes greeting) true;
  if pop3_state_eqb st HELLO then hello_writes evs wb
  else Some (st, wb, [], []).

(** What the client socket is ready to take over the write events, up
    to its first failure. *)
Fixpoint taken (evs : list (outgoing * bool)) : nat :=
  match evs with
  | (SendAccepts k, _) :: evs' => k + taken evs'
  | _ => 0%nat
  end.

(** No [send] fails and every interest change succeeds. *)
Definition unfailing (evs : list (outgoing * bool)) : bool :=
  forallb (fun e => match e with
                    | (SendAccepts _, true) => true
                    | _ => false
                    end) evs.

(** ** Proofs *)

Lemma banner_length : length banner = 30%nat.
Proof. reflexivity. Qed.

(** After the read event the bytes between the cursors are the banner
    alone: the greeting was stored behind the write cursor, which
    [buffer_write_adv(d->wb, 0)] leaves where it was. *)
Lemma hello_read_view (wb : buffer) (c : ascii) (g : bytes) :
  read wb = 0%nat -> write wb = 0%nat -> (31 < limit wb)%nat ->
  exists wb1,
    hello_read wb (RecvBytes (c :: g)) true = Some (HELLO, wb1) /\
    read wb1 = 0%nat /\ write wb1 = 30%nat /\
    take 30 (data wb1) = banner /\
    take (length (take (limit wb - 30) (c :: g))) (drop 30 (data wb1))
      = take (limit wb - 30) (c :: g).
Proof.
  intros Hr Hw Hl. unfold hello_read, buffer_write_ptr.
  assert (length (banner ++ [NUL]) = 31%nat) as Lb by reflexivity.
  rewrite Hw.
  rewrite store_some by (rewrite Lb; lia).
  cbn [mbind option_bind].
  rewrite write_adv_some by (unfold limit in *; cbn [data write];
    rewrite ?length_app, ?length_take, ?length_drop, ?Lb, ?banner_length; lia).
  cbn [mbind option_bind data read write limit].
  rewrite ?Hw, Hr, banner_length. cbn [recv].
  rewrite ?Lb, ?Nat.add_0_l, ?Nat2Z.id, take_0, app_nil_l.
  unfold limit in *. cbn [data].
  set (m1 := (banner ++ [NUL]) ++ drop 31 (data wb)).
  assert (length m1 = length (data wb)) as L1.
  { subst m1. rewrite length_app, length_drop, Lb. lia. }
  rewrite L1.
  set (got := take (length (data wb) - 30) (c :: g)).
  assert (0 < length got)%nat as Hgot.
  { subst got. rewrite length_take. simpl. lia. }
  assert (length got <= length (data wb) - 30)%nat as Hgot2.
  { subst got. rewrite length_take. lia. }
  rewrite store_some by (unfold limit; cbn [data]; lia).
  cbn [mbind option_bind data read write].
  destruct (0 <? Z.of_nat (length got))%Z eqn:En; [|apply Z.ltb_ge in En; lia].
  rewrite write_adv_some
    by (unfold limit; cbn [data write];
        rewrite ?length_app, ?length_take, ?length_drop; lia).
  cbn [mbind option_bind data read write].
  eexists. split; [reflexivity|]. cbn [data read write].
  split; [reflexivity|]. split; [reflexivity|].
  assert (take 30 m1 = banner) as T1.
  { subst m1. rewrite <- app_assoc.
    rewrite take_app_length'; [reflexivity | apply banner_length]. }
  split.
  - rewrite take_app_length' by (rewrite length_take; lia).
    exact T1.
  - rewrite drop_app_length' by (rewrite length_take; lia).
    rewrite take_app_length' by reflexivity. reflexivity.
Qed.

Lemma readable_banner (wb : buffer) :
  write wb = 30%nat -> (read wb <= 30)%nat -> take 30 (data wb) = banner ->
  readable wb = drop (read wb) banner.
Proof.
  intros Hw Hr Ht. unfold readable. rewrite Hw, <- Ht.
  rewrite take_drop_commute. do 2 f_equal. lia.
Qed.

(** One write event while the banner is being flushed. *)
Lemma hello_write_step (wb : buffer) (o : outgoing) (ss : bool) :
  write wb = 30%nat -> (read wb < 30)%nat -> take 30 (data wb) = banner ->
  match o with
  | SendError => hello_write wb o ss = Some (ERROR, wb, [], [])
  | SendAccepts k =>
      let put := take k (drop (read wb) banner) in
      if (read wb + length put =? 30)%nat then
        hello_write wb o ss =
          Some (if ss then CAPA else ERROR, buffer_reset wb, put,
                if ss then capa_cmd else [])
      else
        hello_write wb o ss =
          Some (HELLO, mk_buffer (data wb) (read wb + length put) 30, put, [])
  end.
Proof.
  intros Hw Hr Ht. unfold hello_write, buffer_read_ptr.
  rewrite (readable_banner wb Hw (Nat.lt_le_incl _ _ Hr) Ht).
  destruct o as [|k]; cbn [send]; [reflexivity|].
  set (put := take k (drop (read wb) banner)).
  assert (length put <= 30 - read wb)%nat as Hp.
  { subst put. rewrite length_take, length_drop, banner_length. lia. }
  destruct (Z.of_nat (length put) =? -1)%Z eqn:E; [apply Z.eqb_eq in E; lia|].
  rewrite read_adv_some by (rewrite ?Nat2Z.id; lia).
  rewrite Nat2Z.id, Hw. cbn [mbind option_bind].
  destruct (read wb + length put =? 30)%nat eqn:E30.
  - cbn [buffer_can_read buffer_reset read write negb Nat.ltb Nat.leb].
    destruct ss; reflexivity.
  - apply Nat.eqb_neq in E30.
    unfold buffer_can_read. cbn [read write].
    destruct (read wb + length put <? 30)%nat eqn:El;
      [reflexivity | apply Nat.ltb_ge in El; lia].
Qed.

Lemma hello_writes_spec (evs : list (outgoing * bool)) :
  forall wb : buffer,
  write wb = 30%nat -> (read wb < 30)%nat -> take 30 (data wb) = banner ->
  exists st wb' c og,
    hello_writes evs wb = Some (st, wb', c, og) /\
    (exists rest, drop (read wb) banner = c ++ rest) /\
    (st = CAPA -> c = drop (read wb) banner /\ og = capa_cmd /\
                  readable wb' = []) /\
    (st <> CAPA -> og = []).
Proof.
  induction evs as [|[o ss] evs IH]; intros wb Hw Hr Ht; cbn [hello_writes].
  - exists HELLO, wb, [], []. split; [reflexivity|].
    split; [eexists; reflexivity|]. split; [discriminate | reflexivity].
  - pose proof (hello_write_step wb o ss Hw Hr Ht) as Hs.
    destruct o as [|k].
    + rewrite Hs. cbn [mbind option_bind pop3_state_eqb].
      exists ERROR, wb, [], []. split; [reflexivity|].
      split; [eexists; reflexivity|]. split; [discriminate | reflexivity].
    + cbn zeta in Hs. set (put := take k (drop (read wb) banner)) in *.
      assert (length put <= 30 - read wb)%nat as Hp.
      { subst put. rewrite length_take, length_drop, banner_length. lia. }
      assert (drop (read wb) banner = put ++ drop (read wb + length put) banner)
        as Hsplit.
      { subst put. rewrite <- (take_drop k (drop (read wb) banner)) at 1.
        f_equal. rewrite drop_drop.
        rewrite length_take, length_drop, banner_length.
        destruct (Nat.le_gt_cases k (30 - read wb)).
        - f_equal. lia.
        - rewrite !drop_ge by (rewrite ?banner_length; lia). reflexivity. }
      destruct (read wb + length put =? 30)%nat eqn:E30.
      * apply Nat.eqb_eq in E30. rewrite Hs. cbn [mbind option_bind].
        assert (put = drop (read wb) banner) as Hall.
        { rewrite Hsplit. rewrite E30.
          rewrite (drop_ge banner 30) by (rewrite banner_length; lia).
          rewrite app_nil_r. reflexivity. }
        destruct ss; cbn [pop3_state_eqb].
        -- exists CAPA, (buffer_reset wb), put, capa_cmd.
           split; [reflexivity|]. split; [exists []; rewrite app_nil_r; auto|].
           split; [auto | congruence].
        -- exists ERROR, (buffer_reset wb), put, [].
           split; [reflexivity|]. split; [exists []; rewrite app_nil_r; auto|].
           split; [discriminate | reflexivity].
      * apply Nat.eqb_neq in E30. rewrite Hs.
        cbn [mbind option_bind pop3_state_eqb].
        destruct (IH (mk_buffer (data wb) (read wb + length put) 30))
          as (st & wb' & c & og & Hrun & [rest Hpre] & Hcapa & Hog);
          cbn [read write data]; [reflexivity | lia | exact Ht |].
        cbn [read] in *. rewrite Hrun. cbn [mbind option_bind].
        exists st, wb', (put ++ c), og. split; [reflexivity|].
        split; [exists rest; rewrite Hsplit, Hpre, app_assoc; reflexivity|].
        split; [|exact Hog].
        intros Hst. destruct (Hcapa Hst) as (Hc & Ho & Hv).
        rewrite Hsplit, Hc, Ho. auto.
Qed.

(** The bytes the write events deliver: as many bytes of the banner as
    the socket takes, and the machine leaves for CAPA as soon as it has
    taken them all. *)
Lemma hello_writes_delivers (evs : list (outgoing * bool)) :
  forall (wb wb' : buffer) (st : pop3_state) (c og : bytes),
  write wb = 30%nat -> (read wb < 30)%nat -> take 30 (data wb) = banner ->
  hello_writes evs wb = Some (st, wb', c, og) ->
  c = take (taken evs) (drop (read wb) banner) /\
  (unfailing evs = true -> (30 - read wb <= taken evs)%nat -> st = CAPA) /\
  (st = HELLO -> (taken evs < 30 - read wb)%nat).
Proof.
  induction evs as [|[o ss] evs IH]; intros wb wb' st c og Hw Hr Ht Hrun;
    cbn [hello_writes taken unfailing forallb] in *.
  - injection Hrun as <- <- <- <-.
    split; [reflexivity|]. split; [lia | intros _; lia].
  - pose proof (hello_write_step wb o ss Hw Hr Ht) as Hs.
    destruct o as [|k].
    + rewrite Hs in Hrun. cbn [mbind option_bind pop3_state_eqb] in Hrun.
      injection Hrun as <- <- <- <-.
      split; [reflexivity|]. split; [discriminate | discriminate].
    + cbn zeta in Hs. set (put := take k (drop (read wb) banner)) in *.
      assert (length put = Nat.min k (30 - read wb)) as Hp.
      { subst put. rewrite length_take, length_drop, banner_length.
        reflexivity. }
      destruct (read wb + length put =? 30)%nat eqn:E30.
      * apply Nat.eqb_eq in E30. rewrite Hs in Hrun.
        cbn [mbind option_bind] in Hrun.
        assert (take (k + taken evs) (drop (read wb) banner) = put) as Hall.
        { subst put. rewrite !take_ge
            by (rewrite length_drop, banner_length; lia). reflexivity. }
        destruct ss; cbn [pop3_state_eqb] in Hrun;
          injection Hrun as <- <- <- <-.
        -- split; [symmetry; exact Hall|]. split; [reflexivity | discriminate].
        -- split; [symmetry; exact Hall|]. split; discriminate.
      * apply Nat.eqb_neq in E30. rewrite Hs in Hrun.
        cbn [mbind option_bind pop3_state_eqb] in Hrun.
        destruct (hello_writes evs
                    (mk_buffer (data wb) (read wb + length put) 30))
          as [[[[st1 wb1] c1] og1]|] eqn:Erest; [|discriminate].
        cbn [mbind option_bind] in Hrun. injection Hrun as <- <- <- <-.
        assert (length put = k) as Hk by lia.
        destruct (IH (mk_buffer (data wb) (read wb + length put) 30)
                    wb1 st1 c1 og1)
          as (Hc & Hcapa & Hhello);
          [reflexivity | cbn [read]; lia | exact Ht | exact Erest |].
        cbn [read] in *. rewrite Hk in *.
        split; [|split].
        -- rewrite Hc. subst put. rewrite <- drop_drop.
           apply take_take_drop.
        -- intros Hu Hn. destruct ss; [|discriminate].
           apply Hcapa; [exact Hu | lia].
        -- intros Hst. specialize (Hhello Hst). lia.
Qed.

(** C2 (amended): on a fresh session, whatever non-empty greeting the
    origin sends and however the client socket takes the bytes, the
    HELLO state puts on the client socket the bytes of the fixed banner
    that the socket takes, and nothing else; when no call fails and the
    socket takes the 30 bytes of the banner, the machine leaves for
    CAPA; when it leaves for CAPA the client has received exactly the
    banner, ["CAPA\r\n"] went to the origin, and the buffer is empty;
    it stays in HELLO only while bytes of the banner are left.  The
    origin's greeting is read, but it is not forwarded. *)
Theorem hello_client_sees_banner_only
    (c : ascii) (g : bytes) (evs : list (outgoing * bool)) :
  exists st wb to_client to_origin,
    hello_session (c :: g) evs = Some (st, wb, to_client, to_origin) /\
    (exists rest, banner = to_client ++ rest) /\
    (st = CAPA ->
       to_client = banner /\ to_origin = capa_cmd /\ readable wb = []) /\
    to_client = take (taken evs) banner /\
    (unfailing evs = true -> (length banner <= taken evs)%nat -> st = CAPA) /\
    (st = HELLO -> (taken evs < length banner)%nat).
Proof.
  unfold hello_session.
  destruct (hello_read_view (buffer_init BUFFER_SIZE) c g)
    as (wb1 & Hrd & Hr & Hw & Ht & _);
    [reflexivity | reflexivity
     | unfold limit, buffer_init, BUFFER_SIZE; cbn [data];
       rewrite length_replicate; lia |].
  rewrite Hrd. cbn [mbind option_bind pop3_state_eqb].
  destruct (hello_writes_spec evs wb1 Hw ltac:(lia) Ht)
    as (st & wb' & tc & og & Hrun & Hpre & Hcapa & _).
  destruct (hello_writes_delivers evs wb1 wb' st tc og Hw ltac:(lia) Ht Hrun)
    as (Htc & Hgo & Hstay).
  rewrite Hr in *. rewrite drop_0 in *. rewrite banner_length.
  change (30 - 0)%nat with 30%nat in *.
  exists st, wb', tc, og. auto 10.
Qed.

Definition sample_greeting : bytes := lit "+OK hi" ++ CRLF.

Lemma hello_client_sees_banner_only_witness :
  exists st wb to_client to_origin,
    hello_session sample_greeting
      [(SendAccepts 12, true); (SendAccepts 0, true); (SendAccepts 100, true)]
      = Some (st, wb, to_client, to_origin) /\
    (exists rest, banner = to_client ++ rest) /\
    (st = CAPA ->
       to_client = banner /\ to_origin = capa_cmd /\ readable wb = []) /\
    to_client
      = take (taken [(SendAccepts 12, true); (SendAccepts 0, true);
                     (SendAccepts 100, true)]) banner /\
    (unfailing [(SendAccepts 12, true); (SendAccepts 0, true);
                (SendAccepts 100, true)] = true ->
     (length banner
      <= taken [(SendAccepts 12, true); (SendAccepts 0, true);
                (SendAccepts 100, true)])%nat ->
     st = CAPA) /\
    (st = HELLO ->
     (taken [(SendAccepts 12, true); (SendAccepts 0, true);
             (SendAccepts 100, true)] < length banner)%nat).
Proof.
  exact (hello_client_sees_banner_only "+"%char (lit "OK hi" ++ CRLF)
           [(SendAccepts 12, true); (SendAccepts 0, true);
            (SendAccepts 100, true)]).
Defined.

(** C2 as stated fails: the origin greets ["+OK hi\r\n"], the client
    socket takes everything at once, and the client has received the
    banner alone when the machine moves on to CAPA with an empty
    buffer, not the banner followed by the greeting. *)
Lemma hello_greeting_not_forwarded :
  exists wb,
    hello_session sample_greeting [(SendAccepts 2048, true)]
      = Some (CAPA, wb, banner, capa_cmd) /\
    readable wb = [] /\
    banner <> banner ++ sample_greeting.
Proof.
  eexists. split; [vm_compute; reflexivity|].
  split; [reflexivity | discriminate].
Qed.

End Hello.

(* ===================================================================== *)
(** * The C heap *)
(* ===================================================================== *)

Module Mem.
Import CStr.

(** Addresses of [malloc]ed objects; a nullable pointer is an
    [option ptr]. *)
Abbreviation ptr := nat.

(** What a memory checker would report. *)
Inductive fault :=
| NullDeref                                  (* access through NULL *)
| BadPointer (p : ptr)                       (* access to / free of a dead object *)
| OverRead (p : ptr)                         (* read past the end of the object *)
| Overflow (p : ptr) (size needed : Z).      (* store past the end of the object *)

(** Live objects (their bytes; the length is the allocated size), the
    faults so far, and the allocator's coming answers ([true]: the
    next [malloc]/[calloc] returns NULL; none left: it succeeds). *)
Record mem := mk_mem {
  blocks : gmap ptr bytes;
  faults : list fault;
  oom : list bool;
}.

Definition empty : mem := {| blocks := ∅; faults := []; oom := [] |}.

Definition raise (f : fault) (m : mem) : mem :=
  {| blocks := blocks m; faults := faults m ++ [f]; oom := oom m |}.

(** The byte left in freshly [malloc]ed storage. *)
Definition JUNK : ascii := ascii_of_nat 170.

Definition alloc (fill : ascii) (n : Z) (m : mem) : option ptr * mem :=
  match oom m with
  | true :: rest =>
      (None, {| blocks := blocks m; faults := faults m; oom := rest |})
  | _ =>
      let p := fresh (dom (blocks m)) in
      (Some p, {| blocks := <[p := replicate (Z.to_nat n) fill]> (blocks m);
                  faults := faults m;
                  oom := tail (oom m) |})
  end.

Definition malloc (n : Z) (m : mem) : option ptr * mem := alloc JUNK n m.
Definition calloc (n : Z) (m : mem) : option ptr * mem := alloc NUL n m.

(** [free(p)]; [free(NULL)] does nothing. *)
Definition free (p : option ptr) (m : mem) : mem :=
  match p with
  | None => m
  | Some a =>
      match blocks m !! a with
      | Some _ => {| blocks := delete a (blocks m); faults := faults m; oom := oom m |}
      | None => raise (BadPointer a) m
      end
  end.

(** The C string found at [p]: its contents up to the terminator. *)
Definition load_str (p : option ptr) (m : mem) : bytes * mem :=
  match p with
  | None => ([], raise NullDeref m)
  | Some a =>
      match blocks m !! a with
      | None => ([], raise (BadPointer a) m)
      | Some blk =>
          match c_str blk with
          | Some s => (s, m)
          | None => (blk, raise (OverRead a) m)
          end
      end
  end.

(** [n] bytes read at [p] (the source of a [memcpy]). *)
Definition load (p : option ptr) (n : Z) (m : mem) : bytes * mem :=
  match p with
  | None => ([], raise NullDeref m)
  | Some a =>
      match blocks m !! a with
      | None => ([], raise (BadPointer a) m)
      | Some blk =>
          if (n <=? Z.of_nat (length blk))%Z then (take (Z.to_nat n) blk, m)
          else (blk, raise (OverRead a) m)
      end
  end.

(** [bs] stored at offset [off] of the object at [p]; what does not
    fit is reported and dropped. *)
Definition store (p : option ptr) (off : Z) (bs : bytes) (m : mem) : mem :=
  match p with
  | None => raise NullDeref m
  | Some a =>
      match blocks m !! a with
      | None => raise (BadPointer a) m
      | Some blk =>
          let size := Z.of_nat (length blk) in
          let needed := (off + Z.of_nat (length bs))%Z in
          if (off <? 0)%Z then raise (Overflow a size off) m
          else if (needed <=? size)%Z then
            let o := Z.to_nat off in
            {| blocks := <[a := take o blk ++ bs ++ drop (o + length bs) blk]>
                           (blocks m);
               faults := faults m; oom := oom m |}
          else if (off <=? size)%Z then
            let o := Z.to_nat off in
            raise (Overflow a size needed)
              {| blocks := <[a := take o blk ++ take (length blk - o) bs]>
                             (blocks m);
                 faults := faults m; oom := oom m |}
          else raise (Overflow a size needed) m
      end
  end.

(** [strcpy(dst, src)] for a source string of contents [s]. *)
Definition strcpy (dst : option ptr) (s : bytes) (m : mem) : mem :=
  store dst 0 (s ++ [NUL]) m.

(** ** Facts: the calls that succeed *)

Lemma alloc_ok (fill : ascii) (n : Z) (m : mem) :
  hd false (oom m) = false ->
  alloc fill n m =
    (Some (fresh (dom (blocks m))),
     {| blocks := <[fresh (dom (blocks m)) := replicate (Z.to_nat n) fill]>
                    (blocks m);
        faults := faults m; oom := tail (oom m) |}).
Proof.
  unfold alloc. destruct (oom m) as [|[] rest]; simpl;
    [reflexivity | discriminate | reflexivity].
Qed.

Lemma fresh_not_live (m : mem) (a : ptr) (blk : bytes) :
  blocks m !! a = Some blk -> fresh (dom (blocks m)) <> a.
Proof.
  intros H E. apply (is_fresh (dom (blocks m))). rewrite E.
  apply elem_of_dom. eexists. exact H.
Qed.

Lemma store_ok (a : ptr) (off : Z) (bs blk : bytes) (m : mem) :
  blocks m !! a = Some blk ->
  (0 <= off)%Z -> (off + Z.of_nat (length bs) <= Z.of_nat (length blk))%Z ->
  store (Some a) off bs m =
    {| blocks := <[a := take (Z.to_nat off) blk ++ bs
                        ++ drop (Z.to_nat off + length bs) blk]> (blocks m);
       faults := faults m; oom := oom m |}.
Proof.
  intros Hb H0 H1. unfold store. rewrite Hb.
  destruct (off <? 0)%Z eqn:E0; [apply Z.ltb_lt in E0; lia|].
  apply Z.leb_le in H1. rewrite H1. reflexivity.
Qed.

Lemma load_ok (a : ptr) (n : Z) (blk : bytes) (m : mem) :
  blocks m !! a = Some blk -> (n <= Z.of_nat (length blk))%Z ->
  load (Some a) n m = (take (Z.to_nat n) blk, m).
Proof.
  intros Hb Hn. unfold load. rewrite Hb.
  apply Z.leb_le in Hn. rewrite Hn. reflexivity.
Qed.

Lemma load_str_ok (a : ptr) (blk s : bytes) (m : mem) :
  blocks m !! a = Some blk -> c_str blk = Some s ->
  load_str (Some a) m = (s, m).
Proof. intros Hb Hs. unfold load_str. rewrite Hb, Hs. reflexivity. Qed.

(** Storing into the zeroed tail of an object. *)
Lemma overlay_replicate (pre bs : bytes) (k : nat) (x : ascii) :
  (length bs <= k)%nat ->
  take (length pre) (pre ++ replicate k x) ++ bs
    ++ drop (length pre + length bs) (pre ++ replicate k x)
  = (pre ++ bs) ++ replicate (k - length bs) x.
Proof.
  intros H. rewrite take_app_length.
  rewrite drop_app_ge by lia.
  replace (length pre + length bs - length pre)%nat with (length bs) by lia.
  rewrite drop_replicate. rewrite <- app_assoc. reflexivity.
Qed.

(** [size_t] arithmetic. *)
Definition SIZE_MOD : Z := 2 ^ 64.
Definition size_t (z : Z) : Z := z mod SIZE_MOD.

Lemma size_t_small (z : Z) : (0 <= z < 2 ^ 64)%Z -> size_t z = z.
Proof. intros H. unfold size_t, SIZE_MOD. apply Z.mod_small. exact H. Qed.

(** [strlen] of the contents, as a [size_t]. *)
Definition strlen (s : bytes) : Z := Z.of_nat (length s).

End Mem.

(* ===================================================================== *)
(** * The POP3 session record and the response parser's visible fields *)
(* ===================================================================== *)

Module Session.
Import CStr.

(** Verbs ([cmd->id]) the machine dispatches on. *)
Inductive pop3_cmd_id :=
| user | pass | capa | stat | list_ | retr | dele | noop | rset | top
| uidl | quit | unknown.

(** [struct pop3_request]: the verb and the argument string. *)
Record pop3_request := mk_request {
  cmd : pop3_cmd_id;
  args : option bytes;
}.

Inductive pop3_session_state := POP3_AUTHORIZATION | POP3_TRANSACTION | POP3_UPDATE.

(** Modelled from the spec: pop3_session.h is not part of the sources.
    The specification lists the session's user name, phase, counter of
    consecutive invalid commands, pipelining flag and request queue. *)
Record pop3_session := mk_session {
  session_user : option bytes;
  session_state : pop3_session_state;
  concurrent_invalid_commands : Z;     (* unsigned *)
  pipelining : bool;
  request_queue : list pop3_request;
}.

(** Modelled from the spec: [pop3_session_init(&session, pipelining)]
    starts a session in AUTHORIZATION with no user, no invalid command
    counted, an empty queue and the given pipelining flag. *)
Definition pop3_session_init (pipelining : bool) : pop3_session :=
  {| session_user := None; session_state := POP3_AUTHORIZATION;
     concurrent_invalid_commands := 0; pipelining := pipelining;
     request_queue := [] |}.

Definition set_pipelining_flag (b : bool) (s : pop3_session) : pop3_session :=
  {| session_user := session_user s; session_state := session_state s;
     concurrent_invalid_commands := concurrent_invalid_commands s;
     pipelining := b; request_queue := request_queue s |}.

Definition set_invalid_commands (n : Z) (s : pop3_session) : pop3_session :=
  {| session_user := session_user s; session_state := session_state s;
     concurrent_invalid_commands := n;
     pipelining := pipelining s; request_queue := request_queue s |}.

Definition set_request_queue (q : list pop3_request) (s : pop3_session)
  : pop3_session :=
  {| session_user := session_user s; session_state := session_state s;
     concurrent_invalid_commands := concurrent_invalid_commands s;
     pipelining := pipelining s; request_queue := q |}.

End Session.

(* ===================================================================== *)
(** * pop3.c: CAPA *)
(* ===================================================================== *)

Module Capa.
Import CStr Buffer Fsm Mem Session.

(** [char * needle = "PIPELINING"] *)
Definition needle : bytes := lit "PIPELINING".

(** [to_upper(str)] run on the object at [p]: every byte up to the
    terminator is replaced by its upper case. *)
Definition to_upper_at (p : option ptr) (m : mem) : mem :=
  match p with
  | None => raise NullDeref m
  | Some a =>
      match blocks m !! a with
      | None => raise (BadPointer a) m
      | Some blk =>
          match c_str blk with
          | Some s =>
              {| blocks := <[a := to_upper s ++ drop (length s) blk]> (blocks m);
                 faults := faults m; oom := oom m |}
          | None =>
              raise (OverRead a)
                {| blocks := <[a := to_upper blk]> (blocks m);
                   faults := faults m; oom := oom m |}
          end
      end
  end.

(** Modelled from the spec: response_parser.h is not part of the
    sources.  The specification gives the parser a [first_line_done]
    flag and, for CAPA, a [capa_response] field that accumulates the
    raw capability list; the rest of its state is left abstract. *)
Record response_parser (I : Type) := mk_parser {
  first_line_done : bool;
  capa_response : option ptr;
  internal : I;
}.
Arguments mk_parser {I}.
Arguments first_line_done {I}.
Arguments capa_response {I}.
Arguments internal {I}.

(** [struct response_st]: [rb] is the session's [write_buffer], [wb]
    its [super_buffer]. *)
Record response_st (I : Type) := mk_response_st {
  rb : buffer;
  wb : buffer;
  request : pop3_request;
  parser : response_parser I;
}.
Arguments mk_response_st {I}.
Arguments rb {I}.
Arguments wb {I}.
Arguments request {I}.
Arguments parser {I}.

(** [connecting(key)], as far as the session record goes.
    [getsockopt_ok]: the call does not fail; [so_error]: the value it
    stores in [error]; [ss]: the two interest changes succeed.  A
    connection that stands starts the POP3 session without pipelining on
    the server side. *)
Definition connecting (getsockopt_ok : bool) (so_error : Z) (ss : bool)
    (s : pop3_session) : pop3_state * pop3_session :=
  if negb getsockopt_ok then (ERROR, s)
  else if negb (so_error =? 0)%Z then (ERROR, s)
  else (if ss then HELLO else ERROR, pop3_session_init false).

Section WithParser.
(** The response parser's private state, its result type and entry
    points ([response_consume], [response_is_done]) belong to
    response_parser.c, which is not part of the sources. *)
Context {I : Type} {response_state : Type}.
Variable response_consume :
  buffer -> buffer -> response_parser I -> mem ->
  response_state * buffer * buffer * response_parser I * mem * bool.
Variable response_is_done : response_state -> bool.

(** [set_pipelining(key, d)] *)
Definition set_pipelining (s : pop3_session) (d : response_st I) (m : mem)
  : pop3_session * response_st I * mem :=
  let m := to_upper_at (capa_response (parser d)) m in
  let '(capabilities, m) := load_str (capa_response (parser d)) m in
  let s :=
    match strstr capabilities needle with
    | Some _ => set_pipelining_flag true s
    | None => set_pipelining_flag false s
    end in
  (s, mk_response_st (rb d) (drain (wb d)) (request d) (parser d), m).

(** The first half of [capa_read]: receive, then run the parser
    twice over the buffer.  [None]: a buffer assertion fails; a
    [recv] that returns nothing yields [Some None]. *)
Definition capa_consume (d : response_st I) (m : mem) (i : incoming)
  : option (option (response_state * response_st I * mem)) :=
  let b := rb d in
  let '(ptr, count) := buffer_write_ptr b in
  let '(n, got) := recv i count in
  if (0 <? n)%Z then
    b ← Buffer.store b ptr got;
    b ← buffer_write_adv b n;
    let '(st, b, w, p, m, error) :=
      response_consume b (wb d) (parser d) m in
    let p := mk_parser false (capa_response p) (internal p) in
    let '(st, b, w, p, m, error) := response_consume b w p m in
    Some (Some (st, mk_response_st b w (request d) p, m))
  else Some None.

(** [capa_read] *)
Definition capa_read (s : pop3_session) (d : response_st I) (m : mem)
    (i : incoming) (ss : bool)
  : option (pop3_state * pop3_session * response_st I * mem) :=
  r ← capa_consume d m i;
  match r with
  | Some (st, d', m') =>
      if response_is_done st then
        let '(s', d'', m'') := set_pipelining s d' m' in
        Some (if ss then REQUEST else ERROR, s', d'', m'')
      else Some (CAPA, s, d', m')
  | None => Some (ERROR, s, d, m)
  end.

End WithParser.

(** ** Proofs *)

Lemma toupper_NUL (c : ascii) : toupper c = NUL <-> c = NUL.
Proof.
  destruct c as [[] [] [] [] [] [] [] []]; split; intros H;
    solve [reflexivity | discriminate H].
Qed.

Lemma eqb_toupper_NUL (c : ascii) :
  Ascii.eqb (toupper c) NUL = Ascii.eqb c NUL.
Proof.
  destruct (Ascii.eqb c NUL) eqn:E.
  - apply Ascii.eqb_eq in E. subst. reflexivity.
  - apply Ascii.eqb_neq. apply Ascii.eqb_neq in E.
    intros H. apply E. apply (proj1 (toupper_NUL c)). exact H.
Qed.

Lemma c_str_to_upper_None (blk : bytes) :
  c_str blk = None -> c_str (to_upper blk) = None.
Proof.
  induction blk as [|c blk IH]; simpl; [reflexivity|].
  rewrite eqb_toupper_NUL. destruct (Ascii.eqb c NUL); [discriminate|].
  destruct (c_str blk); [discriminate|]. intros _. rewrite IH; reflexivity.
Qed.

Lemma c_str_to_upper_Some (blk s : bytes) :
  c_str blk = Some s ->
  c_str (to_upper s ++ drop (length s) blk) = Some (to_upper s).
Proof.
  revert s. induction blk as [|c blk IH]; simpl; intros s; [discriminate|].
  destruct (Ascii.eqb c NUL) eqn:E.
  - intros [= <-]. simpl. rewrite E. reflexivity.
  - destruct (c_str blk) as [s'|]; [|discriminate].
    intros [= <-]. simpl. rewrite eqb_toupper_NUL, E.
    rewrite (IH s' eq_refl). reflexivity.
Qed.

(** What [capabilities] holds once [to_upper] has run. *)
Lemma load_after_to_upper (p : option ptr) (m : mem) :
  fst (load_str p (to_upper_at p m)) = to_upper (fst (load_str p m)).
Proof.
  unfold load_str, to_upper_at. destruct p as [a|]; [|reflexivity].
  destruct (blocks m !! a) as [blk|] eqn:Eb; cbn [raise blocks];
    [|rewrite Eb; reflexivity].
  destruct (c_str blk) as [s|] eqn:Es; cbn [raise blocks].
  - rewrite lookup_insert_eq, (c_str_to_upper_Some _ _ Es). reflexivity.
  - rewrite lookup_insert_eq, (c_str_to_upper_None _ Es). reflexivity.
Qed.

Lemma needle_upper : to_upper needle = needle.
Proof. reflexivity. Qed.

(** The test of [set_pipelining] and [response_process_capa], in the
    specification's words. *)
Lemma strstr_upper_nocase (p : option ptr) (m : mem) :
  is_Some (strstr (fst (load_str p (to_upper_at p m))) needle) <->
  contains_nocase (fst (load_str p m)) needle.
Proof.
  rewrite load_after_to_upper, strstr_found.
  rewrite <- needle_upper at 1. apply contains_to_upper.
Qed.

(** [set_pipelining] sets the flag exactly when the accumulated list,
    read before the call, contains PIPELINING up to letter case. *)
Lemma set_pipelining_spec {I : Type}
    (s : pop3_session) (d : response_st I) (m : mem) :
  pipelining (fst (fst (set_pipelining s d m))) = true <->
  contains_nocase (fst (load_str (capa_response (parser d)) m)) needle.
Proof.
  rewrite <- strstr_upper_nocase. unfold set_pipelining.
  destruct (load_str (capa_response (parser d))
              (to_upper_at (capa_response (parser d)) m)) as [caps m1].
  cbn [fst snd]. destruct (strstr caps needle) as [k|]; cbn [pipelining set_pipelining_flag].
  - split; [intros _; eexists; reflexivity | reflexivity].
  - split; [discriminate | intros [x Hx]; discriminate].
Qed.

(** C4: a session starts with [pipelining = false], both in
    [pop3_session_init(.., false)] and when [connecting] has moved it to
    HELLO; a [capa_read] that stays in CAPA (the response is not
    complete yet) leaves the session as it was; a [capa_read] that moves
    to REQUEST has seen the parser report the response complete, and has
    set [session.pipelining] to true exactly when the capability text
    accumulated by the parser contains PIPELINING, letter case
    ignored. *)
Theorem capa_pipelining_iff {I RS : Type}
    (response_consume :
       buffer -> buffer -> response_parser I -> mem ->
       RS * buffer * buffer * response_parser I * mem * bool)
    (response_is_done : RS -> bool)
    (s s' : pop3_session) (d d' : response_st I) (m m' : mem)
    (i : incoming) (ss : bool) (st : pop3_state) :
  capa_read response_consume response_is_done s d m i ss
    = Some (st, s', d', m') ->
  pipelining (pop3_session_init false) = false /\
  (forall gs_ok so_error ss0 s0,
     fst (connecting gs_ok so_error ss0 s0) = HELLO ->
     pipelining (snd (connecting gs_ok so_error ss0 s0)) = false) /\
  (st = CAPA -> s' = s) /\
  (st = REQUEST ->
     exists rst d1 m1,
       capa_consume response_consume d m i = Some (Some (rst, d1, m1)) /\
       response_is_done rst = true /\
       (pipelining s' = true <->
        contains_nocase (fst (load_str (capa_response (parser d1)) m1)) needle)).
Proof.
  unfold capa_read. intros H. split; [reflexivity|]. split.
  { intros gs_ok so_error ss0 s0. unfold connecting.
    destruct (negb gs_ok); [discriminate|].
    destruct (negb (so_error =? 0)%Z); [discriminate|]. reflexivity. }
  destruct (capa_consume response_consume d m i) as [[[[rst d1] m1]|]|];
    cbn [mbind option_bind] in H; [| |discriminate].
  - destruct (response_is_done rst) eqn:Ed.
    + pose proof (set_pipelining_spec s d1 m1) as Hsp.
      destruct (set_pipelining s d1 m1) as [[s2 d2] m2]. cbn [fst] in Hsp.
      injection H as Hst <- <- <-. split.
      * intros ->. destruct ss; discriminate.
      * intros _. exists rst, d1, m1. auto.
    + injection H as <- <- <- <-. split; [reflexivity | discriminate].
  - injection H as <- <- <- <-. split; discriminate.
Qed.

(** A stand-in parser for running the handlers on examples: the first
    call moves what was received into [capa_response] and reports the
    response complete. *)
Definition sample_consume (b w : buffer) (p : response_parser unit) (m : mem)
  : bool * buffer * buffer * response_parser unit * mem * bool :=
  match capa_response p with
  | Some _ => (true, b, w, p, m, false)
  | None =>
      let text := readable b in
      let '(q, m1) := calloc (strlen text + 1) m in
      (true, buffer_reset b, w, mk_parser true q tt,
       Mem.store q 0 text m1, false)
  end.

Definition sample_response_st : response_st unit :=
  mk_response_st (buffer_init 64) (buffer_init 64)
    (mk_request capa None) (mk_parser false None tt).

Definition sample_capa_reply : bytes :=
  lit "+OK" ++ CRLF ++ lit "Pipelining" ++ CRLF ++ lit "." ++ CRLF.

Lemma capa_pipelining_iff_witness :
  exists s' d' m',
    capa_read sample_consume id (pop3_session_init false)
      sample_response_st Mem.empty (RecvBytes sample_capa_reply) true
      = Some (REQUEST, s', d', m') /\
    pipelining s' = true /\
    pipelining (pop3_session_init false) = false /\
    (forall gs_ok so_error ss0 s0,
       fst (connecting gs_ok so_error ss0 s0) = HELLO ->
       pipelining (snd (connecting gs_ok so_error ss0 s0)) = false) /\
    (REQUEST = CAPA -> s' = pop3_session_init false) /\
    (REQUEST = REQUEST ->
     exists rst d1 m1,
       capa_consume sample_consume sample_response_st Mem.empty
         (RecvBytes sample_capa_reply) = Some (Some (rst, d1, m1)) /\
       id rst = true /\
       (pipelining s' = true <->
        contains_nocase (fst (load_str (capa_response (parser d1)) m1)) needle)).
Proof.
  eexists _, _, _. split; [vm_compute; reflexivity|].
  split; [reflexivity|].
  eapply (capa_pipelining_iff sample_consume id (pop3_session_init false) _
            sample_response_st _ Mem.empty _ (RecvBytes sample_capa_reply)
            true REQUEST).
  vm_compute. reflexivity.
Defined.

End Capa.

(* ===================================================================== *)
(** * pop3.c: RESPONSE, the CAPA rewrite *)
(* ===================================================================== *)

Module Response.
Import CStr Buffer Fsm Mem Session Capa.

(** [char * eom = "\r\n.\r\n"] *)
Definition eom : bytes := CRLF ++ lit "." ++ CRLF.

Definition set_capa_response {I} (q : option ptr) (d : response_st I)
  : response_st I :=
  mk_response_st (rb d) (wb d) (request d)
    (mk_parser (first_line_done (parser d)) q (internal (parser d))).

Definition set_wb {I} (w : buffer) (d : response_st I) : response_st I :=
  mk_response_st (rb d) w (request d) (parser d).

(** [response_process_capa(d)].  [None]: the final [strcpy] runs past
    [raw_super_buffer], or a buffer assertion fails. *)
Definition response_process_capa {I} (d : response_st I) (m : mem)
  : option (pop3_state * response_st I * mem) :=
  let p := capa_response (parser d) in
  let m := to_upper_at p m in
  let '(capabilities, m) := load_str p m in
  match strstr capabilities needle with
  | Some _ => Some (RESPONSE, d, m)
  | None =>
      let capa_length := strlen capabilities in
      let needle_length := strlen needle in
      let eom_length := strlen eom in
      let '(new_capa, m) :=
        calloc (size_t (size_t (size_t (size_t (capa_length - 3)
                                        + needle_length)
                                + eom_length)
                        + 1)) m in
      match new_capa with
      | None => Some (ERROR, d, m)
      | Some _ =>
          (* copio to-do menos los ultimos 3 caracteres *)
          let '(src, m) := load p (size_t (capa_length - 3)) m in
          let m := Mem.store new_capa 0 src m in
          (* agrego la needle *)
          let m := Mem.store new_capa (capa_length - 3) needle m in
          (* agrego eom *)
          let m := Mem.store new_capa (capa_length - 3 + needle_length) eom m in
          let m := free p m in
          let d := set_capa_response new_capa d in
          (* leer el buffer y copiar la nueva respuesta *)
          let w := drain (wb d) in
          let '(ptr1, count1) := buffer_write_ptr w in
          let '(text, m) := load_str new_capa m in
          w ← Buffer.store w ptr1 (text ++ [NUL]);
          w ← buffer_write_adv w (strlen text);
          Some (RESPONSE, set_wb w d, m)
      end
  end.

(** ** The rewrite, in general *)

Lemma text_no_NUL (caps : bytes) (n : nat) :
  Forall (fun c => Ascii.eqb c NUL = false) caps ->
  Forall (fun c => Ascii.eqb c NUL = false)
    ((take n (to_upper caps) ++ needle) ++ eom).
Proof.
  intros H. apply Forall_app. split; [apply Forall_app; split|].
  - apply Forall_take. unfold to_upper. apply Forall_map.
    eapply Forall_impl; [exact H|]. intros c Hc. simpl.
    rewrite eqb_toupper_NUL. exact Hc.
  - repeat constructor.
  - repeat constructor.
Qed.

(** C1 (amended): when the accumulated list is a string of at least
    three bytes, the allocation succeeds and the reply is waiting in a
    2048-byte output buffer with room for the result,
    [response_process_capa] answers RESPONSE without any memory fault
    and either
    - the list contains PIPELINING in some letter case, and the output
      buffer is left exactly as the origin's reply filled it; or
    - it does not, and the output buffer now holds the upper-cased
      list minus its last three bytes, then PIPELINING, then
      ["\r\n.\r\n"] (so PIPELINING stands right before the
      terminator when the list ended in [".\r\n"]), built in an object
      of exactly the size of that text plus its NUL, the old list
      being freed. *)
Theorem capa_reply_advertises_pipelining {I : Type}
    (d : response_st I) (m : mem) (p : ptr) (blk caps : bytes) :
  capa_response (parser d) = Some p ->
  blocks m !! p = Some blk ->
  c_str blk = Some caps ->
  (3 <= length caps)%nat ->
  hd false (oom m) = false ->
  buffer_can_read (wb d) = true ->
  limit (wb d) = BUFFER_SIZE ->
  (length caps + 13 <= BUFFER_SIZE)%nat ->
  exists d' m',
    response_process_capa d m = Some (RESPONSE, d', m') /\
    faults m' = faults m /\
    ((contains_nocase caps needle /\ wb d' = wb d)
     \/
     (~ contains_nocase caps needle /\
      let text := (take (length caps - 3) (to_upper caps) ++ needle) ++ eom in
      readable (wb d') = text /\
      contains (readable (wb d')) needle /\
      (forall body, caps = body ++ lit "." ++ CRLF ->
                    readable (wb d') = (to_upper body ++ needle) ++ eom) /\
      exists q, capa_response (parser d') = Some q /\
                blocks m' !! q = Some (text ++ [NUL]) /\
                blocks m' !! p = None)).
Proof.
  intros Hp Hb Hs H3 Hoom Hcr Hlim Hfit.
  pose proof (c_str_length _ _ Hs) as Hlen.
  pose proof (c_str_no_NUL _ _ Hs) as Hnn.
  unfold response_process_capa. rewrite Hp.
  unfold to_upper_at. rewrite Hb, Hs.
  set (blkU := to_upper caps ++ drop (length caps) blk).
  set (mU := {| blocks := <[p := blkU]> (blocks m);
                faults := faults m; oom := oom m |}).
  assert (blocks mU !! p = Some blkU) as HbU by apply lookup_insert_eq.
  rewrite (load_str_ok p blkU (to_upper caps) mU HbU
             (c_str_to_upper_Some _ _ Hs)).
  destruct (strstr (to_upper caps) needle) as [k|] eqn:Ek.
  - exists d, mU. split; [reflexivity|]. split; [reflexivity|].
    left. split; [|reflexivity].
    apply contains_to_upper. rewrite needle_upper. apply strstr_found.
    rewrite Ek. eexists; reflexivity.
  - assert (~ contains_nocase caps needle) as Hnc.
    { intros Hc. apply contains_to_upper in Hc. rewrite needle_upper in Hc.
      apply strstr_found in Hc. rewrite Ek in Hc. destruct Hc; discriminate. }
    assert (length (to_upper caps) = length caps) as LU
      by (unfold to_upper; apply length_map).
    unfold strlen. rewrite LU.
    change (Z.of_nat (length needle)) with 10%Z.
    change (Z.of_nat (length eom)) with 5%Z.
    unfold BUFFER_SIZE in Hfit.
    rewrite (size_t_small (Z.of_nat (length caps) - 3)) by lia.
    rewrite (size_t_small (Z.of_nat (length caps) - 3 + 10)) by lia.
    rewrite (size_t_small (Z.of_nat (length caps) - 3 + 10 + 5)) by lia.
    rewrite (size_t_small (Z.of_nat (length caps) - 3 + 10 + 5 + 1)) by lia.
    unfold calloc. rewrite alloc_ok by exact Hoom.
    set (q := fresh (dom (blocks mU))).
    assert (q <> p) as Hqp by (apply (fresh_not_live mU p blkU HbU)).
    assert (p <> q) as Hpq by congruence.
    set (src := take (length caps - 3) (to_upper caps)).
    assert (length src = (length caps - 3)%nat) as Lsrc
      by (subst src; rewrite length_take; lia).
    replace (Z.to_nat (Z.of_nat (length caps) - 3 + 10 + 5 + 1))
      with (length caps + 13)%nat by lia.
    set (B0 := replicate (length caps + 13) NUL).
    (* memcpy of the list *)
    rewrite (load_ok p _ blkU)
      by (cbn [blocks];
          first [ rewrite lookup_insert_ne by exact Hqp; exact HbU
                | subst blkU; rewrite length_app, LU; lia ]).
    replace (take (Z.to_nat (Z.of_nat (length caps) - 3)) blkU) with src
      by (subst src blkU; rewrite take_app_le by lia; f_equal; lia).
    rewrite (store_ok q 0 src B0)
      by (cbn [blocks];
          first [ apply lookup_insert_eq
                | subst B0; rewrite ?length_replicate; lia ]).
    cbn [blocks faults oom]. rewrite insert_insert_eq.
    change (Z.to_nat 0) with (length (@nil ascii)).
    replace B0 with ([] ++ replicate (length caps + 13) NUL) by reflexivity.
    rewrite overlay_replicate by lia. cbn [app]. rewrite Lsrc.
    replace (length caps + 13 - (length caps - 3))%nat with 16%nat by lia.
    (* the needle *)
    rewrite (store_ok q _ needle (src ++ replicate 16 NUL))
      by (cbn [blocks];
          first [ apply lookup_insert_eq
                | rewrite ?length_app, ?length_replicate, ?Lsrc;
                  change (Z.of_nat (length needle)) with 10%Z; lia ]).
    cbn [blocks faults oom]. rewrite insert_insert_eq.
    replace (Z.to_nat (Z.of_nat (length caps) - 3)) with (length src) by lia.
    rewrite overlay_replicate by (change (length needle) with 10%nat; lia).
    change (16 - length needle)%nat with 6%nat.
    (* the terminator *)
    rewrite (store_ok q _ eom ((src ++ needle) ++ replicate 6 NUL))
      by (cbn [blocks];
          first [ apply lookup_insert_eq
                | rewrite ?length_app, ?length_replicate, ?Lsrc;
                  change (Z.of_nat (length eom)) with 5%Z;
                  change (length needle) with 10%nat; lia ]).
    cbn [blocks faults oom]. rewrite insert_insert_eq.
    replace (Z.to_nat (Z.of_nat (length caps) - 3 + 10))
      with (length (src ++ needle))
      by (rewrite length_app, Lsrc; change (length needle) with 10%nat; lia).
    rewrite overlay_replicate by (change (length eom) with 5%nat; lia).
    change (replicate (6 - length eom) NUL) with [NUL].
    set (text := (src ++ needle) ++ eom).
    (* free(capabilities) *)
    unfold free. cbn [blocks faults oom].
    rewrite lookup_insert_ne by exact Hqp. rewrite HbU.
    cbn [blocks faults oom].
    (* the copy into the output buffer *)
    assert (c_str (text ++ [NUL]) = Some text) as Htext
      by (apply c_str_terminated; subst text src; apply text_no_NUL; exact Hnn).
    rewrite (load_str_ok q (text ++ [NUL]) text)
      by (cbn [blocks];
          first [ rewrite lookup_delete_ne by exact Hpq;
                  apply lookup_insert_eq
                | exact Htext ]).
    destruct (drain_nonempty (wb d) Hcr) as (Hdr & Hdw & Hdd).
    cbn [set_capa_response wb]. unfold buffer_write_ptr. rewrite Hdw.
    assert (length text = (length caps + 12)%nat) as Ltext.
    { subst text. rewrite !length_app, Lsrc.
      change (length needle) with 10%nat. change (length eom) with 5%nat. lia. }
    assert (limit (drain (wb d)) = 2048%nat) as Hdl
      by (unfold limit in *; rewrite Hdd; exact Hlim).
    rewrite Buffer.store_some
      by (rewrite length_app, Ltext, Hdl; simpl; lia).
    cbn [mbind option_bind].
    rewrite write_adv_some
      by (unfold limit, strlen; cbn [data write];
          first [ lia
                | rewrite Hdw, !length_app, length_take, length_drop, Ltext;
                  unfold limit in Hdl; rewrite Hdd in *; simpl; lia ]).
    cbn [mbind option_bind data read write].
    eexists _, _. split; [reflexivity|]. split; [reflexivity|].
    right. split; [exact Hnc|]. cbn zeta.
    unfold set_wb, set_capa_response. cbn [wb parser capa_response].
    rewrite Hdw, Hdr, Nat2Z.id, take_0. cbn [app Nat.add].
    assert (readable
              {| data := (text ++ [NUL])
                         ++ drop (length (text ++ [NUL])) (data (drain (wb d)));
                 read := 0; write := length text |} = text) as Hview.
    { unfold readable. cbn [data read write]. rewrite drop_0, Nat.sub_0_r.
      rewrite <- app_assoc. apply take_app_length. }
    rewrite Hview.
    split; [reflexivity|]. split.
    { subst text. rewrite <- app_assoc. apply contains_refl_app. }
    split.
    { intros body ->. subst text src. do 2 f_equal.
      unfold to_upper. rewrite map_app, length_app.
      change (length (lit "." ++ CRLF)) with 3%nat.
      rewrite take_app_length'; [reflexivity | rewrite length_map; lia]. }
    exists q. split; [reflexivity|]. cbn [blocks]. split.
    + rewrite lookup_delete_ne by exact Hpq. apply lookup_insert_eq.
    + apply lookup_delete_eq.
Qed.

(** ** Examples *)

(** A session whose origin answered CAPA with the list [caps], all of
    it waiting in the output buffer behind the status line. *)
Definition after_capa (caps : bytes) : response_st unit * mem :=
  let reply := lit "+OK" ++ CRLF ++ caps in
  let w := buffer_init BUFFER_SIZE in
  let w := default w (Buffer.store w 0 reply) in
  let w := default w (buffer_write_adv w (Z.of_nat (length reply))) in
  let '(q, m) := calloc (strlen caps + 1) Mem.empty in
  (mk_response_st (buffer_init BUFFER_SIZE) w (mk_request capa None)
     (mk_parser false q tt),
   Mem.store q 0 caps m).

Definition run_capa (caps : bytes) : option (pop3_state * bytes * list fault) :=
  let '(d, m) := after_capa caps in
  '(st, d', m') ← response_process_capa d m;
  Some (st, readable (wb d'), faults m').

Example capa_rewrite_example :
  run_capa (lit "USER" ++ CRLF ++ lit "Top" ++ CRLF ++ lit "." ++ CRLF)
  = Some (RESPONSE,
          lit "USER" ++ CRLF ++ lit "TOP" ++ CRLF ++ lit "PIPELINING"
            ++ CRLF ++ lit "." ++ CRLF,
          []).
Proof. vm_compute. reflexivity. Qed.

Example capa_lowercase_example :
  run_capa (lit "pipelining" ++ CRLF ++ lit "." ++ CRLF)
  = Some (RESPONSE,
          lit "+OK" ++ CRLF ++ lit "pipelining" ++ CRLF ++ lit "." ++ CRLF,
          []).
Proof. vm_compute. reflexivity. Qed.

(** A list shorter than three bytes: [capa_length - 3] wraps around,
    the [memcpy] reads far past the list and the needle is stored
    before the start of the new object. *)
Example capa_short_example :
  run_capa (lit "x")
  = Some (RESPONSE, lit "X", [OverRead 0; Overflow 1 14 (-2)]).
Proof. vm_compute. reflexivity. Qed.

Definition sample_caps : bytes :=
  lit "USER" ++ CRLF ++ lit "Top" ++ CRLF ++ lit "." ++ CRLF.

Lemma capa_reply_advertises_pipelining_witness :
  exists d' m',
    response_process_capa (fst (after_capa sample_caps))
                          (snd (after_capa sample_caps))
      = Some (RESPONSE, d', m') /\
    faults m' = faults (snd (after_capa sample_caps)) /\
    ((contains_nocase sample_caps needle /\
      wb d' = wb (fst (after_capa sample_caps)))
     \/
     (~ contains_nocase sample_caps needle /\
      let text := (take (length sample_caps - 3) (to_upper sample_caps)
                   ++ needle) ++ eom in
      readable (wb d') = text /\
      contains (readable (wb d')) needle /\
      (forall body, sample_caps = body ++ lit "." ++ CRLF ->
                    readable (wb d') = (to_upper body ++ needle) ++ eom) /\
      exists q, capa_response (parser d') = Some q /\
                blocks m' !! q = Some (text ++ [NUL]) /\
                blocks m' !! 0%nat = None)).
Proof.
  apply (capa_reply_advertises_pipelining
           (fst (after_capa sample_caps)) (snd (after_capa sample_caps))
           0%nat (sample_caps ++ [NUL]) sample_caps);
    first [ vm_compute; reflexivity | vm_compute; lia ].
Defined.

(** C1 as stated fails: the origin lists [pipelining] in lower case,
    the upper-cased copy of the list contains the needle, and the
    reply waiting for the client is left as it is: the bytes sent to
    the client do not contain the substring PIPELINING. *)
Lemma capa_lowercase_not_rewritten :
  exists d' m',
    response_process_capa
      (fst (after_capa (lit "pipelining" ++ CRLF ++ lit "." ++ CRLF)))
      (snd (after_capa (lit "pipelining" ++ CRLF ++ lit "." ++ CRLF)))
      = Some (RESPONSE, d', m') /\
    readable (wb d')
      = lit "+OK" ++ CRLF ++ lit "pipelining" ++ CRLF ++ lit "." ++ CRLF /\
    ~ contains (readable (wb d')) needle.
Proof.
  eexists _, _. split; [vm_compute; reflexivity|].
  split; [vm_compute; reflexivity|].
  intros Hc. apply strstr_found in Hc. vm_compute in Hc.
  destruct Hc as [x Hx]. discriminate Hx.
Qed.

End Response.

(* ===================================================================== *)
(** * pop3.c: REQUEST *)
(* ===================================================================== *)

Module Request.
Import CStr Buffer Fsm Session.

(** Modelled from the spec: request_parser.h is not part of the
    sources.  The specification lists the parser states [verb], [sp],
    [arg], [cr], [done], [error], [error_cmd_too_long],
    [error_param_too_long], in this order; [request_process] treats
    every state from [request_error] on as a malformed command. *)
Inductive request_state :=
| request_verb | request_sp | request_arg | request_cr | request_done
| request_error | request_error_cmd_too_long | request_error_param_too_long.

Definition request_state_index (st : request_state) : nat :=
  match st with
  | request_verb => 0 | request_sp => 1 | request_arg => 2 | request_cr => 3
  | request_done => 4 | request_error => 5
  | request_error_cmd_too_long => 6 | request_error_param_too_long => 7
  end.

(** [struct request_st] *)
Record request_st := mk_request_st {
  rb : buffer;
  wb : buffer;
  request : pop3_request;
  parser_state : request_state;     (* d->request_parser.state *)
}.

(** Modelled from the spec: [request_parser_init] puts the (resettable)
    parser back in its first state. *)
Definition request_parser_init (d : request_st) : request_st :=
  mk_request_st (rb d) (wb d) (request d) request_verb.

(** [#define MAX_CONCURRENT_INVALID_COMMANDS 3] *)
Definition MAX_CONCURRENT_INVALID_COMMANDS : Z := 3.

Definition msg_unknown : bytes := lit "-ERR Unknown command. (POPG)" ++ CRLF.
Definition msg_cmd_too_long : bytes := lit "-ERR Command too long." ++ CRLF.
Definition msg_param_too_long : bytes := lit "-ERR Parameter too long." ++ CRLF.
Definition msg_too_many : bytes :=
  lit "-ERR Too many invalid commands. (POPG)" ++ [LF].

(** The [switch] that picks [msg]; [None] is the NULL it starts as. *)
Definition error_msg (st : request_state) : option bytes :=
  match st with
  | request_error => Some msg_unknown
  | request_error_cmd_too_long => Some msg_cmd_too_long
  | request_error_param_too_long => Some msg_param_too_long
  | _ => None
  end.

(** [unsigned] increment and the conversion to [int]. *)
Definition uint (z : Z) : Z := z mod 2 ^ 32.
Definition to_int (z : Z) : Z := if (z <? 2 ^ 31)%Z then z else (z - 2 ^ 32)%Z.

(** [request_process(key, d)].  [alloc_ok]: [new_request] returns an
    object; [ss]: the interest changes succeed.  The result carries
    the [send] calls made on the client socket, in order.  [None]:
    [strlen(NULL)]. *)
Definition request_process (s : pop3_session) (d : request_st)
    (alloc_ok ss : bool)
  : option (pop3_state * pop3_session * request_st * list bytes) :=
  if (request_state_index request_error
        <=? request_state_index (parser_state d))%nat then
    msg ← error_msg (parser_state d);
    let s := set_invalid_commands
               (uint (concurrent_invalid_commands s + 1)) s in
    let cic := to_int (concurrent_invalid_commands s) in
    if (MAX_CONCURRENT_INVALID_COMMANDS <=? cic)%Z then
      Some (DONE, s, d, [msg; msg_too_many])
    else
      Some (REQUEST, s, request_parser_init d, [msg])
  else
    let s := set_invalid_commands 0 s in
    if alloc_ok then
      let r := mk_request (cmd (request d)) (args (request d)) in
      let s := set_request_queue (request_queue s ++ [r]) s in
      let d := request_parser_init d in
      if negb (buffer_can_read (rb d)) then
        Some (if ss then REQUEST else ERROR, s, d, [])
      else Some (REQUEST, s, d, [])
    else Some (ERROR, s, d, []).

(** One command as the parser hands it to [request_process]: the
    parser's final state, the request it filled in, what is left in
    the client buffer, and the two answers of the environment. *)
Record parsed := mk_parsed {
  p_state : request_state;
  p_request : pop3_request;
  p_rb : buffer;
  p_alloc_ok : bool;
  p_ss : bool;
}.

Definition malformed (e : parsed) : bool :=
  (request_state_index request_error <=? request_state_index (p_state e))%nat.

(** The successive [request_process] calls of one session, for as long
    as they answer REQUEST.  (No other function of pop3.c writes
    [concurrent_invalid_commands].) *)
Fixpoint serve (evs : list parsed) (s : pop3_session) (w : buffer)
  : option (pop3_state * pop3_session * list bytes) :=
  match evs with
  | [] => Some (REQUEST, s, [])
  | e :: evs' =>
      '(st, s', d', out) ←
        request_process s (mk_request_st (p_rb e) w (p_request e) (p_state e))
          (p_alloc_ok e) (p_ss e);
      if pop3_state_eqb st REQUEST then
        '(st'', s'', out') ← serve evs' s' w;
        Some (st'', s'', out ++ out')
      else Some (st, s', out)
  end.

(** ** The specification's words *)

(** Three malformed commands in a row somewhere in the list. *)
Definition three_consecutive (l : list bool) : Prop :=
  exists i, l !! i = Some true /\ l !! S i = Some true
            /\ l !! S (S i) = Some true.

(** The single error line a malformed command is answered with. *)
Definition reply_line (e : parsed) : list bytes :=
  if malformed e then option_list (error_msg (p_state e)) else [].

(** The environment does not fail on a well-formed command. *)
Definition env_ok (e : parsed) : bool :=
  malformed e || (p_alloc_ok e && p_ss e).

(** ** Proofs *)

Lemma not_three_short (c : nat) :
  (c < 3)%nat -> ~ three_consecutive (replicate c true ++ []).
Proof.
  intros Hc (i & _ & _ & H). apply lookup_lt_Some in H.
  rewrite length_app, length_replicate in H. simpl in H. lia.
Qed.

Lemma replicate_snoc_cons {A} (c : nat) (x : A) (l : list A) :
  replicate c x ++ x :: l = replicate (S c) x ++ l.
Proof. induction c as [|c IH]; simpl; [reflexivity | f_equal; exact IH]. Qed.

Lemma lookup_after_false (c : nat) (l : list bool) (j : nat) :
  (replicate c true ++ false :: l) !! j =
    if (j <? c)%nat then Some true
    else if (j =? c)%nat then Some false
    else l !! (j - c - 1)%nat.
Proof.
  destruct (j <? c)%nat eqn:E1.
  - apply Nat.ltb_lt in E1.
    rewrite lookup_app_l by (rewrite length_replicate; lia).
    apply lookup_replicate_2. exact E1.
  - apply Nat.ltb_ge in E1.
    rewrite lookup_app_r by (rewrite length_replicate; lia).
    rewrite length_replicate.
    destruct (j =? c)%nat eqn:E2.
    + apply Nat.eqb_eq in E2. subst. rewrite Nat.sub_diag. reflexivity.
    + apply Nat.eqb_neq in E2.
      destruct (j - c)%nat as [|k] eqn:Ek; [lia|].
      simpl. rewrite Nat.sub_0_r. reflexivity.
Qed.

(** A well-formed command cuts the run: three in a row must lie
    wholly after it. *)
Lemma three_skip_false (c : nat) (l : list bool) :
  (c < 3)%nat ->
  three_consecutive (replicate c true ++ false :: l) <-> three_consecutive l.
Proof.
  intros Hc. unfold three_consecutive. split.
  - intros (i & H0 & H1 & H2).
    rewrite lookup_after_false in H0, H1, H2.
    destruct (i <? c)%nat eqn:A0.
    + apply Nat.ltb_lt in A0.
      destruct (S i <? c)%nat eqn:A1.
      * apply Nat.ltb_lt in A1.
        destruct (S (S i) <? c)%nat eqn:A2;
          [apply Nat.ltb_lt in A2; lia|].
        apply Nat.ltb_ge in A2.
        replace (S (S i) =? c)%nat with true in H2
          by (symmetry; apply Nat.eqb_eq; lia).
        discriminate.
      * apply Nat.ltb_ge in A1.
        replace (S i =? c)%nat with true in H1
          by (symmetry; apply Nat.eqb_eq; lia).
        discriminate.
    + apply Nat.ltb_ge in A0.
      destruct (i =? c)%nat eqn:B0; [discriminate|].
      apply Nat.eqb_neq in B0.
      replace (S i <? c)%nat with false in H1
        by (symmetry; apply Nat.ltb_ge; lia).
      replace (S i =? c)%nat with false in H1
        by (symmetry; apply Nat.eqb_neq; lia).
      replace (S (S i) <? c)%nat with false in H2
        by (symmetry; apply Nat.ltb_ge; lia).
      replace (S (S i) =? c)%nat with false in H2
        by (symmetry; apply Nat.eqb_neq; lia).
      exists (i - c - 1)%nat.
      replace (S (i - c - 1)) with (S i - c - 1)%nat by lia.
      replace (S (S i - c - 1)) with (S (S i) - c - 1)%nat by lia.
      auto.
  - intros (i & H0 & H1 & H2). exists (i + c + 1)%nat.
    rewrite !lookup_after_false.
    replace (i + c + 1 <? c)%nat with false
      by (symmetry; apply Nat.ltb_ge; lia).
    replace (i + c + 1 =? c)%nat with false
      by (symmetry; apply Nat.eqb_neq; lia).
    replace (S (i + c + 1) <? c)%nat with false
      by (symmetry; apply Nat.ltb_ge; lia).
    replace (S (i + c + 1) =? c)%nat with false
      by (symmetry; apply Nat.eqb_neq; lia).
    replace (S (S (i + c + 1)) <? c)%nat with false
      by (symmetry; apply Nat.ltb_ge; lia).
    replace (S (S (i + c + 1)) =? c)%nat with false
      by (symmetry; apply Nat.eqb_neq; lia).
    replace (i + c + 1 - c - 1)%nat with i by lia.
    replace (S (i + c + 1) - c - 1)%nat with (S i) by lia.
    replace (S (S (i + c + 1)) - c - 1)%nat with (S (S i)) by lia.
    auto.
Qed.

(** What [request_process] does with a malformed command. *)
Lemma request_process_malformed (s : pop3_session) (d : request_st)
    (a ss : bool) (c : nat) :
  (request_state_index request_error
     <=? request_state_index (parser_state d))%nat = true ->
  concurrent_invalid_commands s = Z.of_nat c -> (c < 3)%nat ->
  exists msg,
    error_msg (parser_state d) = Some msg /\
    request_process s d a ss =
      Some (if (c =? 2)%nat then DONE else REQUEST,
            set_invalid_commands (Z.of_nat (S c)) s,
            if (c =? 2)%nat then d else request_parser_init d,
            if (c =? 2)%nat then [msg; msg_too_many] else [msg]).
Proof.
  intros Hm Hc Hlt. unfold request_process. rewrite Hm.
  assert (exists msg, error_msg (parser_state d) = Some msg) as [msg Hmsg].
  { destruct (parser_state d); try discriminate Hm; eexists; reflexivity. }
  exists msg. split; [exact Hmsg|]. rewrite Hmsg. cbn [mbind option_bind].
  cbn [concurrent_invalid_commands set_invalid_commands]. rewrite Hc.
  unfold uint, to_int, MAX_CONCURRENT_INVALID_COMMANDS.
  rewrite Z.mod_small by lia.
  destruct (Z.of_nat c + 1 <? 2 ^ 31)%Z eqn:E; [|apply Z.ltb_ge in E; lia].
  replace (Z.of_nat c + 1)%Z with (Z.of_nat (S c)) by lia.
  destruct (c =? 2)%nat eqn:E2.
  - apply Nat.eqb_eq in E2. subst c. reflexivity.
  - apply Nat.eqb_neq in E2.
    destruct (3 <=? Z.of_nat (S c))%Z eqn:E3; [apply Z.leb_le in E3; lia|].
    reflexivity.
Qed.

(** What it does with a well-formed one when the environment holds. *)
Lemma request_process_wellformed (s : pop3_session) (d : request_st) :
  (request_state_index request_error
     <=? request_state_index (parser_state d))%nat = false ->
  request_process s d true true =
    Some (REQUEST,
          set_request_queue
            (request_queue s
               ++ [mk_request (cmd (request d)) (args (request d))])
            (set_invalid_commands 0 s),
          request_parser_init d, []).
Proof.
  intros Hm. unfold request_process. rewrite Hm.
  cbn [set_invalid_commands request_queue].
  destruct (negb (buffer_can_read (rb (request_parser_init d)))); reflexivity.
Qed.

Lemma serve_spec (evs : list parsed) :
  forall (s : pop3_session) (w : buffer) (c : nat),
  concurrent_invalid_commands s = Z.of_nat c -> (c < 3)%nat ->
  forallb env_ok evs = true ->
  exists st s' out n,
    serve evs s w = Some (st, s', out) /\
    (st = DONE \/ st = REQUEST) /\
    (st = DONE <->
     three_consecutive (replicate c true ++ map malformed evs)) /\
    (n <= length evs)%nat /\ (st = REQUEST -> n = length evs) /\
    out = flat_map reply_line (take n evs)
          ++ (if pop3_state_eqb st DONE then [msg_too_many] else []).
Proof.
  induction evs as [|e evs IH]; intros s w c Hc Hlt Henv; cbn [serve].
  - exists REQUEST, s, [], 0%nat. split; [reflexivity|].
    split; [right; reflexivity|]. split.
    + split; [discriminate|]. intros H. exfalso.
      exact (not_three_short c Hlt H).
    + split; [simpl; lia|]. split; reflexivity.
  - cbn [forallb] in Henv. apply andb_true_iff in Henv as [He Henv].
    destruct (malformed e) eqn:Em.
    + destruct (request_process_malformed s
                  (mk_request_st (p_rb e) w (p_request e) (p_state e))
                  (p_alloc_ok e) (p_ss e) c Em Hc Hlt) as (msg & Hmsg & Hrp).
      cbn [parser_state] in Hmsg. rewrite Hrp. cbn [mbind option_bind].
      assert (reply_line e = [msg]) as Hline
        by (unfold reply_line; rewrite Em, Hmsg; reflexivity).
      destruct (c =? 2)%nat eqn:E2.
      * apply Nat.eqb_eq in E2. subst c. cbn [pop3_state_eqb].
        exists DONE, (set_invalid_commands (Z.of_nat 3) s),
               [msg; msg_too_many], 1%nat.
        split; [reflexivity|]. split; [left; reflexivity|]. split.
        { split; [|reflexivity]. intros _. exists 0%nat.
          cbn [map]. rewrite Em. auto. }
        split; [simpl; lia|]. split; [discriminate|].
        cbn [take flat_map pop3_state_eqb]. rewrite Hline. reflexivity.
      * apply Nat.eqb_neq in E2. cbn [pop3_state_eqb].
        destruct (IH (set_invalid_commands (Z.of_nat (S c)) s) w (S c))
          as (st & s' & out & n & Hs & Hst & Hiff & Hn & Hnr & Hout);
          [reflexivity | lia | exact Henv |].
        rewrite Hs. cbn [mbind option_bind].
        exists st, s', ([msg] ++ out), (S n).
        split; [reflexivity|]. split; [exact Hst|]. split.
        { cbn [map]. rewrite Em, replicate_snoc_cons. exact Hiff. }
        split; [simpl; lia|]. split; [intros H; rewrite (Hnr H); reflexivity|].
        cbn [take flat_map]. rewrite Hline, Hout, app_assoc. reflexivity.
    + unfold env_ok in He. rewrite Em in He. cbn [orb] in He.
      apply andb_true_iff in He as [Ha Hss]. rewrite Ha, Hss.
      rewrite request_process_wellformed by exact Em.
      cbn [mbind option_bind pop3_state_eqb].
      destruct (IH (set_request_queue
                      (request_queue s
                         ++ [mk_request (cmd (p_request e)) (args (p_request e))])
                      (set_invalid_commands 0 s)) w 0%nat)
        as (st & s' & out & n & Hs & Hst & Hiff & Hn & Hnr & Hout);
        [reflexivity | lia | exact Henv |].
      cbn [request] in *. rewrite Hs. cbn [mbind option_bind].
      exists st, s', out, (S n).
      split; [reflexivity|]. split; [exact Hst|]. split.
      { cbn [map]. rewrite Em, (three_skip_false c _ Hlt). exact Hiff. }
      split; [simpl; lia|]. split; [intros H; rewrite (Hnr H); reflexivity|].
      cbn [take flat_map]. unfold reply_line at 1. rewrite Em. exact Hout.
Qed.

(** C3: run the [request_process] calls of a session from its start
    ([pop3_session_init]), the environment not failing on well-formed
    commands.  Each malformed command is answered with exactly one
    error line and a well-formed one with none; the session ends, in
    DONE, exactly when three malformed commands came in a row, and
    then the too-many-invalid-commands line follows the third error
    line; otherwise it is still in REQUEST after every command.  On a
    single call: a malformed command adds one to
    [concurrent_invalid_commands], the call that raises it to 3 answers
    DONE, and a well-formed command puts it back to 0. *)
Theorem invalid_commands_terminate_after_three
    (evs : list parsed) (w : buffer) :
  forallb env_ok evs = true ->
  (exists st s' out n,
     serve evs (pop3_session_init false) w = Some (st, s', out) /\
     (st = DONE \/ st = REQUEST) /\
     (st = DONE <-> three_consecutive (map malformed evs)) /\
     (n <= length evs)%nat /\ (st = REQUEST -> n = length evs) /\
     out = flat_map reply_line (take n evs)
           ++ (if pop3_state_eqb st DONE then [msg_too_many] else [])) /\
  (forall s d a ss c,
     malformed (mk_parsed (parser_state d) (request d) (rb d) a ss) = true ->
     concurrent_invalid_commands s = Z.of_nat c -> (c < 3)%nat ->
     exists st s' d' msg,
       request_process s d a ss
         = Some (st, s', d',
                 msg :: (if (c =? 2)%nat then [msg_too_many] else [])) /\
       error_msg (parser_state d) = Some msg /\
       concurrent_invalid_commands s' = Z.of_nat (S c) /\
       st = (if (c =? 2)%nat then DONE else REQUEST)) /\
  (forall s d a ss st s' d' out,
     malformed (mk_parsed (parser_state d) (request d) (rb d) a ss) = false ->
     request_process s d a ss = Some (st, s', d', out) ->
     concurrent_invalid_commands s' = 0%Z /\ out = []).
Proof.
  intros Henv. split; [|split].
  - exact (serve_spec evs (pop3_session_init false) w 0%nat
             eq_refl ltac:(lia) Henv).
  - intros s d a ss c Hm Hc Hlt. unfold malformed in Hm. cbn [p_state] in Hm.
    destruct (request_process_malformed s d a ss c Hm Hc Hlt)
      as (msg & Hmsg & Hrp).
    rewrite Hrp. destruct (c =? 2)%nat; eexists _, _, _, msg; auto.
  - intros s d a ss st s' d' out Hm. unfold malformed in Hm.
    cbn [p_state] in Hm. unfold request_process. rewrite Hm.
    destruct a; [|intros [= <- <- <- <-]; auto].
    destruct (negb (buffer_can_read (rb (request_parser_init d))));
      intros [= <- <- <- <-]; auto.
Qed.

(** Two bad lines, a good one, then three bad lines. *)
Definition sample_bad (st : request_state) : parsed :=
  mk_parsed st (mk_request unknown None) (buffer_init 8) true true.
Definition sample_good : parsed :=
  mk_parsed request_done (mk_request noop None) (buffer_init 8) true true.
Definition sample_commands : list parsed :=
  [sample_bad request_error; sample_bad request_error_cmd_too_long;
   sample_good;
   sample_bad request_error; sample_bad request_error_param_too_long;
   sample_bad request_error; sample_good].

Lemma invalid_commands_terminate_after_three_witness :
  serve sample_commands (pop3_session_init false) (buffer_init 8)
    = Some (DONE,
            set_request_queue [mk_request noop None]
              (set_invalid_commands 3 (pop3_session_init false)),
            [msg_unknown; msg_cmd_too_long; msg_unknown;
             msg_param_too_long; msg_unknown; msg_too_many]) /\
  exists st s' out n,
    serve sample_commands (pop3_session_init false) (buffer_init 8)
      = Some (st, s', out) /\
    (st = DONE \/ st = REQUEST) /\
    (st = DONE <-> three_consecutive (map malformed sample_commands)) /\
    (n <= length sample_commands)%nat /\
    (st = REQUEST -> n = length sample_commands) /\
    out = flat_map reply_line (take n sample_commands)
          ++ (if pop3_state_eqb st DONE then [msg_too_many] else []).
Proof.
  split; [vm_compute; reflexivity|].
  exact (proj1 (invalid_commands_terminate_after_three
                  sample_commands (buffer_init 8) eq_refl)).
Defined.

End Request.

(* ===================================================================== *)
(** * pop3.c: the acceptor, the end of a session and the metrics *)
(* ===================================================================== *)

Module Metrics.
Import Fsm.

(** Modelled from the spec: metrics.h is not part of the sources.  The
    specification lists four process-wide counters; the management
    STATS command prints [transferred_bytes] with [%lld] and the other
    three with [%u]. *)
Record metrics := mk_metrics {
  concurrent_connections : Z;      (* unsigned *)
  historical_access : Z;           (* unsigned *)
  transferred_bytes : Z;
  retrieved_messages : Z;          (* unsigned *)
}.

Definition uint (z : Z) : Z := z mod 2 ^ 32.

(** What the reactor knows of a registered session: the state of its
    machine and its [origin_fd]. *)
Record session := mk_session {
  state : pop3_state;
  origin_fd : Z;
}.

(** [metricas] and the sessions accepted so far, oldest first. *)
Record world := mk_world {
  metricas : metrics;
  sessions : list session;
}.

Definition initial : world :=
  {| metricas := mk_metrics 0 0 0 0; sessions := [] |}.

Definition terminal (st : pop3_state) : bool :=
  match st with DONE | ERROR => true | _ => false end.

(** [pop3_passive_accept(key)].  [client] is what [accept] returned;
    [nio_ok], [new_ok], [reg_ok]: [selector_fd_set_nio], [pop3_new] and
    [selector_register] succeed.  On every failure path the would-be
    session is closed and handed back to [pop3_destroy]: no session is
    registered. *)
Definition pop3_passive_accept (client : Z) (nio_ok new_ok reg_ok : bool)
    (w : world) : world :=
  let m := metricas w in
  let m := mk_metrics (uint (concurrent_connections m + 1))
             (uint (historical_access m + 1))
             (transferred_bytes m) (retrieved_messages m) in
  if (client =? -1)%Z then mk_world m (sessions w)
  else if negb nio_ok then mk_world m (sessions w)
  else if negb new_ok then mk_world m (sessions w)
  else if negb reg_ok then mk_world m (sessions w)
  else mk_world m (sessions w ++ [mk_session ORIGIN_RESOLV (-1)]).

(** [pop3_done(key)] for a session whose [origin_fd] is [ofd]: the
    metric it leaves. *)
Definition pop3_done (ofd : Z) (m : metrics) : metrics :=
  if negb (ofd =? -1)%Z then
    mk_metrics (uint (concurrent_connections m - 1)) (historical_access m)
      (transferred_bytes m) (retrieved_messages m)
  else m.

(** [pop3_read] / [pop3_write] / [pop3_block] on session [i] once the
    state machine has answered [next] and the handler has left
    [origin_fd] at [ofd]: a terminal answer runs [pop3_done], which
    unregisters both descriptors.  A session that is not registered
    (unknown, or already terminal) receives no event. *)
Definition dispatch (i : nat) (next : pop3_state) (ofd : Z) (w : world)
  : world :=
  match sessions w !! i with
  | Some s =>
      if terminal (state s) then w
      else
        mk_world
          (if terminal next then pop3_done ofd (metricas w) else metricas w)
          (<[i := mk_session next ofd]> (sessions w))
  | None => w
  end.

(** The events of the reactor that bear on the counter. *)
Inductive event :=
| Accept (client : Z) (nio_ok new_ok reg_ok : bool)
  (** the passive socket is readable *)
| Connecting (i : nat) (fd : Z) (connected ss : bool)
  (** [connecting]: sets [d->origin_fd = key->fd], then answers HELLO
      when the connection stands, ERROR otherwise *)
| Handler (i : nat) (next : pop3_state)
  (** any other handler of session [i]; none of them writes
      [origin_fd] *).

Definition step (e : event) (w : world) : world :=
  match e with
  | Accept c n a r => pop3_passive_accept c n a r w
  | Connecting i fd connected ss =>
      dispatch i (if connected && ss then HELLO else ERROR) fd w
  | Handler i next =>
      match sessions w !! i with
      | Some s => dispatch i next (origin_fd s) w
      | None => w
      end
  end.

Definition run (tr : list event) (w : world) : world :=
  fold_left (fun w e => step e w) tr w.

(** ** Counting sessions *)

Fixpoint count (P : session -> bool) (l : list session) : nat :=
  match l with
  | [] => 0
  | s :: l' => (if P s then 1 else 0) + count P l'
  end.


(** Sessions still registered, and sessions that ended before they had
    an origin descriptor. *)
Definition live (s : session) : bool := negb (terminal (state s)).
Definition orphan (s : session) : bool :=
  terminal (state s) && (origin_fd s =? -1)%Z.
Definition counted (s : session) : bool := live s || orphan s.

Definition accept_succeeds (e : event) : bool :=
  match e with
  | Accept c n a r => negb (c =? -1)%Z && n && a && r
  | _ => true
  end.


(** ** Proofs *)

Lemma count_app P (l1 l2 : list session) :
  count P (l1 ++ l2) = (count P l1 + count P l2)%nat.
Proof. induction l1 as [|s l1 IH]; simpl; [reflexivity | rewrite IH; lia]. Qed.

Lemma count_le_length P (l : list session) : (count P l <= length l)%nat.
Proof. induction l as [|s l IH]; simpl; [lia | destruct (P s); lia]. Qed.

(** Replacing one session moves the count by that session alone. *)
Lemma count_insert P (l : list session) (i : nat) (x y : session) :
  l !! i = Some x ->
  (count P (<[i := y]> l) + (if P x then 1 else 0)
   = count P l + (if P y then 1 else 0))%nat.
Proof.
  revert i. induction l as [|s l IH]; intros i H; [discriminate|].
  destruct i as [|i]; simpl in *.
  - injection H as ->. lia.
  - specialize (IH i H). lia.
Qed.


Lemma count_counted (l : list session) :
  count counted l = (count live l + count orphan l)%nat.
Proof.
  induction l as [|[st fd] l IH]; simpl; [reflexivity|].
  unfold counted, live, orphan in *; simpl.
  destruct (terminal st), (fd =? -1)%Z; simpl; lia.
Qed.

(** The events that run [pop3_passive_accept], and those among them
    that register no session. *)
Definition is_accept (e : event) : bool :=
  match e with Accept _ _ _ _ => true | _ => false end.

Definition accept_fails (e : event) : bool := negb (accept_succeeds e).

Fixpoint tally (P : event -> bool) (tr : list event) : nat :=
  match tr with
  | [] => 0
  | e :: tr' => (if P e then 1 else 0) + tally P tr'
  end.

(** The counters after [a] accepts of which [k] failed. *)
Definition tallied (a k : nat) (w : world) : Prop :=
  concurrent_connections (metricas w)
    = Z.of_nat (count counted (sessions w) + k) /\
  historical_access (metricas w) = Z.of_nat a /\
  (length (sessions w) + k = a)%nat.

Lemma tallied_dispatch (a k i : nat) (next : pop3_state) (ofd : Z) (w : world) :
  tallied a k w -> (Z.of_nat a < 2 ^ 32)%Z ->
  tallied a k (dispatch i next ofd w).
Proof.
  intros (Hc & Hh & Hl) Hb. unfold dispatch.
  destruct (sessions w !! i) as [s|] eqn:Es; [|repeat split; assumption].
  destruct (terminal (state s)) eqn:Et; [repeat split; assumption|].
  pose proof (count_insert counted _ i s (mk_session next ofd) Es) as Hi.
  pose proof (count_le_length counted (sessions w)) as Hle.
  assert (counted s = true) as Hs
    by (unfold counted, live; rewrite Et; reflexivity).
  rewrite Hs in Hi.
  unfold counted at 3 in Hi. unfold live, orphan in Hi.
  cbn [state origin_fd] in Hi.
  unfold tallied. cbn [sessions metricas]. rewrite length_insert.
  split; [|split; [|exact Hl]].
  - destruct (terminal next) eqn:En; cbn [negb orb andb] in Hi.
    + unfold pop3_done. destruct (ofd =? -1)%Z eqn:Ef; cbn [negb] in *.
      * rewrite Hc. f_equal. lia.
      * cbn [concurrent_connections]. rewrite Hc. unfold uint.
        rewrite Z.mod_small by lia. lia.
    + rewrite Hc. f_equal. lia.
  - destruct (terminal next); [|exact Hh].
    unfold pop3_done. destruct (negb (ofd =? -1)%Z); exact Hh.
Qed.

Lemma tallied_step (a k : nat) (e : event) (w : world) :
  tallied a k w -> (Z.of_nat a + 1 < 2 ^ 32)%Z ->
  tallied (a + if is_accept e then 1 else 0)
    (k + if accept_fails e then 1 else 0) (step e w).
Proof.
  intros Ht Hb. destruct e as [c n r g|i fd connected ss|i next];
    cbn [step is_accept]; unfold accept_fails; cbn [accept_succeeds negb].
  - destruct Ht as (Hc & Hh & Hl).
    pose proof (count_le_length counted (sessions w)) as Hle.
    assert (forall m' : metrics,
              m' = mk_metrics (uint (concurrent_connections (metricas w) + 1))
                     (uint (historical_access (metricas w) + 1))
                     (transferred_bytes (metricas w))
                     (retrieved_messages (metricas w)) ->
              tallied (a + 1) (k + 1) (mk_world m' (sessions w))) as Hfail.
    { intros m' ->. unfold tallied. cbn [metricas sessions
        concurrent_connections historical_access].
      rewrite Hc, Hh. unfold uint. rewrite !Z.mod_small by lia.
      repeat split; lia. }
    unfold pop3_passive_accept. cbv zeta.
    destruct (c =? -1)%Z; cbn [negb andb]; [apply Hfail; reflexivity|].
    destruct n; cbn [negb andb]; [|apply Hfail; reflexivity].
    destruct r; cbn [negb andb]; [|apply Hfail; reflexivity].
    destruct g; cbn [negb andb]; [|apply Hfail; reflexivity].
    unfold tallied. cbn [metricas sessions concurrent_connections
      historical_access].
    rewrite count_app, length_app, Hc, Hh. cbn [count length].
    unfold uint. rewrite !Z.mod_small by lia.
    change (counted (mk_session ORIGIN_RESOLV (-1))) with true.
    repeat split; lia.
  - rewrite !Nat.add_0_r. apply tallied_dispatch; [exact Ht | lia].
  - rewrite !Nat.add_0_r.
    destruct (sessions w !! i) as [s|]; [|exact Ht].
    apply tallied_dispatch; [exact Ht | lia].
Qed.

Lemma tallied_run (tr : list event) :
  forall (a k : nat) (w : world),
  tallied a k w -> (Z.of_nat (a + length tr) < 2 ^ 32)%Z ->
  tallied (a + tally is_accept tr) (k + tally accept_fails tr) (run tr w).
Proof.
  induction tr as [|e tr IH]; intros a k w Ht Hb; cbn [tally run fold_left].
  - rewrite !Nat.add_0_r. exact Ht.
  - cbn [length] in Hb.
    pose proof (tallied_step a k e w Ht ltac:(lia)) as Hs.
    rewrite !Nat.add_assoc. apply IH; [exact Hs|].
    destruct (is_accept e); lia.
Qed.






End Metrics.


(* ===================================================================== *)
(** * pop3.c: EXTERNAL_TRANSFORMATION *)
(* ===================================================================== *)

Module ExtTransf.
Import CStr Buffer Fsm.

(** [enum et_status] *)
Inductive et_status := et_status_ok | et_status_err | et_status_done.

(** [fd_interest] of the selector, as far as the state uses it. *)
Inductive fd_interest := OP_NOOP | OP_READ | OP_WRITE.

Definition err_msg : bytes :=
  lit "-ERR could not open external transformation." ++ CRLF.
Definition ok_msg : bytes := lit "+OK sending mail." ++ CRLF.
Definition body_end : bytes := CRLF ++ lit "." ++ CRLF.

(** [struct external_transformation].  The four buffer pointers are two
    aliases each: [rb] and [ext_wb] point to the session's
    [write_buffer], [wb] and [ext_rb] to its [extern_read_buffer]; they
    are kept in [pop3] below.  [None] in a parser field is NULL. *)
Record external_transformation (P : Type) := mk_et {
  status : et_status;
  parser_read : option P;
  parser_write : option P;
  finish_wr : bool;
  finish_rd : bool;
  error_wr : bool;
  error_rd : bool;
  did_write : bool;
  write_error : bool;
  send_bytes_write : nat;
  send_bytes_read : nat;
}.
Arguments mk_et {P}.
Arguments status {P}.
Arguments parser_read {P}.
Arguments parser_write {P}.
Arguments finish_wr {P}.
Arguments finish_rd {P}.
Arguments error_wr {P}.
Arguments error_rd {P}.
Arguments did_write {P}.
Arguments write_error {P}.
Arguments send_bytes_write {P}.
Arguments send_bytes_read {P}.

(** The part of [struct pop3], of the selector and of [metricas] that
    the state reads or writes.  An interest of [None] stands for a
    descriptor that is not registered with the selector. *)
Record pop3 (P : Type) := mk_pop3 {
  et : external_transformation P;
  write_buffer : buffer;
  extern_read_buffer : buffer;
  queue_is_empty : bool;                  (* session.request_queue *)
  client_interest : fd_interest;
  origin_interest : fd_interest;
  ext_read_interest : option fd_interest;
  ext_write_interest : option fd_interest;
  retrieved_messages : Z;                 (* metricas, unsigned *)
  transferred_bytes : Z;                  (* metricas *)
}.
Arguments mk_pop3 {P}.
Arguments et {P}.
Arguments write_buffer {P}.
Arguments extern_read_buffer {P}.
Arguments queue_is_empty {P}.
Arguments client_interest {P}.
Arguments origin_interest {P}.
Arguments ext_read_interest {P}.
Arguments ext_write_interest {P}.
Arguments retrieved_messages {P}.
Arguments transferred_bytes {P}.

(** [selector_set_interest] on a descriptor that may not be registered:
    it then fails, and the callers here ignore the result. *)
Definition set_interest (i : fd_interest) (cur : option fd_interest)
  : option fd_interest :=
  match cur with
  | Some _ => Some i
  | None => None
  end.

Section WithMultiParser.
(** The body-terminator parser ([parser_init], [parser_reset],
    [parser_feed] over [pop3_multi_parser]) is not part of the sources.
    [parser_feed p c] answers the next parser and whether the event is
    [POP3_MULTI_FIN]. *)
Context {P : Type}.
Variable parser_new : P.
Variable parser_reset : P -> P.
Variable parser_feed : P -> ascii -> P * bool.

(** The loop of [parse_mail] over the readable bytes: the parser it
    leaves, and the count [i] at which FIN came, if it came. *)
Fixpoint feed_all (p : P) (bs : bytes) (i : nat) : P * option nat :=
  match bs with
  | [] => (p, None)
  | c :: bs' =>
      let '(p', fin) := parser_feed p c in
      if fin then (p', Some (S i)) else feed_all p' bs' (S i)
  end.

(** [parse_mail(b, p, &send_bytes)]: the result, [*send_bytes] and the
    parser; the buffer's cursors are put back where they were. *)
Definition parse_mail (b : buffer) (p : P) : bool * nat * P :=
  match feed_all p (readable b) 0 with
  | (p', Some i) => (true, i, p')
  | (p', None) => (false, 0%nat, p')
  end.

(** [finished_et(et)] *)
Definition finished_et (e : external_transformation P) : bool :=
  if finish_rd e && finish_wr e then true
  else if finish_rd e && error_wr e then true
  else false.

(** [open_external_transformation(key, session)] as the parent process
    sees it.  [r1], [r2]: the two [pipe] results; [pid]: what [fork]
    returned; [reg_r], [nio_r], [reg_w], [nio_w]: [selector_register]
    and [selector_fd_set_nio] succeed on the read end and on the write
    end.  Answers the status and the two registrations. *)
Definition open_external_transformation
    (r1 r2 pid : Z) (reg_r nio_r reg_w nio_w : bool) (s : pop3 P)
  : et_status * option fd_interest * option fd_interest :=
  if (r1 <? 0)%Z || (r2 <? 0)%Z then
    (et_status_err, ext_read_interest s, ext_write_interest s)
  else if (pid =? -1)%Z then
    (et_status_err, ext_read_interest s, ext_write_interest s)
  else if (pid =? 0)%Z then
    (et_status_err, ext_read_interest s, ext_write_interest s)
  else
    let rd := if reg_r then Some OP_READ else ext_read_interest s in
    if reg_r && nio_r then
      if reg_w && nio_w then (et_status_ok, rd, Some OP_WRITE)
      else (et_status_err, rd, None)
    else (et_status_err, rd, ext_write_interest s).

(** [external_transformation_init].  [None]: a store past the buffer's
    array or a failed assertion. *)
Definition external_transformation_init
    (r1 r2 pid : Z) (reg_r nio_r reg_w nio_w : bool) (s : pop3 P)
  : option (pop3 P) :=
  let pr := parser_reset (default parser_new (parser_read (et s))) in
  let pw := parser_reset (default parser_new (parser_write (et s))) in
  let '(st, rd, wr) :=
    open_external_transformation r1 r2 pid reg_r nio_r reg_w nio_w s in
  let b := extern_read_buffer s in
  let '(ptr, count) := buffer_write_ptr b in
  let failed := match st with et_status_err => true | _ => false end in
  let msg := if failed then err_msg else ok_msg in
  b ← Buffer.store b ptr (msg ++ [NUL]);          (* sprintf(ptr, ...) *)
  b ← buffer_write_adv b (Z.of_nat (length msg));
  let ci := if failed then OP_WRITE else client_interest s in
  let '(fin, sb, pr) := parse_mail (write_buffer s) pr in
  Some (mk_pop3
          (mk_et st (Some pr) (Some pw) false fin false false false false
                 0%nat sb)
          (write_buffer s) b (queue_is_empty s)
          ci (origin_interest s) rd wr
          (retrieved_messages s) (transferred_bytes s)).

(** Leaving the state once both directions are finished: to RESPONSE
    when requests are still queued, to REQUEST otherwise. *)
Definition leave (s : pop3 P) : pop3_state * fd_interest * fd_interest :=
  if negb (queue_is_empty s) then (RESPONSE, OP_NOOP, OP_READ)
  else (REQUEST, OP_READ, OP_NOOP).

(** [external_transformation_write]: [o] is what the client socket
    answers to [send].  The result carries the bytes put on the client
    socket. *)
Definition external_transformation_write (s : pop3 P) (o : outgoing)
  : option (pop3_state * pop3 P * bytes) :=
  let e := et s in
  let b := extern_read_buffer s in
  '(b, we) ←
    (if error_wr e && negb (did_write e) then
       let b := buffer_reset b in
       let '(ptr, count) := buffer_write_ptr b in
       b ← Buffer.store b ptr (err_msg ++ [NUL]);
       b ← buffer_write_adv b (Z.of_nat (length err_msg));
       Some (b, true)
     else Some (b, write_error e));
  '(b, we) ←
    (if error_wr e && did_write e && negb we then
       let '(ptr, count) := buffer_write_ptr b in
       b ← Buffer.store b ptr (body_end ++ [NUL]);
       b ← buffer_write_adv b (Z.of_nat (length body_end));
       Some (b, true)
     else Some (b, we));
  let '(ptr, count) := buffer_read_ptr b in
  let bytes_sent :=
    if negb (send_bytes_write e =? 0)%nat then send_bytes_write e else count in
  let '(n, put) := send o (take bytes_sent (drop ptr (data b))) in
  if (0 <? n)%Z then
    let sbw := if negb (send_bytes_write e =? 0)%nat
               then (send_bytes_write e - Z.to_nat n)%nat
               else send_bytes_write e in
    let fw := if negb (send_bytes_write e =? 0)%nat then true else finish_wr e in
    b ← buffer_read_adv b n;
    let rm := if fw then Metrics.uint (retrieved_messages s + 1)
              else retrieved_messages s in
    let e' := mk_et (status e) (parser_read e) (parser_write e)
                fw (finish_rd e) (error_wr e) (error_rd e) true we
                sbw (send_bytes_read e) in
    let tb := (transferred_bytes s + n)%Z in
    if (error_wr e || fw) && (sbw =? 0)%nat then
      if finished_et e' then
        let '(ret, ci, oi) := leave s in
        Some (ret,
              mk_pop3 e' (write_buffer s) b (queue_is_empty s) ci oi
                (ext_read_interest s) (ext_write_interest s) rm tb,
              put)
      else
        Some (EXTERNAL_TRANSFORMATION,
              mk_pop3 e' (write_buffer s) b (queue_is_empty s)
                OP_NOOP (origin_interest s)
                (set_interest OP_READ (ext_read_interest s))
                (ext_write_interest s) rm tb,
              put)
    else if negb (error_wr e) then
      Some (EXTERNAL_TRANSFORMATION,
            mk_pop3 e' (write_buffer s) b (queue_is_empty s)
              OP_NOOP (origin_interest s)
              (set_interest OP_READ (ext_read_interest s))
              (ext_write_interest s) rm tb,
            put)
    else
      Some (EXTERNAL_TRANSFORMATION,
            mk_pop3 e' (write_buffer s) b (queue_is_empty s)
              (client_interest s) (origin_interest s)
              (ext_read_interest s) (ext_write_interest s) rm tb,
            put)
  else
    let s' := mk_pop3
                (mk_et (status e) (parser_read e) (parser_write e)
                   (finish_wr e) (finish_rd e) (error_wr e) (error_rd e)
                   (did_write e) we (send_bytes_write e) (send_bytes_read e))
                (write_buffer s) b (queue_is_empty s)
                (client_interest s) (origin_interest s)
                (ext_read_interest s) (ext_write_interest s)
                (retrieved_messages s) (transferred_bytes s) in
    Some (if (n =? -1)%Z then ERROR else EXTERNAL_TRANSFORMATION, s', []).

(** [external_transformation_read]: [i] is what the origin offers. *)
Definition external_transformation_read (s : pop3 P) (i : incoming)
  : option (pop3_state * pop3 P) :=
  let e := et s in
  let b := write_buffer s in
  let '(ptr, count) := buffer_write_ptr b in
  let '(n, got) := recv i count in
  if (0 <? n)%Z then
    b ← Buffer.store b ptr got;
    b ← buffer_write_adv b n;
    pr ← parser_read e;
    let '(fin, sb, pr) := parse_mail b pr in
    if fin || (n =? 0)%Z then
      b ← (if error_rd e then buffer_read_adv b (Z.of_nat sb) else Some b);
      let e' := mk_et (status e) (Some pr) (parser_write e)
                  (finish_wr e) true (error_wr e) (error_rd e)
                  (did_write e) (write_error e) (send_bytes_write e) sb in
      if finished_et e' then
        let '(ret, ci, oi) := leave s in
        Some (ret,
              mk_pop3 e' b (extern_read_buffer s) (queue_is_empty s) ci oi
                (ext_read_interest s) (ext_write_interest s)
                (retrieved_messages s) (transferred_bytes s))
      else
        Some (EXTERNAL_TRANSFORMATION,
              mk_pop3 e' b (extern_read_buffer s) (queue_is_empty s)
                (client_interest s) OP_NOOP
                (ext_read_interest s)
                (set_interest OP_WRITE (ext_write_interest s))
                (retrieved_messages s) (transferred_bytes s))
    else
      let e' := mk_et (status e) (Some pr) (parser_write e)
                  (finish_wr e) (finish_rd e) (error_wr e) (error_rd e)
                  (did_write e) (write_error e) (send_bytes_write e) sb in
      if negb (error_rd e) then
        Some (EXTERNAL_TRANSFORMATION,
              mk_pop3 e' b (extern_read_buffer s) (queue_is_empty s)
                (client_interest s) OP_NOOP
                (ext_read_interest s)
                (set_interest OP_WRITE (ext_write_interest s))
                (retrieved_messages s) (transferred_bytes s))
      else
        b ← buffer_read_adv b n;
        Some (EXTERNAL_TRANSFORMATION,
              mk_pop3 e' b (extern_read_buffer s) (queue_is_empty s)
                (client_interest s) (origin_interest s)
                (ext_read_interest s) (ext_write_interest s)
                (retrieved_messages s) (transferred_bytes s))
  else Some (if (n =? -1)%Z then ERROR else EXTERNAL_TRANSFORMATION, s).

(** The handlers the selector can run on a session in this state whose
    child descriptors are not registered: a write event on the client
    socket, a read event on the origin socket. *)
Inductive et_event :=
| ClientWritable (o : outgoing)
| OriginReadable (i : incoming).

(** The events in order, for as long as the machine stays in
    EXTERNAL_TRANSFORMATION: the state reached and every byte put on the
    client socket.  An event whose handler crashes ends the run in
    ERROR. *)
Fixpoint et_run (evs : list et_event) (s : pop3 P) : pop3_state * bytes :=
  match evs with
  | [] => (EXTERNAL_TRANSFORMATION, [])
  | ClientWritable o :: evs' =>
      match external_transformation_write s o with
      | Some (EXTERNAL_TRANSFORMATION, s', put) =>
          let '(st, out) := et_run evs' s' in (st, put ++ out)
      | Some (st, _, put) => (st, put)
      | None => (ERROR, [])
      end
  | OriginReadable i :: evs' =>
      match external_transformation_read s i with
      | Some (EXTERNAL_TRANSFORMATION, s') => et_run evs' s'
      | Some (st, _) => (st, [])
      | None => (ERROR, [])
      end
  end.

End WithMultiParser.

(** A session as RESPONSE hands it over: empty staging buffer, the
    first bytes of the mail (if any) already in [write_buffer], both
    sockets idle, no child registered. *)
Definition entering {P : Type} (mail_so_far : buffer) (queue_empty : bool)
  : pop3 P :=
  mk_pop3 (mk_et et_status_ok None None false false false false false false
             0%nat 0%nat)
    mail_so_far (buffer_init BUFFER_SIZE) queue_empty
    OP_NOOP OP_NOOP None None 0 0.

(** ** The child cannot be started *)

Section SpawnFailure.
Context {P : Type}.
Variable parser_new : P.
Variable parser_reset : P -> P.
Variable parser_feed : P -> ascii -> P * bool.

(** What holds from a failed [external_transformation_init] on: the
    child-to-client direction is neither finished nor failed. *)
Definition waiting (s : pop3 P) : Prop :=
  error_wr (et s) = false /\ finish_wr (et s) = false /\
  send_bytes_write (et s) = 0%nat.

Lemma write_step (s : pop3 P) (o : outgoing) :
  waiting s ->
  match external_transformation_write s o with
  | Some (st, s', put) =>
      (st = EXTERNAL_TRANSFORMATION \/ st = ERROR) /\
      (st = EXTERNAL_TRANSFORMATION -> waiting s') /\
      exists rest,
        readable (extern_read_buffer s) = put ++ rest /\
        (st = EXTERNAL_TRANSFORMATION -> readable (extern_read_buffer s') = rest)
  | None => True
  end.
Proof.
  intros (Hew & Hfw & Hsb). unfold external_transformation_write.
  rewrite Hew, Hfw, Hsb. cbn [andb orb negb Nat.eqb mbind option_bind].
  unfold buffer_read_ptr.
  change (take (write (extern_read_buffer s) - read (extern_read_buffer s))
            (drop (read (extern_read_buffer s)) (data (extern_read_buffer s))))
    with (readable (extern_read_buffer s)).
  set (b := extern_read_buffer s).
  destruct o as [|k]; cbn [send].
  - cbn. split; [right; reflexivity|]. split; [discriminate|].
    exists (readable b). split; [reflexivity | discriminate].
  - set (put := take k (readable b)).
    assert (readable b = put ++ drop (length put) (readable b)) as Hsplit.
    { subst put. rewrite <- (take_drop k (readable b)) at 1. f_equal.
      rewrite length_take.
      destruct (Nat.le_gt_cases k (length (readable b))).
      - f_equal. lia.
      - rewrite !drop_ge by lia. reflexivity. }
    destruct (0 <? Z.of_nat (length put))%Z eqn:En.
    + apply Z.ltb_lt in En.
      assert (read b + length put <= write b)%nat as Hle.
      { subst put. rewrite length_take in *. unfold readable in *.
        rewrite length_take, length_drop in *. lia. }
      destruct (buffer_read_adv b (Z.of_nat (length put))) as [b'|] eqn:Ea;
        [|exact I].
      cbn [mbind option_bind]. cbn.
      split; [left; reflexivity|]. split; [intros _; repeat split; assumption|].
      exists (drop (length put) (readable b)). split; [exact Hsplit|].
      intros _. apply (readable_read_adv b b' (length put) Hle Ea).
    + apply Z.ltb_ge in En. assert (put = []) as Hp
        by (destruct put; [reflexivity | simpl in En; lia]).
      rewrite Hp. cbn.
      split; [left; reflexivity|]. split; [intros _; repeat split; assumption|].
      exists (readable b). split; [reflexivity | reflexivity].
Qed.

Lemma read_step (s : pop3 P) (i : incoming) :
  waiting s ->
  match external_transformation_read parser_feed s i with
  | Some (st, s') =>
      (st = EXTERNAL_TRANSFORMATION \/ st = ERROR) /\
      (st = EXTERNAL_TRANSFORMATION ->
         waiting s' /\ extern_read_buffer s' = extern_read_buffer s)
  | None => True
  end.
Proof.
  intros (Hew & Hfw & Hsb). unfold external_transformation_read.
  destruct (buffer_write_ptr (write_buffer s)) as [ptr count].
  destruct (recv i count) as [n got].
  destruct (0 <? n)%Z eqn:En.
  - destruct (Buffer.store (write_buffer s) ptr got) as [b1|]; [|exact I].
    cbn [mbind option_bind].
    destruct (buffer_write_adv b1 n) as [b2|]; [|exact I].
    cbn [mbind option_bind].
    destruct (parser_read (et s)) as [pr|]; [|exact I].
    cbn [mbind option_bind].
    destruct (parse_mail parser_feed b2 pr) as [[fin sb] pr'].
    destruct (fin || (n =? 0)%Z).
    + destruct (if error_rd (et s) then buffer_read_adv b2 (Z.of_nat sb)
                else Some b2) as [b3|]; [|exact I].
      cbn [mbind option_bind]. unfold finished_et.
      cbn [finish_rd finish_wr error_wr]. rewrite Hfw, Hew. cbn [andb].
      split; [left; reflexivity|]. intros _.
      split; [repeat split; assumption | reflexivity].
    + destruct (negb (error_rd (et s))).
      * split; [left; reflexivity|]. intros _.
        split; [repeat split; assumption | reflexivity].
      * destruct (buffer_read_adv b2 n) as [b3|]; [|exact I].
        cbn [mbind option_bind].
        split; [left; reflexivity|]. intros _.
        split; [repeat split; assumption | reflexivity].
  - destruct (n =? -1)%Z.
    + split; [right; reflexivity | discriminate].
    + split; [left; reflexivity|]. intros _.
      split; [repeat split; assumption | reflexivity].
Qed.

Lemma et_run_waiting (evs : list et_event) :
  forall s : pop3 P,
  waiting s ->
  (fst (et_run parser_feed evs s) = EXTERNAL_TRANSFORMATION \/
   fst (et_run parser_feed evs s) = ERROR) /\
  exists rest,
    readable (extern_read_buffer s) = snd (et_run parser_feed evs s) ++ rest.
Proof.
  induction evs as [|ev evs IH]; intros s Hw; cbn [et_run].
  - split; [left; reflexivity|]. eexists; reflexivity.
  - destruct ev as [o|i].
    + pose proof (write_step s o Hw) as Hs.
      destruct (external_transformation_write s o) as [[[st s'] put]|];
        [|split; [right; reflexivity | eexists; reflexivity]].
      destruct Hs as ([->| ->] & Hw' & rest & Hsplit & Hrest).
      * destruct (IH s' (Hw' eq_refl)) as (Hst & rest' & Hr').
        destruct (et_run parser_feed evs s') as [st' out]. cbn [fst snd] in *.
        split; [exact Hst|]. exists rest'.
        rewrite Hsplit, <- app_assoc, <- Hr', (Hrest eq_refl). reflexivity.
      * cbn [fst snd]. split; [right; reflexivity|]. exists rest. exact Hsplit.
    + pose proof (read_step s i Hw) as Hs.
      destruct (external_transformation_read parser_feed s i) as [[st s']|];
        [|split; [right; reflexivity | eexists; reflexivity]].
      destruct Hs as ([->| ->] & Hw').
      * destruct (Hw' eq_refl) as [Hw'' Hb]. rewrite <- Hb. apply IH. exact Hw''.
      * cbn [fst snd]. split; [right; reflexivity|]. eexists; reflexivity.
Qed.

Lemma init_failed (r1 r2 pid : Z) (reg_r nio_r reg_w nio_w : bool)
    (mail : buffer) (qe : bool) :
  (r1 <? 0)%Z || (r2 <? 0)%Z || (pid =? -1)%Z = true ->
  exists s,
    external_transformation_init parser_new parser_reset parser_feed
      r1 r2 pid reg_r nio_r reg_w nio_w (entering mail qe) = Some s /\
    status (et s) = et_status_err /\
    waiting s /\
    readable (extern_read_buffer s) = err_msg /\
    client_interest s = OP_WRITE /\ origin_interest s = OP_NOOP /\
    ext_read_interest s = None /\ ext_write_interest s = None.
Proof.
  intros Hf. unfold external_transformation_init.
  assert (open_external_transformation r1 r2 pid reg_r nio_r reg_w nio_w
            (entering (P := P) mail qe) = (et_status_err, None, None)) as Ho.
  { unfold open_external_transformation.
    destruct ((r1 <? 0)%Z || (r2 <? 0)%Z); [reflexivity|].
    cbn [orb] in Hf. rewrite Hf. reflexivity. }
  rewrite Ho. unfold entering.
  cbn [extern_read_buffer write_buffer et parser_read parser_write
       queue_is_empty client_interest origin_interest retrieved_messages
       transferred_bytes].
  set (B := buffer_init BUFFER_SIZE).
  assert (read B = 0%nat) as HBr by reflexivity.
  assert (write B = 0%nat) as HBw by reflexivity.
  assert (limit B = 2048%nat) as HBl
    by (unfold limit, B, buffer_init; cbn [data]; apply length_replicate).
  clearbody B. unfold buffer_write_ptr. rewrite HBw.
  assert (length (err_msg ++ [NUL]) = 47%nat) as Lm by reflexivity.
  assert (length err_msg = 46%nat) as Le by reflexivity.
  rewrite store_some by (rewrite Lm, HBl; lia).
  cbn [mbind option_bind].
  rewrite write_adv_some
    by (unfold limit in *; cbn [data write];
        first [ lia
              | rewrite !length_app, length_take, length_drop, Le, HBw, HBl;
                simpl; lia ]).
  cbn [mbind option_bind data read write].
  destruct (parse_mail parser_feed mail (parser_reset (default parser_new None)))
    as [[fin sb] pr].
  eexists. split; [reflexivity|].
  cbn [et status extern_read_buffer client_interest origin_interest
       ext_read_interest ext_write_interest].
  split; [reflexivity|]. split; [repeat split|].
  split; [|auto].
  unfold readable. cbn [data read write].
  rewrite HBr, HBw, Nat2Z.id, drop_0, take_0. cbn [app Nat.add].
  rewrite Nat.sub_0_r, <- app_assoc, Le. apply (take_app_length err_msg).
Qed.

End SpawnFailure.

(** The two ways the spawn fails before anything is registered:
    [pipe] fails, or [fork] fails. *)
Inductive spawn_failure := PipeFails | ForkFails.

Definition pipe_result (f : spawn_failure) : Z :=
  match f with PipeFails => -1 | ForkFails => 0 end.
Definition fork_result (f : spawn_failure) : Z :=
  match f with PipeFails => 1 | ForkFails => -1 end.

(** C6, on the code: the child cannot be started.  The state writes the
    error line into the staging buffer and arms the client socket, with
    no child descriptor registered.  A client that takes the whole line
    receives exactly that line; the handler answers
    EXTERNAL_TRANSFORMATION again and leaves the client and the origin
    socket without interest and the transformation unfinished.  And
    whatever write events on the client and read events on the origin
    follow, the machine never answers REQUEST or RESPONSE, and the client
    never receives anything beyond a prefix of the error line: no body,
    no terminator. *)
Theorem et_spawn_failure_never_leaves {P : Type}
    (parser_new : P) (parser_reset : P -> P)
    (parser_feed : P -> ascii -> P * bool)
    (f : spawn_failure) (reg_r nio_r reg_w nio_w : bool)
    (mail : buffer) (qe : bool) (evs : list et_event) :
  exists s s',
    external_transformation_init parser_new parser_reset parser_feed
      (pipe_result f) (pipe_result f) (fork_result f)
      reg_r nio_r reg_w nio_w (entering mail qe) = Some s /\
    status (et s) = et_status_err /\
    readable (extern_read_buffer s) = err_msg /\
    client_interest s = OP_WRITE /\
    ext_read_interest s = None /\ ext_write_interest s = None /\
    external_transformation_write s (SendAccepts 46)
      = Some (EXTERNAL_TRANSFORMATION, s', err_msg) /\
    client_interest s' = OP_NOOP /\ origin_interest s' = OP_NOOP /\
    ext_read_interest s' = None /\ ext_write_interest s' = None /\
    finished_et (et s') = false /\
    readable (extern_read_buffer s') = [] /\
    fst (et_run parser_feed evs s) <> REQUEST /\
    fst (et_run parser_feed evs s) <> RESPONSE /\
    exists rest, err_msg = snd (et_run parser_feed evs s) ++ rest.
Proof.
  destruct (init_failed parser_new parser_reset parser_feed
              (pipe_result f) (pipe_result f) (fork_result f)
              reg_r nio_r reg_w nio_w mail qe)
    as (s & Hinit & Hst & Hw & Hview & Hci & Hoi & Her & Hew);
    [destruct f; reflexivity|].
  pose proof (write_step s (SendAccepts 46) Hw) as Hstep.
  destruct Hw as (Hewr & Hfw & Hsb).
  assert (exists s', external_transformation_write s (SendAccepts 46)
                     = Some (EXTERNAL_TRANSFORMATION, s', err_msg) /\
                     client_interest s' = OP_NOOP /\
                     origin_interest s' = OP_NOOP /\
                     ext_read_interest s' = None /\
                     ext_write_interest s' = None /\
                     finished_et (et s') = false /\
                     readable (extern_read_buffer s') = []) as (s' & Hwr & Hrest).
  { revert Hstep. unfold external_transformation_write.
    rewrite Hewr, Hfw, Hsb. cbn [andb orb negb Nat.eqb mbind option_bind].
    unfold buffer_read_ptr.
    change (take (write (extern_read_buffer s) - read (extern_read_buffer s))
              (drop (read (extern_read_buffer s)) (data (extern_read_buffer s))))
      with (readable (extern_read_buffer s)).
    rewrite Hview. cbn [send].
    change (take 46 err_msg) with err_msg.
    change (0 <? Z.of_nat (length err_msg))%Z with true. cbn match.
    destruct (buffer_read_adv (extern_read_buffer s) (Z.of_nat (length err_msg)))
      as [b'|] eqn:Ea.
    - cbn [mbind option_bind]. intros (_ & _ & rest & Hsplit & Hr).
      eexists. split; [reflexivity|].
      cbn [client_interest origin_interest ext_read_interest ext_write_interest
           et extern_read_buffer].
      rewrite Hoi, Her, Hew. cbn [set_interest].
      unfold finished_et. cbn [finish_rd finish_wr error_wr].
      rewrite ?andb_false_r.
      repeat (split; [reflexivity|]).
      cbn [extern_read_buffer] in Hr. rewrite (Hr eq_refl).
      apply (f_equal (@length ascii)) in Hsplit.
      rewrite length_app in Hsplit.
      destruct rest; [reflexivity | simpl in Hsplit; lia].
    - exfalso. revert Ea. unfold buffer_read_adv.
      change (Z.of_nat (length err_msg) <? 0)%Z with false. cbn match.
      assert (length (readable (extern_read_buffer s)) = 46%nat) as Hl
        by (rewrite Hview; reflexivity).
      unfold readable in Hl. rewrite length_take, length_drop in Hl.
      change (Z.to_nat (Z.of_nat (length err_msg))) with 46%nat.
      destruct (read (extern_read_buffer s) + 46 <=? write (extern_read_buffer s))%nat
        eqn:E; [|apply Nat.leb_gt in E; lia].
      destruct (read (extern_read_buffer s) + 46 =? write (extern_read_buffer s))%nat;
        discriminate. }
  destruct Hrest as (H1 & H2 & H3 & H4 & H5 & H6).
  destruct (et_run_waiting parser_feed evs s (conj Hewr (conj Hfw Hsb)))
    as (Hrun & rest & Hout).
  exists s, s'. rewrite Hview in Hout.
  repeat (split; [assumption|]).
  split; [destruct Hrun as [-> | ->]; discriminate|].
  split; [destruct Hrun as [-> | ->]; discriminate|].
  exists rest. exact Hout.
Qed.

End ExtTransf.


(* ===================================================================== *)
(** * The management channel *)
(* ===================================================================== *)

Module Management.
Import CStr Mem.

(** Modelled from the spec: management.h is not part of the sources.
    The channel's machine has the states HELO, USER, PASS, CONFIG, in
    the order of [action_list]. *)
Inductive parse_status := ST_HELO | ST_USER | ST_PASS | ST_CONFIG.

(** The values of [data->error] that [parse_commands] and
    [split_commands] name, and any other value. *)
Inductive parse_error :=
| PARSE_OK | ERROR_WRONGARGS | ERROR_MALLOC | ERROR_DISCONNECT | ERROR_OTHER.

(** The fields of [struct management] the parser uses.  [cmd] is the
    argv array: [cmd !! i] is [cmd[i]], a pointer to a string. *)
Record management := mk_management {
  client_fd : Z;
  status : parse_status;
  error : parse_error;
  argc : Z;
  cmd : list ptr;
  user : option ptr;
}.

(** [struct options] (parameters.h): the fields the management channel
    reads or writes.  [M] is the type of [filtered_media_types]. *)
Record options (M : Type) := mk_options {
  replacement_msg : option ptr;
  filtered_media_types : M;
  et_activated : bool;
  filter_command : option ptr;
  opt_user : option ptr;
  opt_pass : option ptr;
}.
Arguments mk_options {M}.
Arguments replacement_msg {M}.
Arguments filtered_media_types {M}.
Arguments et_activated {M}.
Arguments filter_command {M}.
Arguments opt_user {M}.
Arguments opt_pass {M}.

(** What the handlers do to the connection, in order. *)
Inductive action :=
| SendOk (msg : bytes)        (* send_ok(data, msg) *)
| SendError (msg : bytes)     (* send_error(data, msg) *)
| SendRaw (msg : bytes)       (* send(fd, msg, strlen(msg), 0) *)
| Close (fd : Z)              (* close(fd) *)
| Unregister (fd : Z).        (* selector_unregister_fd(s, fd) *)

(** Modelled from the spec: [send_ok] and [send_error] are not part of
    the sources.  Replies carry a POP3-like [+OK] / [-ERR] prefix. *)
Definition on_wire (a : action) : bytes :=
  match a with
  | SendOk msg => lit "+OK " ++ msg
  | SendError msg => lit "-ERR " ++ msg
  | SendRaw msg => msg
  | Close _ | Unregister _ => []
  end.

(** The heap, the process-wide [parameters] and the connection. *)
Record world (M : Type) := mk_world {
  heap : mem;
  parameters : options M;
  wire : list action;
}.
Arguments mk_world {M}.
Arguments heap {M}.
Arguments parameters {M}.
Arguments wire {M}.

Definition say {M} (a : action) (w : world M) : world M :=
  mk_world (heap w) (parameters w) (wire w ++ [a]).

Definition with_heap {M} (m : mem) (w : world M) : world M :=
  mk_world m (parameters w) (wire w).

Definition with_parameters {M} (o : options M) (w : world M) : world M :=
  mk_world (heap w) o (wire w).

(** The collaborators of [parse_config] and [parse_commands] that are
    not part of the sources: the MIME type tree (media_types.c), the
    metrics text of STATS, and [free_cmd]. *)
Class externals (M : Type) := {
  get_types_list : M -> ascii -> bytes;
  is_mime : bytes -> option (bytes * bytes);
  add_media_type : M -> bytes -> bytes -> M * Z;
  delete_media_type : M -> bytes -> bytes -> M * Z;
  stats_text : bytes;
  free_cmd : list ptr -> Z -> mem -> mem;
}.

Section WithExternals.
Context {M : Type} `{externals M}.

(** The string [cmd[i]]. *)
Definition arg (data : management) (i : nat) (w : world M) : bytes * world M :=
  let '(s, m) := load_str (cmd data !! i) (heap w) in (s, with_heap m w).

(** [char * str = malloc(sizeof(char) * strlen(s))] *)
Definition malloc_strlen (s : bytes) (w : world M) : option ptr * world M :=
  let '(p, m) := malloc (size_t (strlen s)) (heap w) in (p, with_heap m w).

Definition do_strcpy (dst : option ptr) (s : bytes) (w : world M) : world M :=
  with_heap (strcpy dst s (heap w)) w.

Definition do_free (p : option ptr) (w : world M) : world M :=
  with_heap (free p (heap w)) w.

(** The labels at the end of [parse_config]. *)
Definition fail (w : world M) : Z * world M :=
  (0, say (SendError (lit "command not recognized.")) w)%Z.
Definition fail_mem (w : world M) : Z * world M :=
  (0, say (SendError (lit "server error.")) w)%Z.
Definition fail_type (w : world M) : Z * world M :=
  (0, say (SendError (lit "wrong media type.")) w)%Z.
Definition success (w : world M) : Z * world M :=
  (0, say (SendOk (lit "Done.")) w)%Z.

(** [parse_config(data)] *)
Definition parse_config (data : management) (w : world M) : Z * world M :=
  let '(cmd0, w) := arg data 0 w in
  if (strcasecmp (lit "CMD") cmd0 =? 0)%Z then
    if (argc data =? 1)%Z then
      let o := parameters w in
      let o := mk_options (replacement_msg o) (filtered_media_types o)
                 (negb (et_activated o)) (filter_command o)
                 (opt_user o) (opt_pass o) in
      let w := with_parameters o w in
      if et_activated o then
        (0, say (SendOk (lit "External transformations activated.")) w)%Z
      else
        (0, say (SendOk (lit "External transformations deactivated.")) w)%Z
    else if negb (argc data =? 2)%Z then fail w
    else
      let '(cmd1, w) := arg data 1 w in
      let '(str, w) := malloc_strlen cmd1 w in
      let w := do_strcpy str cmd1 w in
      match str with
      | None => fail w
      | Some _ =>
          let o := parameters w in
          let w := match filter_command o with
                   | Some _ => do_free (filter_command o) w
                   | None => w
                   end in
          let o := mk_options (replacement_msg o) (filtered_media_types o)
                     (et_activated o) str (opt_user o) (opt_pass o) in
          success (with_parameters o w)
      end
  else if (strcasecmp (lit "MSG") cmd0 =? 0)%Z then
    if negb (argc data =? 2)%Z then fail w
    else
      let '(cmd1, w) := arg data 1 w in
      let '(str, w) := malloc_strlen cmd1 w in
      match str with
      | None => fail_mem w
      | Some _ =>
          let w := do_strcpy str cmd1 w in
          let o := parameters w in
          let o := mk_options (cmd data !! 1%nat) (filtered_media_types o)
                     (et_activated o) (filter_command o)
                     (opt_user o) (opt_pass o) in
          success (with_parameters o w)
      end
  else if (strcasecmp (lit "LIST") cmd0 =? 0)%Z then
    if negb (argc data =? 1)%Z then fail w
    else
      let msg := get_types_list (filtered_media_types (parameters w)) LF in
      (0, say (SendOk msg) w)%Z
  else if (strcasecmp (lit "BAN") cmd0 =? 0)%Z then
    if negb (argc data =? 2)%Z then fail w
    else
      let '(cmd1, w) := arg data 1 w in
      let '(str, w) := malloc_strlen cmd1 w in
      match str with
      | None => fail_mem w
      | Some _ =>
          let w := do_strcpy str cmd1 w in
          match is_mime cmd1 with
          | None => fail_type w
          | Some (type, subtype) =>
              let '(s, w) := malloc_strlen subtype w in
              match s with
              | None => fail_mem w
              | Some _ =>
                  let w := do_strcpy s subtype w in
                  let o := parameters w in
                  let '(mt, r) :=
                    add_media_type (filtered_media_types o) type subtype in
                  let o := mk_options (replacement_msg o) mt (et_activated o)
                             (filter_command o) (opt_user o) (opt_pass o) in
                  let w := with_parameters o w in
                  if (r <? 0)%Z
                  then (0, say (SendError (lit "could not ban type")) w)%Z
                  else (0, say (SendOk (lit "type banned")) w)%Z
              end
          end
      end
  else if (strcasecmp (lit "UNBAN") cmd0 =? 0)%Z then
    if negb (argc data =? 2)%Z then fail w
    else
      let '(cmd1, w) := arg data 1 w in
      match is_mime cmd1 with
      | None => fail_type w
      | Some (type, subtype) =>
          let o := parameters w in
          let '(mt, r) :=
            delete_media_type (filtered_media_types o) type subtype in
          let o := mk_options (replacement_msg o) mt (et_activated o)
                     (filter_command o) (opt_user o) (opt_pass o) in
          let w := with_parameters o w in
          if (r <? 0)%Z
          then (0, say (SendError (lit "could not unban type")) w)%Z
          else (0, say (SendOk (lit "type unbanned")) w)%Z
      end
  else if (strcasecmp (lit "STATS") cmd0 =? 0)%Z then
    if negb (argc data =? 1)%Z then fail w
    else (0, say (SendOk stats_text) w)%Z
  else fail w.

(** [parse_hello(data)] *)
Definition parse_hello (data : management) (w : world M)
  : Z * management * world M :=
  (0%Z,
   mk_management (client_fd data) ST_USER (error data) (argc data)
     (cmd data) (user data),
   say (SendRaw (lit "POP3 Proxy Management Server." ++ [LF])) w).

(** [parse_user(data)] *)
Definition parse_user (data : management) (w : world M)
  : Z * management * world M :=
  let '(cmd0, w) := arg data 0 w in
  if (strcasecmp (lit "USER") cmd0 =? 0)%Z then
    let '(cmd1, w) := arg data 1 w in
    let '(u, w) := malloc_strlen cmd1 w in
    match u with
    | None => ((-1)%Z, data, w)
    | Some _ =>
        let w := do_strcpy u cmd1 w in
        (0%Z,
         mk_management (client_fd data) ST_PASS (error data) (argc data)
           (cmd data) u,
         say (SendOk (lit "Welcome")) w)
    end
  else (0%Z, data, say (SendError (lit "command not recognized.")) w).

(** [parse_pass(data)] *)
Definition parse_pass (data : management) (w : world M)
  : Z * management * world M :=
  let '(cmd0, w) := arg data 0 w in
  if (strcasecmp (lit "PASS") cmd0 =? 0)%Z then
    let '(cmd1, w) := arg data 1 w in
    let '(pass, m) := load_str (opt_pass (parameters w)) (heap w) in
    let w := with_heap m w in
    let pass_ok := (strcmp pass cmd1 =? 0)%Z in
    let '(user_ok, w) :=
      if pass_ok then
        let '(pu, m) := load_str (opt_user (parameters w)) (heap w) in
        let '(du, m) := load_str (user data) m in
        ((strcmp pu du =? 0)%Z, with_heap m w)
      else (false, w) in
    if pass_ok && user_ok then
      let w := do_free (user data) w in
      (0%Z,
       mk_management (client_fd data) ST_CONFIG (error data) (argc data)
         (cmd data) (user data),
       say (SendOk (lit "Logged in.")) w)
    else
      (0%Z,
       mk_management (client_fd data) ST_USER (error data) (argc data)
         (cmd data) (user data),
       say (SendError (lit "Authentication failed. Try again.")) w)
  else (0%Z, data, say (SendError (lit "command not recognized.")) w).

(** [goodbye(data)] *)
Definition goodbye (data : management) (w : world M) : Z * world M :=
  ((-1)%Z, say (Close (client_fd data)) (say (SendOk (lit "Goodbye.")) w)).

(** [action_list[data->status]]: the action and its [args]. *)
Definition action_args (st : parse_status) : Z :=
  match st with
  | ST_HELO => 0 | ST_USER => 2 | ST_PASS => 2 | ST_CONFIG => 0
  end.

Definition run_action (data : management) (w : world M)
  : Z * management * world M :=
  match status data with
  | ST_HELO => parse_hello data w
  | ST_USER => parse_user data w
  | ST_PASS => parse_pass data w
  | ST_CONFIG => let '(r, w) := parse_config data w in (r, data, w)
  end.

(** [parse_commands(data)] *)
Definition parse_commands (data : management) (w : world M)
  : Z * management * world M :=
  let args := action_args (status data) in
  let st_err :=
    if negb (args =? 0)%Z && negb (args =? argc data)%Z
    then ERROR_WRONGARGS else error data in
  let quit_cmp :=
    if (argc data =? 1)%Z then Some (arg data 0 w) else None in
  match quit_cmp with
  | Some (cmd0, w') =>
      if (strcasecmp (lit "QUIT") cmd0 =? 0)%Z then
        let '(r, w'') := goodbye data w' in (r, data, w'')
      else
        match st_err with
        | PARSE_OK =>
            let '(r, data', w'') := run_action data w' in
            (r, data', with_heap (free_cmd (cmd data') args (heap w'')) w'')
        | ERROR_WRONGARGS =>
            (0%Z, data,
             say (SendError (lit "wrong command or wrong number of arguments.")) w')
        | ERROR_MALLOC =>
            (0%Z, data, say (SendError (lit "server error. Try again later.")) w')
        | _ => (0%Z, data, w')
        end
  | None =>
      match st_err with
      | PARSE_OK =>
          let '(r, data', w'') := run_action data w in
          (r, data', with_heap (free_cmd (cmd data') args (heap w'')) w'')
      | ERROR_WRONGARGS =>
          (0%Z, data,
           say (SendError (lit "wrong command or wrong number of arguments.")) w)
      | ERROR_MALLOC =>
          (0%Z, data, say (SendError (lit "server error. Try again later.")) w)
      | _ => (0%Z, data, w)
      end
  end.

(** [management_write(key)]: [ss] says whether the interest change
    succeeds; the descriptor is unregistered when [parse_commands]
    answers a negative status or the change fails. *)
Definition management_write (data : management) (w : world M) (ss : bool)
  : management * world M :=
  let '(r, data', w') := parse_commands data w in
  if (r <? 0)%Z then (data', say (Unregister (client_fd data')) w')
  else if negb ss then (data', say (Unregister (client_fd data')) w')
  else (data', w').

End WithExternals.

(** ** Proofs *)

Lemma strcasecmp_same_lower (a b : bytes) :
  map tolower a = map tolower b -> strcasecmp a b = 0%Z.
Proof.
  revert b. induction a as [|x a IH]; intros [|y b] Hm; simpl in *;
    try discriminate; [reflexivity|].
  injection Hm as Hxy Hm. rewrite Hxy, Z.sub_diag. simpl. apply IH. exact Hm.
Qed.

Section Facts.
Context {M : Type} `{externals M}.

(** Reading [cmd[0]] when it points to a well-formed string. *)
Lemma arg0_ok (data : management) (w : world M) (p : ptr) (blk word : bytes) :
  cmd data !! 0%nat = Some p ->
  blocks (heap w) !! p = Some blk -> c_str blk = Some word ->
  arg data 0 w = (word, w).
Proof.
  intros Hc Hb Hs. unfold arg. rewrite Hc.
  rewrite (load_str_ok p blk word (heap w) Hb Hs).
  destruct w; reflexivity.
Qed.

(** C9: a one-word command that spells QUIT in any letter case is
    honoured whatever the state of the channel's machine (HELO, USER,
    PASS or CONFIG) and whatever error the line parser reported:
    [parse_commands] answers through [goodbye], i.e. replies
    [+OK Goodbye.], closes the connection's descriptor and returns -1,
    upon which [management_write] unregisters the descriptor. *)
Theorem quit_honored_in_every_state
    (st : parse_status) (err : parse_error) (fd : Z) (argv : list ptr)
    (u : option ptr) (w : world M) (p : ptr) (blk word : bytes) (ss : bool) :
  argv !! 0%nat = Some p ->
  blocks (heap w) !! p = Some blk -> c_str blk = Some word ->
  map tolower word = lit "quit" ->
  let data := mk_management fd st err 1 argv u in
  parse_commands data w
    = ((-1)%Z, data, say (Close fd) (say (SendOk (lit "Goodbye.")) w)) /\
  on_wire (SendOk (lit "Goodbye.")) = lit "+OK Goodbye." /\
  management_write data w ss
    = (data,
       say (Unregister fd) (say (Close fd) (say (SendOk (lit "Goodbye.")) w))).
Proof.
  intros Hc Hb Hs Hq data.
  assert (parse_commands data w
          = ((-1)%Z, data, say (Close fd) (say (SendOk (lit "Goodbye.")) w)))
    as Hpc.
  { unfold parse_commands. cbn [argc data].
    change (1 =? 1)%Z with true. cbn match.
    rewrite (arg0_ok data w p blk word Hc Hb Hs).
    rewrite (strcasecmp_same_lower (lit "QUIT") word)
      by (rewrite Hq; reflexivity).
    reflexivity. }
  split; [exact Hpc|]. split; [reflexivity|].
  unfold management_write. rewrite Hpc. reflexivity.
Qed.

(** C7: in CONFIG, the one-word command CMD (any letter case) inverts
    [et_activated], touches nothing else of the configuration or of the
    heap, and replies with the state it has just set; so two CMD in a row
    leave the configuration as it was. *)
Theorem cmd_toggles_et_activated
    (data : management) (w : world M) (p : ptr) (blk word : bytes) :
  argc data = 1%Z ->
  cmd data !! 0%nat = Some p ->
  blocks (heap w) !! p = Some blk -> c_str blk = Some word ->
  map tolower word = lit "cmd" ->
  let o := parameters w in
  let w1 := snd (parse_config data w) in
  let w2 := snd (parse_config data w1) in
  fst (parse_config data w) = 0%Z /\
  parameters w1
    = mk_options (replacement_msg o) (filtered_media_types o)
        (negb (et_activated o)) (filter_command o) (opt_user o) (opt_pass o) /\
  heap w1 = heap w /\
  wire w1 = wire w ++
    [SendOk (if negb (et_activated o)
             then lit "External transformations activated."
             else lit "External transformations deactivated.")] /\
  et_activated (parameters w2) = et_activated o /\
  parameters w2 = o.
Proof.
  intros Ha Hc Hb Hs Hq o w1 w2.
  assert (forall w0 : world M,
            heap w0 = heap w ->
            parse_config data w0 =
              (0%Z,
               say (SendOk (if negb (et_activated (parameters w0))
                            then lit "External transformations activated."
                            else lit "External transformations deactivated."))
                 (with_parameters
                    (mk_options (replacement_msg (parameters w0))
                       (filtered_media_types (parameters w0))
                       (negb (et_activated (parameters w0)))
                       (filter_command (parameters w0))
                       (opt_user (parameters w0)) (opt_pass (parameters w0)))
                    w0))) as Hpc.
  { intros w0 Hh. unfold parse_config.
    rewrite (arg0_ok data w0 p blk word Hc) by (rewrite ?Hh; assumption).
    rewrite (strcasecmp_same_lower (lit "CMD") word)
      by (rewrite Hq; reflexivity).
    change (0 =? 0)%Z with true. cbn match. rewrite Ha.
    change (1 =? 1)%Z with true. cbn match.
    cbn [et_activated]. destruct (negb (et_activated (parameters w0)));
      reflexivity. }
  subst w1 w2. rewrite (Hpc w eq_refl). cbn [fst snd].
  rewrite Hpc by reflexivity. cbn [fst snd parameters say with_parameters
                                    heap wire et_activated].
  rewrite negb_involutive. subst o.
  repeat split. destruct (parameters w); reflexivity.
Qed.

End Facts.

(** ** A concrete channel *)

(** A list-backed stand-in for the MIME type tree, enough to run the
    handlers on examples. *)
#[local] Instance sample_externals : externals (list (bytes * bytes)) := {|
  get_types_list := fun m sep =>
    concat (map (fun ts => fst ts ++ lit "/" ++ snd ts ++ [sep]) m);
  is_mime := fun s => None;
  add_media_type := fun m t st => ((t, st) :: m, 0%Z);
  delete_media_type := fun m t st => (m, (-1)%Z);
  stats_text := [];
  free_cmd := fun _ _ m => m;
|}.

(** A heap holding the strings [ss], one object each, exactly sized. *)
Definition heap_of (ss : list bytes) : mem :=
  fold_left (fun m s => let '(p, m) := calloc (strlen s + 1) m in
                        Mem.store p 0 s m) ss Mem.empty.

(** An authenticated connection that has just received [argv]: the
    words sit at addresses 0, 1, ...; after them come the current
    replacement message and filter command. *)
Definition sample_world (argv : list bytes)
  : management * world (list (bytes * bytes)) :=
  let n := length argv in
  (mk_management 7 ST_CONFIG PARSE_OK (Z.of_nat n) (seq 0 n) None,
   mk_world (heap_of (argv ++ [lit "Parte reemplazada."; lit "cat"]))
     (mk_options (Some n) [] false (Some (S n)) None None) []).

Lemma quit_honored_in_every_state_witness :
  parse_commands
    (mk_management 7 ST_HELO ERROR_WRONGARGS 1 [0%nat] None)
    (snd (sample_world [lit "Quit"]))
  = ((-1)%Z,
     mk_management 7 ST_HELO ERROR_WRONGARGS 1 [0%nat] None,
     say (Close 7) (say (SendOk (lit "Goodbye.")) (snd (sample_world [lit "Quit"]))))
  /\ on_wire (SendOk (lit "Goodbye.")) = lit "+OK Goodbye."
  /\ management_write
       (mk_management 7 ST_HELO ERROR_WRONGARGS 1 [0%nat] None)
       (snd (sample_world [lit "Quit"])) true
     = (mk_management 7 ST_HELO ERROR_WRONGARGS 1 [0%nat] None,
        say (Unregister 7)
          (say (Close 7)
             (say (SendOk (lit "Goodbye.")) (snd (sample_world [lit "Quit"]))))).
Proof.
  apply (quit_honored_in_every_state ST_HELO ERROR_WRONGARGS 7 [0%nat] None
           (snd (sample_world [lit "Quit"])) 0%nat
           (lit "Quit" ++ [NUL]) (lit "Quit") true);
    vm_compute; reflexivity.
Defined.

Lemma cmd_toggles_et_activated_witness :
  et_activated (parameters (snd (sample_world [lit "cmd"]))) = false /\
  (fst (parse_config (fst (sample_world [lit "cmd"]))
          (snd (sample_world [lit "cmd"]))) = 0%Z /\
   parameters (snd (parse_config (fst (sample_world [lit "cmd"]))
                      (snd (sample_world [lit "cmd"]))))
     = mk_options (Some 1%nat) [] true (Some 2%nat) None None /\
   heap (snd (parse_config (fst (sample_world [lit "cmd"]))
                (snd (sample_world [lit "cmd"]))))
     = heap (snd (sample_world [lit "cmd"])) /\
   wire (snd (parse_config (fst (sample_world [lit "cmd"]))
                (snd (sample_world [lit "cmd"]))))
     = [] ++ [SendOk (lit "External transformations activated.")] /\
   et_activated
     (parameters
        (snd (parse_config (fst (sample_world [lit "cmd"]))
                (snd (parse_config (fst (sample_world [lit "cmd"]))
                        (snd (sample_world [lit "cmd"]))))))) = false /\
   parameters
     (snd (parse_config (fst (sample_world [lit "cmd"]))
             (snd (parse_config (fst (sample_world [lit "cmd"]))
                     (snd (sample_world [lit "cmd"]))))))
     = mk_options (Some 1%nat) [] false (Some 2%nat) None None).
Proof.
  split; [reflexivity|].
  apply (cmd_toggles_et_activated (fst (sample_world [lit "cmd"]))
           (snd (sample_world [lit "cmd"])) 0%nat
           (lit "cmd" ++ [NUL]) (lit "cmd"));
    vm_compute; reflexivity.
Defined.

(** C8, on the code: [MSG hello] in CONFIG.  The reply is [+OK Done.],
    but [replacement_msg] now holds [cmd[1]] itself, the argv string of
    the command, not a copy owned by the configuration; the copy that
    was made went into an object of [strlen] bytes, so its terminator
    was stored past the end (one fault: 6 bytes needed, 5 allocated) and
    the object, which nothing refers to, holds the text without a NUL;
    and the previous message is still allocated. *)
Theorem msg_stores_argv_pointer :
  let d := fst (sample_world [lit "MSG"; lit "hello"]) in
  let w := snd (sample_world [lit "MSG"; lit "hello"]) in
  let w' := snd (parse_config d w) in
  replacement_msg (parameters w) = Some 2%nat /\
  fst (load_str (Some 2%nat) (heap w)) = lit "Parte reemplazada." /\
  fst (parse_config d w) = 0%Z /\
  wire w' = [SendOk (lit "Done.")] /\
  replacement_msg (parameters w') = cmd d !! 1%nat /\
  replacement_msg (parameters w') = Some 1%nat /\
  faults (heap w') = [Overflow 4 5 6] /\
  blocks (heap w') !! 4%nat = Some (lit "hello") /\
  c_str (lit "hello") = None /\
  fst (load_str (Some 2%nat) (heap w')) = lit "Parte reemplazada.".
Proof. vm_compute. repeat split; reflexivity. Qed.

(** The sibling command [CMD <shell>] on the same connection: the old
    value is released and the configuration receives the copy (which is
    one byte short in the same way). *)
Example cmd_shell_stores_copy :
  let d := fst (sample_world [lit "CMD"; lit "wc"]) in
  let w := snd (sample_world [lit "CMD"; lit "wc"]) in
  let w' := snd (parse_config d w) in
  filter_command (parameters w) = Some 3%nat /\
  filter_command (parameters w') = Some 4%nat /\
  blocks (heap w') !! 3%nat = None /\
  blocks (heap w') !! 4%nat = Some (lit "wc") /\
  faults (heap w') = [Overflow 4 2 3].
Proof. vm_compute. repeat split; reflexivity. Qed.

End Management.


(* ===================================================================== *)
(** * pop3.c: more of EXTERNAL_TRANSFORMATION *)
(* ===================================================================== *)

Module EtHandlers.
Import CStr Buffer Fsm ExtTransf.

(** ** The command line handed to the shell *)

(** The [size] computed by [open_external_transformation] for [env_cat],
    in [size_t] arithmetic: the constants are the lengths of the fixed
    parts of the format, the last 2 stands for the final blank and the
    terminator. *)
Definition env_size (medias msg version user server command : bytes) : Z :=
  let add (a b : Z) := Mem.size_t (a + b) in
  (add (add (add (add (add (add (add (add (add (add (add (add 14
    (Mem.strlen medias)) 13) (Mem.strlen msg)) 23) (Mem.strlen version)) 17)
    (Mem.strlen user)) 15) (Mem.strlen server)) 2) (Mem.strlen command)) 2)%Z.

Definition DQUOTE : ascii := ascii_of_nat 34.

(** What [sprintf(env_cat, "FILTER_MEDIAS=%s FILTER_MSG=\"%s\" ...", ...)]
    writes, terminator apart. *)
Definition env_cat (medias msg version user server command : bytes) : bytes :=
  lit "FILTER_MEDIAS=" ++ medias
  ++ lit " FILTER_MSG=" ++ [DQUOTE] ++ msg ++ [DQUOTE]
  ++ lit " POP3_FILTER_VERSION=" ++ [DQUOTE] ++ version ++ [DQUOTE]
  ++ lit " POP3_USERNAME=" ++ [DQUOTE] ++ user ++ [DQUOTE]
  ++ lit " POP3_SERVER=" ++ [DQUOTE] ++ server ++ [DQUOTE]
  ++ lit " " ++ command ++ lit " ".

Section WithMultiParser.
Context {P : Type}.
Variable parser_feed : P -> ascii -> P * bool.

(** [ext_read(key)]: the child's output is readable.  [i] is what
    [read] finds.  Unregistering the descriptor closes it ([ext_close]).
    [None]: a buffer assertion fails, or [et->parser_write] is NULL. *)
Definition ext_read (s : pop3 P) (i : incoming) : option (pop3 P) :=
  let e := et s in
  let b := extern_read_buffer s in
  let '(ptr, count) := buffer_write_ptr b in
  let '(n, got) := recv i count in
  if (n <? 0)%Z then
    Some (mk_pop3
            (mk_et (status e) (parser_read e) (parser_write e)
               (finish_wr e) (finish_rd e) true (error_rd e)
               (did_write e) (write_error e)
               (send_bytes_write e) (send_bytes_read e))
            (write_buffer s) b (queue_is_empty s)
            OP_WRITE (origin_interest s) None (ext_write_interest s)
            (retrieved_messages s) (transferred_bytes s))
  else
    b ← Buffer.store b ptr got;
    b ← buffer_write_adv b n;
    pw ← parser_write e;
    let '(fin, sb, pw) := parse_mail parser_feed b pw in
    let closed := fin || (n =? 0)%Z in
    Some (mk_pop3
            (mk_et (status e) (parser_read e) (Some pw)
               (finish_wr e) (finish_rd e)
               (if fin then error_wr e else if (n =? 0)%Z then true else error_wr e)
               (error_rd e) (did_write e) (write_error e)
               sb (send_bytes_read e))
            (write_buffer s) b (queue_is_empty s)
            OP_WRITE (origin_interest s)
            (if closed then None else set_interest OP_NOOP (ext_read_interest s))
            (ext_write_interest s)
            (retrieved_messages s) (transferred_bytes s)).

(** [ext_write(key)]: the child's input is writable.  [o] is what
    [write] answers.  The result carries the bytes handed to the child. *)
Definition ext_write (s : pop3 P) (o : outgoing) : option (pop3 P * bytes) :=
  let e := et s in
  let b := write_buffer s in
  let '(ptr, count) := buffer_read_ptr b in
  let bytes_sent :=
    if negb (send_bytes_read e =? 0)%nat then send_bytes_read e else count in
  let '(n, put) := send o (take bytes_sent (drop ptr (data b))) in
  if (0 <? n)%Z then
    let sbr := if negb (send_bytes_read e =? 0)%nat
               then (send_bytes_read e - Z.to_nat n)%nat
               else send_bytes_read e in
    b ← buffer_read_adv b n;
    let e' := mk_et (status e) (parser_read e) (parser_write e)
                (finish_wr e) (finish_rd e) (error_wr e) (error_rd e)
                (did_write e) (write_error e) (send_bytes_write e) sbr in
    if finish_rd e && (sbr =? 0)%nat then
      Some (mk_pop3 e' b (extern_read_buffer s) (queue_is_empty s)
              (client_interest s) (origin_interest s)
              (ext_read_interest s) None
              (retrieved_messages s) (transferred_bytes s), put)
    else
      Some (mk_pop3 e' b (extern_read_buffer s) (queue_is_empty s)
              (client_interest s) OP_READ
              (ext_read_interest s)
              (set_interest OP_NOOP (ext_write_interest s))
              (retrieved_messages s) (transferred_bytes s), put)
  else if (n =? -1)%Z then
    b ← (if (send_bytes_read e =? 0)%nat then Some (buffer_reset b)
         else buffer_read_adv b (Z.of_nat (send_bytes_read e)));
    Some (mk_pop3
            (mk_et et_status_err (parser_read e) (parser_write e)
               (finish_wr e) (finish_rd e) (error_wr e) true
               (did_write e) (write_error e)
               (send_bytes_write e) (send_bytes_read e))
            b (extern_read_buffer s) (queue_is_empty s)
            (client_interest s) OP_READ
            (ext_read_interest s) None
            (retrieved_messages s) (transferred_bytes s), [])
  else Some (s, []).

End WithMultiParser.

(** ** Facts *)

Lemma size_t_add (a b : Z) : Mem.size_t (Mem.size_t a + b) = Mem.size_t (a + b).
Proof. unfold Mem.size_t. apply Zplus_mod_idemp_l. Qed.


(** X1, [open_external_transformation]: the [size] handed to [malloc]
    for the child's command line is exactly the length of what
    [sprintf] writes there plus one for the terminator, as long as that
    number fits [size_t]. *)
Theorem env_cat_size_is_exact (medias msg version user server command : bytes) :
  (Z.of_nat (length (env_cat medias msg version user server command)) + 1
   < Mem.SIZE_MOD)%Z ->
  env_size medias msg version user server command
  = (Z.of_nat (length (env_cat medias msg version user server command)) + 1)%Z.
Proof.
  intros Hb. unfold env_size. cbv zeta. rewrite !size_t_add.
  unfold env_cat in *. rewrite !length_app in *.
  unfold Mem.strlen.
  change (length (lit "FILTER_MEDIAS=")) with 14%nat in *.
  change (length (lit " FILTER_MSG=")) with 12%nat in *.
  change (length (lit " POP3_FILTER_VERSION=")) with 21%nat in *.
  change (length (lit " POP3_USERNAME=")) with 15%nat in *.
  change (length (lit " POP3_SERVER=")) with 13%nat in *.
  change (length (lit " ")) with 1%nat in *.
  change (length [DQUOTE]) with 1%nat in *.
  unfold Mem.SIZE_MOD in Hb.
  repeat (rewrite <- ?Z.add_assoc; rewrite size_t_add).
  rewrite Mem.size_t_small by (split; [lia | eapply Z.le_lt_trans; [|exact Hb]; lia]). lia.
Qed.

Section HandlerFacts.
Context {P : Type}.
Variable parser_feed : P -> ascii -> P * bool.

Definition exit_ok (s : pop3 P) (st : pop3_state) (s' : pop3 P) : Prop :=
  st = EXTERNAL_TRANSFORMATION \/ st = ERROR \/
  (st = REQUEST /\ queue_is_empty s = true /\ finished_et (et s') = true /\
   client_interest s' = OP_READ /\ origin_interest s' = OP_NOOP) \/
  (st = RESPONSE /\ queue_is_empty s = false /\ finished_et (et s') = true /\
   client_interest s' = OP_NOOP /\ origin_interest s' = OP_READ).

Lemma exit_ok_leave (s s' : pop3 P) e b1 b2 a c r t :
  finished_et e = true ->
  match (let '(ret, ci, oi) := leave s in
         Some (ret, mk_pop3 e b1 b2 (queue_is_empty s) ci oi a c r t))
  with
  | Some (st, s') => exit_ok s st s'
  | None => True
  end.
Proof.
  intros Hf. unfold leave, exit_ok.
  destruct (queue_is_empty s); cbn; auto 10.
Qed.

Ltac bind_some :=
  match goal with
  | |- match mbind _ ?e with Some _ => _ | None => _ end =>
      destruct e; cbn [mbind option_bind]; [|exact I]
  end.

(** X4: the two handlers of the state answer EXTERNAL_TRANSFORMATION,
    ERROR, REQUEST or RESPONSE and nothing else.  They answer REQUEST
    only with an empty request queue and RESPONSE only with a non-empty
    one, in both cases only once [finished_et] holds of the state they
    leave behind, and with the read interest on the client (REQUEST) or
    on the origin (RESPONSE) and none on the other socket. *)
Theorem et_leaves_only_when_finished (s : pop3 P) :
  (forall o, match external_transformation_write s o with
             | Some (st, s', _) => exit_ok s st s'
             | None => True
             end) /\
  (forall i, match external_transformation_read parser_feed s i with
             | Some (st, s') => exit_ok s st s'
             | None => True
             end).
Proof.
  split.
  - intros o. unfold external_transformation_write.
    bind_some. destruct p as [b1 we1].
    bind_some. destruct p as [b2 we2].
    destruct (buffer_read_ptr b2) as [ptr count].
    destruct (send o _) as [n put].
    destruct (0 <? n)%Z.
    + bind_some.
      destruct (_ && (_ =? 0)%nat).
      * destruct (finished_et _) eqn:Hf.
        -- unfold leave, exit_ok. destruct (queue_is_empty s); cbn; auto 10.
        -- left; reflexivity.
      * destruct (negb _); left; reflexivity.
    + destruct (n =? -1)%Z; unfold exit_ok; auto.
  - intros i. unfold external_transformation_read.
    destruct (buffer_write_ptr _) as [ptr count].
    destruct (recv i count) as [n got].
    destruct (0 <? n)%Z.
    + do 3 bind_some.
      destruct (parse_mail _ _ _) as [[fin sb] pr].
      destruct (fin || _).
      * bind_some.
        destruct (finished_et _) eqn:Hf.
        -- unfold leave, exit_ok. destruct (queue_is_empty s); cbn; auto 10.
        -- left; reflexivity.
      * destruct (negb _); [left; reflexivity|].
        bind_some. left; reflexivity.
    + destruct (n =? -1)%Z; unfold exit_ok; auto.
Qed.

(** X5, [external_transformation_write]: [transferred_bytes] grows by
    exactly the number of bytes put on the client socket;
    [retrieved_messages], an unsigned counter, is raised by one (back
    to 0 from 2^32 - 1) when bytes were sent and [finish_wr] holds
    afterwards, and is unchanged otherwise; a call that answers ERROR
    has sent nothing. *)
Theorem et_write_counts_sent_bytes (s : pop3 P) (o : outgoing) :
  match external_transformation_write s o with
  | Some (st, s', put) =>
      transferred_bytes s'
        = (transferred_bytes s + Z.of_nat (length put))%Z /\
      retrieved_messages s'
        = (if finish_wr (et s') && (0 <? length put)%nat
           then Metrics.uint (retrieved_messages s + 1)
           else retrieved_messages s) /\
      (st = ERROR -> put = [])
  | None => True
  end.
Proof.
  unfold external_transformation_write.
  bind_some. destruct p as [b1 we1].
  bind_some. destruct p as [b2 we2].
  destruct (buffer_read_ptr b2) as [ptr count].
  destruct o as [|k]; cbn [send].
  - cbn. rewrite andb_false_r. repeat split; lia.
  - set (put := take k _).
    destruct (0 <? Z.of_nat (length put))%Z eqn:En.
    + apply Z.ltb_lt in En.
      assert ((0 <? length put)%nat = true) as Hp by (apply Nat.ltb_lt; lia).
      bind_some.
      destruct (_ && (_ =? 0)%nat).
      * destruct (finished_et _).
        -- unfold leave. destruct (negb (queue_is_empty s));
             cbn [transferred_bytes retrieved_messages et finish_wr];
             rewrite Hp, andb_true_r; (split; [reflexivity|]);
             (split; [reflexivity|]); discriminate.
        -- cbn [transferred_bytes retrieved_messages et finish_wr];
             rewrite Hp, andb_true_r; (split; [reflexivity|]);
             (split; [reflexivity|]); discriminate.
      * destruct (negb (error_wr (et s)));
          cbn [transferred_bytes retrieved_messages et finish_wr];
          rewrite Hp, andb_true_r; (split; [reflexivity|]);
          (split; [reflexivity|]); discriminate.
    + apply Z.ltb_ge in En.
      assert (put = []) as -> by (destruct put; [reflexivity | simpl in En; lia]).
      cbn. rewrite andb_false_r. repeat split; lia.
Qed.

(** Staging a line at the write cursor: [sprintf(ptr, "%s", msg)], then
    [buffer_write_adv(b, strlen(msg))]. *)
Definition stored (b : buffer) (msg : bytes) : buffer :=
  mk_buffer
    (take (write b) (data b) ++ (msg ++ [NUL])
       ++ drop (write b + length (msg ++ [NUL])) (data b))
    (read b) (write b).

Definition staged (b : buffer) (msg : bytes) : buffer :=
  mk_buffer (data (stored b msg)) (read b) (write b + length msg).

Lemma stage_store (b : buffer) (msg : bytes) :
  (write b + length msg + 1 <= limit b)%nat ->
  Buffer.store b (write b) (msg ++ [NUL]) = Some (stored b msg).
Proof.
  intros Hl. rewrite store_some by (rewrite length_app; simpl; lia).
  reflexivity.
Qed.

Lemma stage_adv (b : buffer) (msg : bytes) :
  (write b + length msg + 1 <= limit b)%nat ->
  buffer_write_adv (stored b msg) (Z.of_nat (length msg)) = Some (staged b msg).
Proof.
  intros Hl. rewrite write_adv_some.
  - unfold staged. cbn [data read write stored]. rewrite Nat2Z.id. reflexivity.
  - lia.
  - unfold limit in *. cbn [data write stored].
    rewrite !length_app, length_take, length_drop, Nat2Z.id. simpl. lia.
Qed.

Lemma readable_staged (b : buffer) (msg : bytes) :
  (read b <= write b)%nat ->
  (write b + length msg + 1 <= limit b)%nat ->
  readable (staged b msg) = readable b ++ msg.
Proof.
  intros Hr Hl. unfold readable, staged, limit in *.
  cbn [data read write stored].
  rewrite (take_drop_commute (data b)).
  replace (read b + (write b - read b))%nat with (write b) by lia.
  rewrite drop_app_le by (rewrite length_take; lia).
  replace (write b + length msg - read b)%nat
    with (length (drop (read b) (take (write b) (data b))) + length msg)%nat
    by (rewrite length_drop, length_take; lia).
  rewrite take_app_add. f_equal.
  rewrite <- app_assoc. apply take_app_length.
Qed.

Lemma staged_cursors (b : buffer) (msg : bytes) :
  read (staged b msg) = read b /\
  write (staged b msg) = (write b + length msg)%nat.
Proof. split; reflexivity. Qed.


Lemma view_is_readable (b : buffer) :
  take (write b - read b) (drop (read b) (data b)) = readable b.
Proof. reflexivity. Qed.

(** The client-write handler on a session whose child failed before
    anything was sent. *)
Lemma error_line_sent (s : pop3 P) (k : nat) :
  error_wr (et s) = true -> did_write (et s) = false ->
  send_bytes_write (et s) = 0%nat ->
  (47 <= limit (extern_read_buffer s))%nat -> (46 <= k)%nat ->
  exists s',
    external_transformation_write s (SendAccepts k)
      = Some (if finish_rd (et s)
              then (if queue_is_empty s then REQUEST else RESPONSE)
              else EXTERNAL_TRANSFORMATION, s', err_msg) /\
    readable (extern_read_buffer s') = [] /\
    did_write (et s') = true /\ write_error (et s') = true.
Proof.
  intros Hew Hdw Hsb Hl Hk. unfold external_transformation_write.
  rewrite Hew, Hdw, Hsb. cbn [andb negb orb Nat.eqb].
  set (b0 := buffer_reset (extern_read_buffer s)).
  assert (write b0 = 0%nat) as Hw0 by reflexivity.
  assert (read b0 = 0%nat) as Hr0 by reflexivity.
  assert (limit b0 = limit (extern_read_buffer s)) as Hl0 by reflexivity.
  assert (readable b0 = []) as Hv0 by reflexivity.
  assert (length err_msg = 46%nat) as Le by reflexivity.
  unfold buffer_write_ptr. clearbody b0.
  rewrite stage_store by (rewrite Hw0, Le, Hl0; lia).
  cbn [mbind option_bind].
  rewrite stage_adv by (rewrite Hw0, Le, Hl0; lia).
  cbn [mbind option_bind].
  unfold buffer_read_ptr. rewrite view_is_readable.
  rewrite readable_staged by (rewrite ?Hw0, ?Hr0, ?Le, ?Hl0; lia).
  rewrite Hv0. cbn [app send].
  rewrite take_ge by (rewrite Le; lia).
  rewrite Le. change (0 <? Z.of_nat 46)%Z with true. cbn match.
  assert (read (staged b0 err_msg) = 0%nat) as Hrs by exact Hr0.
  assert (write (staged b0 err_msg) = 46%nat) as Hws
    by (unfold staged; cbn [write]; rewrite Hw0, Le; reflexivity).
  rewrite read_adv_some by (rewrite ?Hrs, ?Hws; simpl; lia).
  rewrite Hrs, Hws. cbn [mbind option_bind Nat.add].
  change (Z.to_nat (Z.of_nat 46) =? 46)%nat with true. cbn match.
  unfold finished_et. cbn [finish_rd finish_wr error_wr].
  unfold leave.
  destruct (finish_rd (et s)), (finish_wr (et s)), (queue_is_empty s);
    cbn; eexists; (split; [reflexivity|]); auto.
Qed.

Lemma ext_read_error (s : pop3 P) :
  exists s',
    ext_read parser_feed s RecvError = Some s' /\
    error_wr (et s') = true /\
    did_write (et s') = did_write (et s) /\
    write_error (et s') = write_error (et s) /\
    send_bytes_write (et s') = send_bytes_write (et s) /\
    finish_rd (et s') = finish_rd (et s) /\
    finish_wr (et s') = finish_wr (et s) /\
    queue_is_empty s' = queue_is_empty s /\
    extern_read_buffer s' = extern_read_buffer s /\
    ext_read_interest s' = None /\ client_interest s' = OP_WRITE.
Proof.
  unfold ext_read. destruct (buffer_write_ptr _) as [ptr count].
  cbn [recv]. change (-1 <? 0)%Z with true. cbn match.
  eexists. split; [reflexivity|]. cbn. auto 12.
Qed.

(** X6: the child fails ([read] on its output answers an error) before
    anything was sent to the client.  [ext_read] unregisters the
    descriptor and arms the client socket; the next client write drops
    whatever was staged (the +OK line) and sends the -ERR line alone,
    leaving the staging buffer empty; the state is left, for REQUEST or
    RESPONSE according to the queue, exactly if the origin's mail had
    already been read to its end. *)
Theorem child_failure_before_output_answers_err (s : pop3 P) (k : nat) :
  did_write (et s) = false ->
  send_bytes_write (et s) = 0%nat ->
  (47 <= limit (extern_read_buffer s))%nat ->
  (46 <= k)%nat ->
  exists s1 s2,
    ext_read parser_feed s RecvError = Some s1 /\
    ext_read_interest s1 = None /\ client_interest s1 = OP_WRITE /\
    external_transformation_write s1 (SendAccepts k)
      = Some (if finish_rd (et s)
              then (if queue_is_empty s then REQUEST else RESPONSE)
              else EXTERNAL_TRANSFORMATION, s2, err_msg) /\
    readable (extern_read_buffer s2) = [].
Proof.
  intros Hdw Hsb Hl Hk.
  destruct (ext_read_error s)
    as (s1 & H1 & Hew & Hdw1 & _ & Hsb1 & Hfr & _ & Hq & Hb & Hri & Hci).
  destruct (error_line_sent s1 k) as (s2 & H2 & Hv & _); try congruence.
  exists s1, s2. rewrite <- Hfr, <- Hq. auto.
Qed.


Lemma store_nothing (b : buffer) :
  (write b <= limit b)%nat -> Buffer.store b (write b) [] = Some b.
Proof.
  intros Hl. rewrite store_some by (simpl; lia). destruct b as [d r w].
  cbn [data read write app length]. rewrite Nat.add_0_r, take_drop.
  reflexivity.
Qed.

Lemma write_adv_nothing (b : buffer) :
  (write b <= limit b)%nat -> buffer_write_adv b 0 = Some b.
Proof.
  intros Hl. rewrite write_adv_some by (simpl; lia). destruct b as [d r w].
  cbn [data read write Z.to_nat]. rewrite Nat.add_0_r. reflexivity.
Qed.

Lemma ext_read_eof (s : pop3 P) (pw : P) :
  parser_write (et s) = Some pw ->
  (write (extern_read_buffer s) <= limit (extern_read_buffer s))%nat ->
  fst (fst (parse_mail parser_feed (extern_read_buffer s) pw)) = false ->
  exists s',
    ext_read parser_feed s (RecvBytes []) = Some s' /\
    error_wr (et s') = true /\
    did_write (et s') = did_write (et s) /\
    write_error (et s') = write_error (et s) /\
    send_bytes_write (et s') = 0%nat /\
    finish_rd (et s') = finish_rd (et s) /\
    finish_wr (et s') = finish_wr (et s) /\
    queue_is_empty s' = queue_is_empty s /\
    extern_read_buffer s' = extern_read_buffer s /\
    ext_read_interest s' = None /\ client_interest s' = OP_WRITE.
Proof.
  intros Hpw Hl Hfin. unfold ext_read, buffer_write_ptr.
  cbn [recv]. rewrite take_nil. cbn [length].
  change (Z.of_nat 0 <? 0)%Z with false. cbn match.
  change (Z.of_nat 0) with 0%Z.
  rewrite store_nothing by exact Hl. cbn [mbind option_bind].
  rewrite write_adv_nothing by exact Hl. cbn [mbind option_bind].
  rewrite Hpw. cbn [mbind option_bind].
  revert Hfin. unfold parse_mail.
  destruct (feed_all parser_feed pw (readable (extern_read_buffer s)) 0)
    as [p' [i|]]; cbn [fst]; [discriminate|]. intros _.
  change (0 =? 0)%Z with true. cbn [orb].
  eexists. split; [reflexivity|]. cbn. auto 12.
Qed.

(** The client-write handler on a session whose child stopped after
    part of its output was sent. *)
Lemma terminator_sent (s : pop3 P) (k : nat) :
  error_wr (et s) = true -> did_write (et s) = true ->
  write_error (et s) = false -> send_bytes_write (et s) = 0%nat ->
  (read (extern_read_buffer s) <= write (extern_read_buffer s))%nat ->
  (write (extern_read_buffer s) + 6 <= limit (extern_read_buffer s))%nat ->
  (length (readable (extern_read_buffer s)) + 5 <= k)%nat ->
  exists s',
    external_transformation_write s (SendAccepts k)
      = Some (if finish_rd (et s)
              then (if queue_is_empty s then REQUEST else RESPONSE)
              else EXTERNAL_TRANSFORMATION, s',
              readable (extern_read_buffer s) ++ body_end) /\
    readable (extern_read_buffer s') = [] /\
    error_wr (et s') = true /\ did_write (et s') = true /\
    write_error (et s') = true /\ send_bytes_write (et s') = 0%nat.
Proof.
  intros Hew Hdw Hwe Hsb Hrw Hl Hk. unfold external_transformation_write.
  rewrite Hew, Hdw, Hwe, Hsb. cbn [andb negb orb Nat.eqb mbind option_bind].
  set (b0 := extern_read_buffer s) in *.
  assert (length body_end = 5%nat) as Le by reflexivity.
  unfold buffer_write_ptr.
  rewrite stage_store by (rewrite Le; lia).
  cbn [mbind option_bind].
  rewrite stage_adv by (rewrite Le; lia).
  cbn [mbind option_bind].
  unfold buffer_read_ptr. rewrite view_is_readable.
  rewrite readable_staged by (rewrite ?Le; lia).
  cbn [send].
  rewrite take_ge by (rewrite length_app, Le; lia).
  assert ((0 <? Z.of_nat (length (readable b0 ++ body_end)))%Z = true) as ->
    by (apply Z.ltb_lt; rewrite length_app, Le; lia).
  assert (read (staged b0 body_end) = read b0) as Hrs by reflexivity.
  assert (write (staged b0 body_end) = (write b0 + 5)%nat) as Hws
    by (unfold staged; cbn [write]; rewrite Le; reflexivity).
  assert (length (readable b0) = (write b0 - read b0)%nat) as Hlen.
  { unfold readable. rewrite length_take, length_drop. unfold limit in Hl. lia. }
  rewrite read_adv_some
    by (rewrite ?Hrs, ?Hws, ?Nat2Z.id, ?length_app, ?Le, ?Hlen; lia).
  rewrite Hrs, Hws, Nat2Z.id, length_app, Le, Hlen.
  replace (read b0 + (write b0 - read b0 + 5) =? write b0 + 5)%nat with true
    by (symmetry; apply Nat.eqb_eq; lia).
  cbn [mbind option_bind].
  unfold finished_et. cbn [finish_rd finish_wr error_wr].
  unfold leave.
  destruct (finish_rd (et s)), (finish_wr (et s)), (queue_is_empty s);
    cbn; eexists; (split; [reflexivity|]); auto 10.
Qed.

Lemma nothing_more_sent (s : pop3 P) (o : outgoing) :
  error_wr (et s) = true -> did_write (et s) = true ->
  write_error (et s) = true -> send_bytes_write (et s) = 0%nat ->
  readable (extern_read_buffer s) = [] ->
  exists st s', external_transformation_write s o = Some (st, s', []).
Proof.
  intros Hew Hdw Hwe Hsb Hv. unfold external_transformation_write.
  rewrite Hew, Hdw, Hwe, Hsb. cbn [andb negb orb Nat.eqb mbind option_bind].
  unfold buffer_read_ptr. rewrite view_is_readable, Hv.
  destruct o as [|k]; cbn [send].
  - change (0 <? -1)%Z with false. cbn match. eexists _, _. reflexivity.
  - rewrite take_nil. cbn [length]. change (0 <? Z.of_nat 0)%Z with false.
    cbn match. eexists _, _. reflexivity.
Qed.

(** X7: the child closes its output without a terminating line, after
    a part of the mail went to the client.  [ext_read] unregisters the
    descriptor and arms the client socket; the next client write sends
    what was staged followed by CR LF . CR LF, and no later client write
    sends anything more. *)
Theorem child_eof_mid_mail_appends_terminator_once
    (s : pop3 P) (pw : P) (k : nat) :
  parser_write (et s) = Some pw ->
  fst (fst (parse_mail parser_feed (extern_read_buffer s) pw)) = false ->
  did_write (et s) = true -> write_error (et s) = false ->
  (read (extern_read_buffer s) <= write (extern_read_buffer s))%nat ->
  (write (extern_read_buffer s) + 6 <= limit (extern_read_buffer s))%nat ->
  (length (readable (extern_read_buffer s)) + 5 <= k)%nat ->
  exists s1 s2,
    ext_read parser_feed s (RecvBytes []) = Some s1 /\
    ext_read_interest s1 = None /\ client_interest s1 = OP_WRITE /\
    external_transformation_write s1 (SendAccepts k)
      = Some (if finish_rd (et s)
              then (if queue_is_empty s then REQUEST else RESPONSE)
              else EXTERNAL_TRANSFORMATION, s2,
              readable (extern_read_buffer s) ++ body_end) /\
    forall o, exists st s3,
      external_transformation_write s2 o = Some (st, s3, []).
Proof.
  intros Hpw Hfin Hdw Hwe Hrw Hl Hk.
  destruct (ext_read_eof s pw Hpw) as
    (s1 & H1 & Hew & Hdw1 & Hwe1 & Hsb1 & Hfr & _ & Hq & Hb & Hri & Hci);
    [lia | exact Hfin |].
  destruct (terminator_sent s1 k) as (s2 & H2 & Hv & Hew2 & Hdw2 & Hwe2 & Hsb2);
    try congruence.
  exists s1, s2. rewrite <- Hfr, <- Hq, <- Hb.
  repeat (split; [assumption|]).
  intros o. apply nothing_more_sent; assumption.
Qed.


Lemma feed_all_first (bs : bytes) :
  forall (p : P) (i : nat),
  match feed_all parser_feed p bs i with
  | (p', Some j) =>
      (i < j <= i + length bs)%nat /\
      feed_all parser_feed p (take (j - i) bs) i = (p', Some j) /\
      forall k, (k < j - i)%nat ->
                snd (feed_all parser_feed p (take k bs) i) = None
  | (p', None) => True
  end.
Proof.
  induction bs as [|c bs IH]; intros p i; cbn [feed_all]; [exact I|].
  destruct (parser_feed p c) as [p1 fin] eqn:Ef. destruct fin.
  - split; [cbn [length]; lia|].
    replace (S i - i)%nat with 1%nat by lia. cbn [take feed_all].
    rewrite Ef. split; [reflexivity|].
    intros k Hk. replace k with 0%nat by lia. reflexivity.
  - specialize (IH p1 (S i)).
    destruct (feed_all parser_feed p1 bs (S i)) as [p' [j|]]; [|exact I].
    destruct IH as (Hj & Hpre & Hno).
    split; [cbn [length]; lia|].
    replace (j - i)%nat with (S (j - S i)) by lia. cbn [take feed_all].
    rewrite Ef. split; [exact Hpre|].
    intros [|k] Hk; [reflexivity|]. cbn [take feed_all]. rewrite Ef.
    apply Hno. lia.
Qed.

(** X3, [parse_mail]: when it answers true, [*send_bytes] is the
    number of readable bytes up to and including the first one at which
    the parser reports the end of the mail (at least 1, at most what the
    buffer holds), and no shorter prefix ends the mail; when it answers
    false, [*send_bytes] is 0 and every readable byte was fed. *)
Theorem parse_mail_stops_at_first_fin (b : buffer) (p : P) :
  match parse_mail parser_feed b p with
  | (true, sb, p') =>
      (1 <= sb <= length (readable b))%nat /\
      feed_all parser_feed p (take sb (readable b)) 0 = (p', Some sb) /\
      forall k, (k < sb)%nat ->
                snd (feed_all parser_feed p (take k (readable b)) 0) = None
  | (false, sb, p') =>
      sb = 0%nat /\ feed_all parser_feed p (readable b) 0 = (p', None)
  end.
Proof.
  unfold parse_mail.
  pose proof (feed_all_first (readable b) p 0) as H.
  destruct (feed_all parser_feed p (readable b) 0) as [p' [j|]].
  - rewrite Nat.sub_0_r in H. destruct H as (Hj & Hpre & Hno).
    split; [lia|]. split; assumption.
  - split; reflexivity.
Qed.



Lemma take_then_rest {A} (m : nat) (l : list A) :
  take m l ++ drop (length (take m l)) l = l.
Proof.
  rewrite length_take. destruct (Nat.le_gt_cases m (length l)).
  - rewrite Nat.min_l by lia. apply take_drop.
  - rewrite Nat.min_r by lia. rewrite take_ge, drop_ge by lia.
    apply app_nil_r.
Qed.

Lemma readable_length (b : buffer) :
  (write b <= limit b)%nat -> length (readable b) = (write b - read b)%nat.
Proof.
  intros Hl. unfold readable, limit in *. rewrite length_take, length_drop. lia.
Qed.

(** X8, [ext_write]: with the end of the mail (if known) inside the
    buffer, what the child is handed is a prefix of the readable bytes
    of the mail buffer, at most what [write] accepts and never past the
    end of the mail; the buffer keeps exactly the rest, and
    [send_bytes_read], when set, goes down by the number of bytes
    handed over. *)
Theorem ext_write_hands_over_a_prefix (s : pop3 P) (k : nat) :
  (read (write_buffer s) <= write (write_buffer s))%nat ->
  (write (write_buffer s) <= limit (write_buffer s))%nat ->
  (send_bytes_read (et s) <= length (readable (write_buffer s)))%nat ->
  exists s' put,
    ext_write s (SendAccepts k) = Some (s', put) /\
    readable (write_buffer s) = put ++ readable (write_buffer s') /\
    (length put <= k)%nat /\
    (send_bytes_read (et s) <> 0%nat ->
     (length put <= send_bytes_read (et s))%nat /\
     send_bytes_read (et s') = (send_bytes_read (et s) - length put)%nat) /\
    extern_read_buffer s' = extern_read_buffer s /\
    status (et s') = status (et s) /\ error_rd (et s') = error_rd (et s).
Proof.
  intros Hrw Hl Hsb. pose proof (readable_length _ Hl) as Hlen.
  unfold ext_write, buffer_read_ptr.
  set (b := write_buffer s) in *.
  set (m := if negb (send_bytes_read (et s) =? 0)%nat
            then send_bytes_read (et s) else (write b - read b)%nat).
  assert (m <= write b - read b)%nat as Hm
    by (subst m; destruct (send_bytes_read (et s) =? 0)%nat; cbn [negb]; lia).
  assert (take m (drop (read b) (data b)) = take m (readable b)) as ->
    by (unfold readable; rewrite take_take, Nat.min_l by lia; reflexivity).
  cbn [send]. rewrite take_take.
  set (put := take (k `min` m) (readable b)).
  assert (length put <= k /\ length put <= m)%nat as [Hpk Hpm]
    by (subst put; rewrite length_take; lia).
  assert (readable b = put ++ drop (length put) (readable b)) as Hsplit
    by (symmetry; apply take_then_rest).
  destruct (0 <? Z.of_nat (length put))%Z eqn:En.
  - rewrite read_adv_some by (rewrite ?Nat2Z.id; lia).
    cbn [mbind option_bind].
    assert (readable (if (read b + Z.to_nat (Z.of_nat (length put)) =? write b)%nat
                      then buffer_reset b
                      else {| data := data b;
                              read := read b + Z.to_nat (Z.of_nat (length put));
                              write := write b |})
            = drop (length put) (readable b)) as Hrest.
    { apply (readable_read_adv b _ (length put)); [lia|].
      apply read_adv_some; rewrite ?Nat2Z.id; lia. }
    assert (send_bytes_read (et s) <> 0%nat ->
            (length put <= send_bytes_read (et s))%nat /\
            (if negb (send_bytes_read (et s) =? 0)%nat
             then (send_bytes_read (et s) - Z.to_nat (Z.of_nat (length put)))%nat
             else send_bytes_read (et s))
            = (send_bytes_read (et s) - length put)%nat) as Hcnt.
    { intros Hne. subst m.
      destruct (send_bytes_read (et s) =? 0)%nat eqn:E0;
        [apply Nat.eqb_eq in E0; contradiction|].
      cbn [negb] in *. rewrite Nat2Z.id. split; [lia | reflexivity]. }
    destruct (finish_rd (et s) && _); eexists _, _; (split; [reflexivity|]);
      cbn [write_buffer et send_bytes_read extern_read_buffer status error_rd];
      rewrite Hrest; auto 10.
  - apply Z.ltb_ge in En.
    assert (put = []) as Hp by (destruct put; [reflexivity | simpl in En; lia]).
    rewrite Hp in *. change (Z.of_nat (length (@nil ascii)) =? -1)%Z with false.
    cbn match. eexists _, _. split; [reflexivity|].
    cbn [app length]. fold b. repeat split; try lia.
Qed.

(** [recv] into the room after the write cursor, then
    [buffer_write_adv(b, n)]. *)
Definition landed (b : buffer) (bs : bytes) : buffer :=
  mk_buffer (take (write b) (data b) ++ bs ++ drop (write b + length bs) (data b))
    (read b) (write b).

Definition received (b : buffer) (bs : bytes) : buffer :=
  mk_buffer (data (landed b bs)) (read b) (write b + length bs).

Lemma receive_store (b : buffer) (bs : bytes) :
  (write b + length bs <= limit b)%nat ->
  Buffer.store b (write b) bs = Some (landed b bs).
Proof. intros Hl. rewrite store_some by lia. reflexivity. Qed.

Lemma receive_adv (b : buffer) (bs : bytes) :
  (write b + length bs <= limit b)%nat ->
  buffer_write_adv (landed b bs) (Z.of_nat (length bs)) = Some (received b bs).
Proof.
  intros Hl. rewrite write_adv_some.
  - unfold received. cbn [data read write landed]. rewrite Nat2Z.id.
    reflexivity.
  - lia.
  - unfold limit in *. cbn [data write landed].
    rewrite !length_app, length_take, length_drop, Nat2Z.id. lia.
Qed.

Lemma readable_received (b : buffer) (bs : bytes) :
  (read b <= write b)%nat -> (write b + length bs <= limit b)%nat ->
  readable (received b bs) = readable b ++ bs.
Proof.
  intros Hr Hl. unfold readable, received, limit in *.
  cbn [data read write landed].
  rewrite (take_drop_commute (data b)).
  replace (read b + (write b - read b))%nat with (write b) by lia.
  rewrite drop_app_le by (rewrite length_take; lia).
  replace (write b + length bs - read b)%nat
    with (length (drop (read b) (take (write b) (data b))) + length bs)%nat
    by (rewrite length_drop, length_take; lia).
  rewrite take_app_add. f_equal. apply take_app_length.
Qed.

Lemma ext_write_error (s : pop3 P) :
  send_bytes_read (et s) = 0%nat ->
  exists s1,
    ext_write s SendError = Some (s1, []) /\
    status (et s1) = et_status_err /\ error_rd (et s1) = true /\
    ext_write_interest s1 = None /\ origin_interest s1 = OP_READ /\
    write_buffer s1 = buffer_reset (write_buffer s) /\
    parser_read (et s1) = parser_read (et s) /\
    finish_rd (et s1) = finish_rd (et s).
Proof.
  intros Hsb. unfold ext_write. destruct (buffer_read_ptr _) as [ptr count].
  cbn [send]. change (0 <? -1)%Z with false. change (-1 =? -1)%Z with true.
  cbn match. rewrite Hsb. cbn [Nat.eqb mbind option_bind].
  eexists. split; [reflexivity|]. cbn. auto 10.
Qed.

Lemma et_read_drops (s : pop3 P) (pr : P) (bs : bytes) :
  error_rd (et s) = true ->
  parser_read (et s) = Some pr ->
  snd (feed_all parser_feed pr bs 0) = None ->
  read (write_buffer s) = 0%nat -> write (write_buffer s) = 0%nat ->
  (0 < length bs <= limit (write_buffer s))%nat ->
  exists s2,
    external_transformation_read parser_feed s (RecvBytes bs)
      = Some (EXTERNAL_TRANSFORMATION, s2) /\
    readable (write_buffer s2) = [] /\
    origin_interest s2 = origin_interest s /\
    ext_write_interest s2 = ext_write_interest s /\
    finish_rd (et s2) = finish_rd (et s).
Proof.
  intros Her Hpr Hno Hr0 Hw0 [Hpos Hlim].
  unfold external_transformation_read.
  set (b0 := write_buffer s) in *.
  assert (readable b0 = []) as Hv0
    by (unfold readable; rewrite Hr0, Hw0; reflexivity).
  unfold buffer_write_ptr. cbn [recv].
  rewrite take_ge by lia.
  assert ((0 <? Z.of_nat (length bs))%Z = true) as -> by (apply Z.ltb_lt; lia).
  rewrite receive_store by lia. cbn [mbind option_bind].
  rewrite receive_adv by lia. cbn [mbind option_bind].
  rewrite Hpr. cbn [mbind option_bind].
  unfold parse_mail.
  rewrite readable_received by lia. rewrite Hv0. cbn [app].
  destruct (feed_all parser_feed pr bs 0) as [pr' [j|]];
    [discriminate|].
  assert ((Z.of_nat (length bs) =? 0)%Z = false) as ->
    by (apply Z.eqb_neq; lia).
  rewrite Her. cbn [orb negb].
  assert (read (received b0 bs) = 0%nat) as Hrr by exact Hr0.
  assert (write (received b0 bs) = length bs) as Hwr
    by (unfold received; cbn [write]; rewrite Hw0; reflexivity).
  rewrite read_adv_some by (rewrite ?Hrr, ?Hwr, ?Nat2Z.id; lia).
  rewrite Hrr, Hwr, Nat2Z.id. cbn [Nat.add]. rewrite Nat.eqb_refl.
  cbn [mbind option_bind].
  eexists. split; [reflexivity|]. cbn. auto.
Qed.

(** X9: [write] to the child fails while the end of the mail is not
    known.  [ext_write] marks the transformation as failed, empties the
    mail buffer, unregisters the child's input and turns the origin back
    on; what the origin then sends of the mail, short of its end, is
    read and dropped: the buffer is empty again and the origin stays
    armed. *)
Theorem ext_write_error_discards_rest_of_mail
    (s : pop3 P) (pr : P) (bs : bytes) :
  send_bytes_read (et s) = 0%nat ->
  parser_read (et s) = Some pr ->
  snd (feed_all parser_feed pr bs 0) = None ->
  (0 < length bs <= limit (write_buffer s))%nat ->
  exists s1 s2,
    ext_write s SendError = Some (s1, []) /\
    status (et s1) = et_status_err /\ error_rd (et s1) = true /\
    ext_write_interest s1 = None /\ origin_interest s1 = OP_READ /\
    readable (write_buffer s1) = [] /\
    external_transformation_read parser_feed s1 (RecvBytes bs)
      = Some (EXTERNAL_TRANSFORMATION, s2) /\
    readable (write_buffer s2) = [] /\
    origin_interest s2 = OP_READ /\ ext_write_interest s2 = None /\
    finish_rd (et s2) = finish_rd (et s).
Proof.
  intros Hsb Hpr Hno Hlim.
  destruct (ext_write_error s Hsb)
    as (s1 & H1 & Hst & Her & Hwi & Hoi & Hb & Hp1 & Hf1).
  destruct (et_read_drops s1 pr bs) as (s2 & H2 & Hv2 & Ho2 & Hw2 & Hf2);
    try (rewrite ?Hb; first [assumption | reflexivity | congruence]).
  exists s1, s2. rewrite Hb at 1. rewrite Ho2, Hw2, Hf2.
  repeat (split; [first [assumption | reflexivity]|]). assumption.
Qed.

Variable parser_new : P.
Variable parser_reset : P -> P.

(** [pipe] twice and [fork] succeed, in the parent. *)
Definition forked (r1 r2 pid : Z) : bool :=
  (0 <=? r1)%Z && (0 <=? r2)%Z && negb (pid =? -1)%Z && negb (pid =? 0)%Z.

(** The child runs and both its descriptors are registered and
    non-blocking. *)
Definition spawned (r1 r2 pid : Z) (reg_r nio_r reg_w nio_w : bool) : bool :=
  forked r1 r2 pid && reg_r && nio_r && reg_w && nio_w.

Lemma open_entering (r1 r2 pid : Z) (reg_r nio_r reg_w nio_w : bool)
    (mail : buffer) (qe : bool) :
  open_external_transformation r1 r2 pid reg_r nio_r reg_w nio_w
    (entering (P := P) mail qe)
  = (if spawned r1 r2 pid reg_r nio_r reg_w nio_w
     then et_status_ok else et_status_err,
     if forked r1 r2 pid && reg_r then Some OP_READ else None,
     if spawned r1 r2 pid reg_r nio_r reg_w nio_w
     then Some OP_WRITE else None).
Proof.
  unfold open_external_transformation, spawned, forked, entering.
  cbn [ext_read_interest ext_write_interest].
  rewrite (Z.leb_antisym r1 0), (Z.leb_antisym r2 0).
  destruct (r1 <? 0)%Z, (r2 <? 0)%Z, (pid =? -1)%Z, (pid =? 0)%Z,
    reg_r, nio_r, reg_w, nio_w; reflexivity.
Qed.

(** X2, [external_transformation_init] with
    [open_external_transformation]: the status is [et_status_ok] exactly
    when both pipes, the fork and both registrations succeeded.  The
    line staged for the client is then the +OK line, and the -ERR line
    with the client socket armed otherwise.  The child's input is
    registered only on success; its output stays registered whenever
    its own registration succeeded, also when a later step failed. *)
Theorem et_init_first_line_tells_spawn_result
    (r1 r2 pid : Z) (reg_r nio_r reg_w nio_w : bool)
    (mail : buffer) (qe : bool) :
  let ok := spawned r1 r2 pid reg_r nio_r reg_w nio_w in
  exists s,
    external_transformation_init parser_new parser_reset parser_feed
      r1 r2 pid reg_r nio_r reg_w nio_w (entering mail qe) = Some s /\
    status (et s) = (if ok then et_status_ok else et_status_err) /\
    readable (extern_read_buffer s) = (if ok then ok_msg else err_msg) /\
    client_interest s = (if ok then OP_NOOP else OP_WRITE) /\
    ext_read_interest s
      = (if forked r1 r2 pid && reg_r then Some OP_READ else None) /\
    ext_write_interest s = (if ok then Some OP_WRITE else None) /\
    write_buffer s = mail /\
    finish_rd (et s)
      = fst (fst (parse_mail parser_feed mail (parser_reset parser_new))) /\
    send_bytes_read (et s)
      = snd (fst (parse_mail parser_feed mail (parser_reset parser_new))) /\
    finish_wr (et s) = false /\ error_wr (et s) = false /\
    error_rd (et s) = false /\ did_write (et s) = false /\
    write_error (et s) = false /\ send_bytes_write (et s) = 0%nat.
Proof.
  intros ok. unfold external_transformation_init.
  rewrite open_entering. fold ok. unfold entering.
  cbn [extern_read_buffer write_buffer et parser_read parser_write
       queue_is_empty client_interest origin_interest retrieved_messages
       transferred_bytes default].
  set (B := buffer_init BUFFER_SIZE).
  assert (read B = 0%nat) as HBr by reflexivity.
  assert (write B = 0%nat) as HBw by reflexivity.
  assert (limit B = 2048%nat) as HBl
    by (unfold limit, B, buffer_init; cbn [data]; apply length_replicate).
  assert (readable B = []) as HBv by reflexivity.
  clearbody B. unfold buffer_write_ptr.
  assert (length err_msg = 46%nat) as Le by reflexivity.
  assert (length ok_msg = 19%nat) as Lo by reflexivity.
  destruct (parse_mail parser_feed mail (parser_reset parser_new))
    as [[fin sb] pr].
  destruct ok.
  - rewrite stage_store by (rewrite HBw, Lo, HBl; lia).
    cbn [mbind option_bind].
    rewrite stage_adv by (rewrite HBw, Lo, HBl; lia).
    cbn [mbind option_bind].
    eexists. split; [reflexivity|].
    cbn [et status extern_read_buffer client_interest ext_read_interest
         ext_write_interest write_buffer finish_rd send_bytes_read finish_wr
         error_wr error_rd did_write write_error send_bytes_write fst snd].
    rewrite readable_staged by (rewrite ?HBw, ?HBr, ?Lo, ?HBl; lia).
    rewrite HBv. repeat split.
  - rewrite stage_store by (rewrite HBw, Le, HBl; lia).
    cbn [mbind option_bind].
    rewrite stage_adv by (rewrite HBw, Le, HBl; lia).
    cbn [mbind option_bind].
    eexists. split; [reflexivity|].
    cbn [et status extern_read_buffer client_interest ext_read_interest
         ext_write_interest write_buffer finish_rd send_bytes_read finish_wr
         error_wr error_rd did_write write_error send_bytes_write fst snd].
    rewrite readable_staged by (rewrite ?HBw, ?HBr, ?Le, ?HBl; lia).
    rewrite HBv. repeat split.
Qed.

End HandlerFacts.

(** ** Sample session *)

(** A parser for the five bytes of the terminating line, for the
    examples: the state counts the bytes of CR LF . CR LF matched. *)
Definition sample_feed (p : nat) (c : ascii) : nat * bool :=
  let expected := nth p body_end NUL in
  if Ascii.eqb c expected then
    if (p =? 4)%nat then (0%nat, true) else (S p, false)
  else if Ascii.eqb c CR then (1%nat, false) else (0%nat, false).

(** A session whose child runs: the +OK line is staged, the first line
    of the mail waits for the child. *)
Definition sample_running : pop3 nat :=
  mk_pop3
    (mk_et et_status_ok (Some 0%nat) (Some 0%nat)
       false false false false false false 0%nat 0%nat)
    (received (buffer_init 64) (lit "Subject: hi" ++ CRLF))
    (staged (buffer_init 64) ok_msg)
    true OP_NOOP OP_NOOP (Some OP_READ) (Some OP_WRITE) 0 0.

(** The same session later: the +OK line went out, a part of the
    child's output is staged. *)
Definition sample_midway : pop3 nat :=
  mk_pop3
    (mk_et et_status_ok (Some 0%nat) (Some 0%nat)
       false true false false true false 0%nat 0%nat)
    (buffer_init 64)
    (received (buffer_init 64) (lit "Subject: hi"))
    true OP_NOOP OP_NOOP (Some OP_READ) None 0 0.

Lemma env_cat_size_is_exact_witness :
  env_size (lit "image/png") (lit "removed") (lit "1.0") (lit "bob")
    (lit "mail.example.org") (lit "cat")
  = (Z.of_nat (length (env_cat (lit "image/png") (lit "removed") (lit "1.0")
                         (lit "bob") (lit "mail.example.org") (lit "cat")))
     + 1)%Z.
Proof.
  apply (env_cat_size_is_exact (lit "image/png") (lit "removed") (lit "1.0")
           (lit "bob") (lit "mail.example.org") (lit "cat")).
  vm_compute. reflexivity.
Defined.

Lemma child_failure_before_output_answers_err_witness :
  exists s1 s2,
    ext_read sample_feed sample_running RecvError = Some s1 /\
    ext_read_interest s1 = None /\ client_interest s1 = OP_WRITE /\
    external_transformation_write s1 (SendAccepts 100)
      = Some (if finish_rd (et sample_running)
              then (if queue_is_empty sample_running then REQUEST else RESPONSE)
              else EXTERNAL_TRANSFORMATION, s2, err_msg) /\
    readable (extern_read_buffer s2) = [].
Proof.
  apply (child_failure_before_output_answers_err sample_feed sample_running 100).
  - reflexivity.
  - reflexivity.
  - vm_compute. lia.
  - lia.
Defined.

Lemma child_eof_mid_mail_appends_terminator_once_witness :
  exists s1 s2,
    ext_read sample_feed sample_midway (RecvBytes []) = Some s1 /\
    ext_read_interest s1 = None /\ client_interest s1 = OP_WRITE /\
    external_transformation_write s1 (SendAccepts 100)
      = Some (if finish_rd (et sample_midway)
              then (if queue_is_empty sample_midway then REQUEST else RESPONSE)
              else EXTERNAL_TRANSFORMATION, s2,
              readable (extern_read_buffer sample_midway) ++ body_end) /\
    forall o, exists st s3,
      external_transformation_write s2 o = Some (st, s3, []).
Proof.
  apply (child_eof_mid_mail_appends_terminator_once
           sample_feed sample_midway 0%nat 100).
  - reflexivity.
  - vm_compute. reflexivity.
  - reflexivity.
  - reflexivity.
  - vm_compute. lia.
  - vm_compute. lia.
  - vm_compute. lia.
Defined.

Lemma ext_write_hands_over_a_prefix_witness :
  exists s' put,
    ext_write sample_running (SendAccepts 5) = Some (s', put) /\
    readable (write_buffer sample_running)
      = put ++ readable (write_buffer s') /\
    (length put <= 5)%nat /\
    (send_bytes_read (et sample_running) <> 0%nat ->
     (length put <= send_bytes_read (et sample_running))%nat /\
     send_bytes_read (et s')
       = (send_bytes_read (et sample_running) - length put)%nat) /\
    extern_read_buffer s' = extern_read_buffer sample_running /\
    status (et s') = status (et sample_running) /\
    error_rd (et s') = error_rd (et sample_running).
Proof.
  apply (ext_write_hands_over_a_prefix sample_running 5).
  - vm_compute. lia.
  - vm_compute. lia.
  - vm_compute. lia.
Defined.

Lemma ext_write_error_discards_rest_of_mail_witness :
  exists s1 s2,
    ext_write sample_running SendError = Some (s1, []) /\
    status (et s1) = et_status_err /\ error_rd (et s1) = true /\
    ext_write_interest s1 = None /\ origin_interest s1 = OP_READ /\
    readable (write_buffer s1) = [] /\
    external_transformation_read sample_feed s1 (RecvBytes (lit "more"))
      = Some (EXTERNAL_TRANSFORMATION, s2) /\
    readable (write_buffer s2) = [] /\
    origin_interest s2 = OP_READ /\ ext_write_interest s2 = None /\
    finish_rd (et s2) = finish_rd (et sample_running).
Proof.
  apply (ext_write_error_discards_rest_of_mail
           sample_feed sample_running 0%nat (lit "more")).
  - reflexivity.
  - reflexivity.
  - vm_compute. reflexivity.
  - vm_compute. lia.
Defined.

End EtHandlers.


(* ===================================================================== *)
(** * The management channel: logging in *)
(* ===================================================================== *)

Module ManagementLogin.
Import CStr Mem Management.

Definition nul_free (s : bytes) : Prop :=
  Forall (fun c => Ascii.eqb c NUL = false) s.










(** The strings of the configuration: the fields of [parameters] that
    point to text. *)
Definition config_strings {M} (o : options M) : list (option ptr) :=
  [replacement_msg o; filter_command o; opt_user o; opt_pass o].

Lemma load_str_blocks (p : option ptr) (m : mem) :
  blocks (snd (load_str p m)) = blocks m.
Proof.
  unfold load_str. destruct p as [a|]; [|reflexivity].
  destruct (blocks m !! a) as [blk|]; [|reflexivity].
  destruct (c_str blk); reflexivity.
Qed.

Lemma load_str_oom (p : option ptr) (m : mem) :
  oom (snd (load_str p m)) = oom m.
Proof.
  unfold load_str. destruct p as [a|]; [|reflexivity].
  destruct (blocks m !! a) as [blk|]; [|reflexivity].
  destruct (c_str blk); reflexivity.
Qed.

Lemma store_dom (p : option ptr) (off : Z) (bs : bytes) (m : mem) :
  dom (blocks (store p off bs m)) = dom (blocks m).
Proof.
  unfold store. destruct p as [a|]; [|reflexivity].
  destruct (blocks m !! a) as [blk|] eqn:Hb; [|reflexivity].
  assert (forall x, dom (<[a := x]> (blocks m)) = dom (blocks m)) as Hd.
  { intros x. rewrite dom_insert_L.
    assert (a ∈ dom (blocks m)) as Ha
      by (apply elem_of_dom; eexists; exact Hb).
    apply set_eq. intros y. rewrite elem_of_union, elem_of_singleton.
    split; [intros [->|]; assumption | intros; right; assumption]. }
  destruct (off <? 0)%Z; [reflexivity|].
  destruct (_ <=? _)%Z; [cbn [blocks]; apply Hd|].
  destruct (_ <=? _)%Z; [cbn [blocks raise]; apply Hd | reflexivity].
Qed.

Lemma store_other (a p : ptr) (off : Z) (bs : bytes) (m : mem) :
  a <> p -> blocks (store (Some a) off bs m) !! p = blocks m !! p.
Proof.
  intros Hne. unfold store.
  destruct (blocks m !! a) as [blk|]; [|reflexivity].
  destruct (off <? 0)%Z; [reflexivity|].
  destruct (_ <=? _)%Z; [cbn [blocks]; apply lookup_insert_ne; exact Hne|].
  destruct (_ <=? _)%Z; [|reflexivity].
  cbn [blocks raise]. apply lookup_insert_ne. exact Hne.
Qed.

Section LoginFacts.
Context {M : Type} `{externals M}.

Lemma arg_ok (data : management) (w : world M) (i : nat) (p : ptr)
    (blk word : bytes) :
  cmd data !! i = Some p ->
  blocks (heap w) !! p = Some blk -> c_str blk = Some word ->
  arg data i w = (word, w).
Proof.
  intros Hc Hb Hs. unfold arg. rewrite Hc.
  rewrite (load_str_ok p blk word (heap w) Hb Hs).
  destruct w; reflexivity.
Qed.


Lemma arg_params (data : management) (i : nat) (w : world M) :
  parameters (snd (arg data i w)) = parameters w.
Proof. unfold arg. destruct (load_str _ _). reflexivity. Qed.

Lemma malloc_strlen_params (s : bytes) (w : world M) :
  parameters (snd (malloc_strlen s w)) = parameters w.
Proof. unfold malloc_strlen. destruct (malloc _ _). reflexivity. Qed.

Ltac thread_arg :=
  match goal with
  | |- context [arg ?d ?i ?w] =>
      let Hp := fresh "Hp" in
      pose proof (arg_params d i w) as Hp;
      destruct (arg d i w) as [? ?]; cbn [snd] in Hp
  | |- context [malloc_strlen ?s ?w] =>
      let Hp := fresh "Hp" in
      pose proof (malloc_strlen_params s w) as Hp;
      destruct (malloc_strlen s w) as [? ?]; cbn [snd] in Hp
  end.

Lemma parse_user_params (data : management) (w : world M) :
  parameters (snd (parse_user data w)) = parameters w.
Proof.
  unfold parse_user. thread_arg.
  destruct (_ =? 0)%Z; [|cbn; assumption].
  thread_arg. thread_arg. destruct o; cbn; congruence.
Qed.

Lemma parse_pass_params (data : management) (w : world M) :
  parameters (snd (parse_pass data w)) = parameters w.
Proof.
  unfold parse_pass. thread_arg.
  destruct (_ =? 0)%Z; [|cbn; assumption].
  thread_arg.
  destruct (load_str (opt_pass _) _) as [pass m].
  destruct (strcmp pass _ =? 0)%Z; cbn [andb].
  - cbn [heap parameters with_heap].
    destruct (load_str (opt_user _) _) as [pu m1].
    destruct (load_str (user data) m1) as [du m2].
    destruct (strcmp pu du =? 0)%Z; cbn; congruence.
  - cbn; congruence.
Qed.

Lemma arg_blocks (data : management) (i : nat) (w : world M) :
  blocks (heap (snd (arg data i w))) = blocks (heap w).
Proof.
  unfold arg.
  pose proof (load_str_blocks (cmd data !! i) (heap w)) as E.
  destruct (load_str (cmd data !! i) (heap w)) as [s m]. exact E.
Qed.

Lemma arg_oom (data : management) (i : nat) (w : world M) :
  oom (heap (snd (arg data i w))) = oom (heap w).
Proof.
  unfold arg.
  pose proof (load_str_oom (cmd data !! i) (heap w)) as E.
  destruct (load_str (cmd data !! i) (heap w)) as [s m]. exact E.
Qed.

Lemma parse_user_frame (data : management) (w : world M) (p : ptr) :
  is_Some (blocks (heap w) !! p) ->
  blocks (heap (snd (parse_user data w))) !! p = blocks (heap w) !! p /\
  cmd (snd (fst (parse_user data w))) = cmd data.
Proof.
  intros Hl. unfold parse_user.
  pose proof (arg_blocks data 0 w) as E0.
  destruct (arg data 0 w) as [cmd0 w0]. cbn [snd] in E0.
  destruct (_ =? 0)%Z.
  2: { cbn [fst snd say heap]. rewrite E0. split; reflexivity. }
  pose proof (arg_blocks data 1 w0) as E1.
  destruct (arg data 1 w0) as [cmd1 w1]. cbn [snd] in E1.
  unfold malloc_strlen, malloc, alloc.
  destruct (oom (heap w1)) as [|[] rest].
  - cbn [fst snd say heap with_heap do_strcpy cmd blocks].
    split; [|reflexivity].
    assert (fresh (dom (blocks (heap w1))) <> p) as Hne.
    { intros E. apply (is_fresh (dom (blocks (heap w1)))). rewrite E.
      apply elem_of_dom. rewrite E1, E0. exact Hl. }
    unfold strcpy. rewrite store_other by exact Hne. cbn [blocks].
    rewrite lookup_insert_ne by exact Hne. rewrite E1, E0. reflexivity.
  - cbn [fst snd say heap with_heap blocks]. rewrite E1, E0.
    split; reflexivity.
  - cbn [fst snd say heap with_heap do_strcpy cmd blocks].
    split; [|reflexivity].
    assert (fresh (dom (blocks (heap w1))) <> p) as Hne.
    { intros E. apply (is_fresh (dom (blocks (heap w1)))). rewrite E.
      apply elem_of_dom. rewrite E1, E0. exact Hl. }
    unfold strcpy. rewrite store_other by exact Hne. cbn [blocks].
    rewrite lookup_insert_ne by exact Hne. rewrite E1, E0. reflexivity.
Qed.

Lemma parse_pass_frame (data : management) (w : world M) (p : ptr) :
  user data <> Some p ->
  blocks (heap (snd (parse_pass data w))) !! p = blocks (heap w) !! p /\
  cmd (snd (fst (parse_pass data w))) = cmd data.
Proof.
  intros Hu. unfold parse_pass.
  pose proof (arg_blocks data 0 w) as E0.
  destruct (arg data 0 w) as [cmd0 w0]. cbn [snd] in E0.
  destruct (_ =? 0)%Z.
  2: { cbn [fst snd say heap]. rewrite E0. split; reflexivity. }
  pose proof (arg_blocks data 1 w0) as E1.
  destruct (arg data 1 w0) as [cmd1 w1]. cbn [snd] in E1.
  pose proof (load_str_blocks (opt_pass (parameters w1)) (heap w1)) as E2.
  destruct (load_str (opt_pass (parameters w1)) (heap w1)) as [pass m2].
  cbn [snd] in E2. cbv zeta.
  destruct (strcmp pass cmd1 =? 0)%Z.
  - cbn [with_heap parameters heap].
    pose proof (load_str_blocks (opt_user (parameters w1)) m2) as E3.
    destruct (load_str (opt_user (parameters w1)) m2) as [pu m3].
    cbn [snd] in E3.
    pose proof (load_str_blocks (user data) m3) as E4.
    destruct (load_str (user data) m3) as [du m4]. cbn [snd] in E4.
    cbn [andb]. destruct (strcmp pu du =? 0)%Z.
    + cbn [fst snd say heap with_heap do_free cmd]. split; [|reflexivity].
      unfold free. destruct (user data) as [u|]; [|congruence].
      assert (u <> p) as Hne by congruence.
      destruct (blocks m4 !! u);
        cbn [blocks raise]; rewrite ?lookup_delete_ne by exact Hne;
        congruence.
    + cbn [fst snd say heap with_heap cmd]. split; [congruence | reflexivity].
  - cbn [andb fst snd say heap with_heap cmd].
    split; [congruence | reflexivity].
Qed.

(** X11: whatever command arrives on a connection that is not in
    [ST_CONFIG], well-formed or not, [parameters] is left as it was,
    and so is every string it points to: an allocated object that is
    not the one [data->user] points to, and that [free_cmd] leaves
    alone, is neither freed nor stored into. *)
Theorem config_untouched_before_login (data : management) (w : world M) :
  status data <> ST_CONFIG ->
  parameters (snd (parse_commands data w)) = parameters w /\
  forall p : ptr,
    Some p ∈ config_strings (parameters w) ->
    is_Some (blocks (heap w) !! p) ->
    user data <> Some p ->
    (forall m : mem,
        blocks (free_cmd (cmd data) (action_args (status data)) m) !! p
        = blocks m !! p) ->
    blocks (heap (snd (parse_commands data w))) !! p = blocks (heap w) !! p.
Proof.
  intros Hst. split.
  { assert (forall w0 : world M,
              parameters w0 = parameters w ->
              parameters (snd (let '(r, data', w'') := run_action data w0 in
                               (r, data',
                                with_heap (free_cmd (cmd data')
                                             (action_args (status data))
                                             (heap w'')) w'')))
              = parameters w) as Hrun.
    { intros w0 Hp. unfold run_action.
      destruct (status data); [| | |contradiction].
      - cbn. exact Hp.
      - pose proof (parse_user_params data w0) as Hu.
        destruct (parse_user data w0) as [[r d'] w'']. cbn in *. congruence.
      - pose proof (parse_pass_params data w0) as Hu.
        destruct (parse_pass data w0) as [[r d'] w'']. cbn in *. congruence. }
    unfold parse_commands. cbv zeta.
    destruct (argc data =? 1)%Z.
    - pose proof (arg_params data 0 w) as Hp.
      destruct (arg data 0 w) as [cmd0 w']. cbn [snd] in Hp.
      destruct (_ =? 0)%Z; [cbn; exact Hp|].
      match goal with
      | |- context [if ?c then ERROR_WRONGARGS else error data] =>
          destruct (if c then ERROR_WRONGARGS else error data)
      end;
        try (cbn; exact Hp). apply Hrun, Hp.
    - match goal with
      | |- context [if ?c then ERROR_WRONGARGS else error data] =>
          destruct (if c then ERROR_WRONGARGS else error data)
      end;
        try reflexivity. apply Hrun. reflexivity. }
  intros p _ Hl Hu Hfree.
  assert (forall w0 : world M,
            blocks (heap w0) = blocks (heap w) ->
            blocks (heap (snd (let '(r, data', w'') := run_action data w0 in
                               (r, data',
                                with_heap (free_cmd (cmd data')
                                             (action_args (status data))
                                             (heap w'')) w'')))) !! p
            = blocks (heap w) !! p) as Hrun.
  { intros w0 Hb. unfold run_action.
    destruct (status data); [| | |contradiction].
    - cbn [parse_hello snd heap with_heap say cmd].
      rewrite Hfree. rewrite Hb. reflexivity.
    - destruct (parse_user_frame data w0 p) as [Hf Hc];
        [rewrite Hb; exact Hl|].
      destruct (parse_user data w0) as [[r d'] w'']. cbn [fst snd] in *.
      cbn [heap with_heap]. rewrite Hc, Hfree, Hf, Hb. reflexivity.
    - destruct (parse_pass_frame data w0 p Hu) as [Hf Hc].
      destruct (parse_pass data w0) as [[r d'] w'']. cbn [fst snd] in *.
      cbn [heap with_heap]. rewrite Hc, Hfree, Hf, Hb. reflexivity. }
  unfold parse_commands. cbv zeta.
  destruct (argc data =? 1)%Z.
  + pose proof (arg_blocks data 0 w) as Hb.
    destruct (arg data 0 w) as [cmd0 w']. cbn [snd] in Hb.
    destruct (_ =? 0)%Z;
      [cbn [goodbye snd heap say]; rewrite Hb; reflexivity|].
    match goal with
    | |- context [if ?c then ERROR_WRONGARGS else error data] =>
        destruct (if c then ERROR_WRONGARGS else error data)
    end;
      try (cbn [snd heap say]; rewrite Hb; reflexivity).
    apply Hrun, Hb.
  + match goal with
    | |- context [if ?c then ERROR_WRONGARGS else error data] =>
        destruct (if c then ERROR_WRONGARGS else error data)
    end;
      try reflexivity. apply Hrun. reflexivity.
Qed.


Lemma parse_config_returns_zero (data : management) (w : world M) :
  fst (parse_config data w) = 0%Z.
Proof.
  unfold parse_config, fail, fail_mem, fail_type, success.
  repeat (first [ reflexivity
                | match goal with
                  | |- context [arg ?d ?i ?w] => destruct (arg d i w) as [? ?]
                  | |- context [malloc_strlen ?s ?w] =>
                      destruct (malloc_strlen s w) as [[?|] ?]
                  | |- context [is_mime ?s] => destruct (is_mime s) as [[? ?]|]
                  | |- context [add_media_type ?a ?b ?c] =>
                      destruct (add_media_type a b c) as [? ?]
                  | |- context [delete_media_type ?a ?b ?c] =>
                      destruct (delete_media_type a b c) as [? ?]
                  | |- context [if ?c then _ else _] => destruct c
                  end ]).
Qed.



(** X12, [parse_config] by way of [parse_commands]: in [ST_CONFIG]
    the result is -1 exactly for the one-word command QUIT (any letter
    case); every other command, recognised or not, answers 0, and
    [management_write] then leaves the connection registered. *)
Theorem config_connection_ends_only_on_quit (data : management) (w : world M) :
  status data = ST_CONFIG ->
  (fst (fst (parse_commands data w)) = (-1)%Z
   <-> argc data = 1%Z /\
       strcasecmp (lit "QUIT") (fst (arg data 0 w)) = 0%Z) /\
  (fst (fst (parse_commands data w)) <> (-1)%Z ->
   fst (fst (parse_commands data w)) = 0%Z /\
   wire (snd (management_write data w true))
   = wire (snd (parse_commands data w))).
Proof.
  intros Es.
  assert (fst (fst (parse_commands data w))
          = if (argc data =? 1)%Z
               && (strcasecmp (lit "QUIT") (fst (arg data 0 w)) =? 0)%Z
            then (-1)%Z else 0%Z) as Hr.
  { unfold parse_commands. rewrite Es. cbn [action_args]. cbv zeta.
    change (negb (0 =? 0)%Z) with false. cbn [andb].
    destruct (argc data =? 1)%Z; cbn [andb].
    - destruct (arg data 0 w) as [cmd0 w']. cbn [fst].
      destruct (_ =? 0)%Z; [reflexivity|].
      destruct (error data); try reflexivity.
      unfold run_action. rewrite Es.
      pose proof (parse_config_returns_zero data w') as Hz.
      destruct (parse_config data w') as [r w'']. exact Hz.
    - destruct (error data); try reflexivity.
      unfold run_action. rewrite Es.
      pose proof (parse_config_returns_zero data w) as Hz.
      destruct (parse_config data w) as [r w'']. exact Hz. }
  split.
  - rewrite Hr. destruct (argc data =? 1)%Z eqn:Ea; cbn [andb].
    + apply Z.eqb_eq in Ea.
      destruct (_ =? 0)%Z eqn:Eq.
      * apply Z.eqb_eq in Eq. split; auto.
      * apply Z.eqb_neq in Eq. split; [discriminate | intros [_ ?]; contradiction].
    + apply Z.eqb_neq in Ea. split; [discriminate | intros [? _]; contradiction].
  - intros Hne. split.
    + rewrite Hr in *. destruct (_ && _); [contradiction | reflexivity].
    + unfold management_write.
      destruct (parse_commands data w) as [[r d'] w'] eqn:Epc. cbn [fst snd] in *.
      rewrite Hr. destruct (_ && _); [contradiction|]. reflexivity.
Qed.

Lemma nul_free_c_str_None (s : bytes) : nul_free s -> c_str s = None.
Proof.
  induction 1 as [|c s Hc Hs IH]; cbn [c_str]; [reflexivity|].
  rewrite Hc, IH. reflexivity.
Qed.

(** X13, [parse_user]: the copy of the name given with USER is made
    in an object of [strlen] bytes, so [strcpy] stores the terminator
    one byte past its end: the object kept in [data->user] holds the
    name and no NUL. *)
Theorem user_copy_has_no_terminator (data : management) (w : world M)
    (p0 p1 : ptr) (b0 b1 word0 name : bytes) :
  cmd data !! 0%nat = Some p0 ->
  blocks (heap w) !! p0 = Some b0 -> c_str b0 = Some word0 ->
  map tolower word0 = lit "user" ->
  cmd data !! 1%nat = Some p1 ->
  blocks (heap w) !! p1 = Some b1 -> c_str b1 = Some name ->
  (Z.of_nat (length name) < 2 ^ 64)%Z ->
  hd false (oom (heap w)) = false ->
  exists u w',
    parse_user data w
      = (0%Z,
         mk_management (client_fd data) ST_PASS (error data) (argc data)
           (cmd data) (Some u),
         w') /\
    blocks (heap w) !! u = None /\
    blocks (heap w') !! u = Some name /\
    c_str name = None /\
    faults (heap w')
      = faults (heap w)
        ++ [Overflow u (Z.of_nat (length name)) (Z.of_nat (length name) + 1)] /\
    wire w' = wire w ++ [SendOk (lit "Welcome")].
Proof.
  intros Hc0 Hb0 Hs0 Hq Hc1 Hb1 Hs1 Hlen Hoom.
  unfold parse_user.
  rewrite (arg_ok data w 0 p0 b0 word0 Hc0 Hb0 Hs0).
  rewrite (strcasecmp_same_lower (lit "USER") word0) by (rewrite Hq; reflexivity).
  change (0 =? 0)%Z with true. cbv iota.
  rewrite (arg_ok data w 1 p1 b1 name Hc1 Hb1 Hs1).
  unfold malloc_strlen, malloc.
  rewrite (alloc_ok JUNK _ (heap w) Hoom).
  set (u := fresh (dom (blocks (heap w)))).
  assert (blocks (heap w) !! u = None) as Hfresh
    by (apply not_elem_of_dom, is_fresh).
  unfold strlen. rewrite size_t_small by lia. rewrite Nat2Z.id.
  exists u. eexists. split; [reflexivity|].
  split; [exact Hfresh|].
  cbn [do_strcpy with_heap heap say wire].
  unfold strcpy, store. cbn [blocks faults oom].
  rewrite lookup_insert_eq. rewrite length_replicate, length_app.
  cbn [length]. change (0 <? 0)%Z with false. cbv iota.
  replace (0 + Z.of_nat (length name + 1) <=? Z.of_nat (length name))%Z
    with false by (symmetry; apply Z.leb_gt; lia).
  replace (0 <=? Z.of_nat (length name))%Z with true
    by (symmetry; apply Z.leb_le; lia).
  cbn [raise blocks faults Z.to_nat take app].
  rewrite lookup_insert_eq, Nat.sub_0_r, take_app_length.
  split; [reflexivity|].
  split; [apply nul_free_c_str_None, (c_str_no_NUL _ _ Hs1)|].
  split; [|reflexivity].
  do 3 f_equal. lia.
Qed.
End LoginFacts.

(** ** A concrete login *)

#[local] Existing Instance sample_externals.

(** A connection in the state [st] that has just received [argv]: the
    words sit at addresses 0, 1, ...; after them come the configured
    user name and password and the name given with USER. *)
Definition login_world (st : parse_status) (argv : list bytes) (name : bytes)
  : management * world (list (bytes * bytes)) :=
  let n := length argv in
  (mk_management 7 st PARSE_OK (Z.of_nat n) (seq 0 n) (Some (S (S n))),
   mk_world (heap_of (argv ++ [lit "admin"; lit "secret"; name]))
     (mk_options None [] false None (Some n) (Some (S n))) []).


Lemma config_untouched_before_login_witness :
  parameters (snd (parse_commands
                     (fst (login_world ST_USER [lit "user"; lit "admin"] []))
                     (snd (login_world ST_USER [lit "user"; lit "admin"] []))))
  = parameters (snd (login_world ST_USER [lit "user"; lit "admin"] [])) /\
  blocks (heap (snd (parse_commands
                       (fst (login_world ST_USER [lit "user"; lit "admin"] []))
                       (snd (login_world ST_USER [lit "user"; lit "admin"] [])))))
    !! 3%nat
  = blocks (heap (snd (login_world ST_USER [lit "user"; lit "admin"] [])))
      !! 3%nat.
Proof.
  assert (status (fst (login_world ST_USER [lit "user"; lit "admin"] []))
          <> ST_CONFIG) as Hst by (simpl; discriminate).
  split.
  - exact (proj1 (config_untouched_before_login
                    (fst (login_world ST_USER [lit "user"; lit "admin"] []))
                    (snd (login_world ST_USER [lit "user"; lit "admin"] []))
                    Hst)).
  - apply (proj2 (config_untouched_before_login
                    (fst (login_world ST_USER [lit "user"; lit "admin"] []))
                    (snd (login_world ST_USER [lit "user"; lit "admin"] []))
                    Hst)).
    + vm_compute. apply list_elem_of_In. simpl. auto.
    + vm_compute. eexists. reflexivity.
    + simpl. discriminate.
    + intros m. reflexivity.
Defined.

Lemma config_connection_ends_only_on_quit_witness :
  (fst (fst (parse_commands (fst (login_world ST_CONFIG [lit "stats"] []))
               (snd (login_world ST_CONFIG [lit "stats"] [])))) = (-1)%Z
   <-> argc (fst (login_world ST_CONFIG [lit "stats"] [])) = 1%Z /\
       strcasecmp (lit "QUIT")
         (fst (arg (fst (login_world ST_CONFIG [lit "stats"] [])) 0
                 (snd (login_world ST_CONFIG [lit "stats"] [])))) = 0%Z) /\
  (fst (fst (parse_commands (fst (login_world ST_CONFIG [lit "stats"] []))
               (snd (login_world ST_CONFIG [lit "stats"] [])))) <> (-1)%Z ->
   fst (fst (parse_commands (fst (login_world ST_CONFIG [lit "stats"] []))
               (snd (login_world ST_CONFIG [lit "stats"] [])))) = 0%Z /\
   wire (snd (management_write (fst (login_world ST_CONFIG [lit "stats"] []))
                (snd (login_world ST_CONFIG [lit "stats"] [])) true))
   = wire (snd (parse_commands (fst (login_world ST_CONFIG [lit "stats"] []))
                  (snd (login_world ST_CONFIG [lit "stats"] []))))).
Proof.
  apply (config_connection_ends_only_on_quit
           (fst (login_world ST_CONFIG [lit "stats"] []))
           (snd (login_world ST_CONFIG [lit "stats"] []))).
  reflexivity.
Defined.

Lemma user_copy_has_no_terminator_witness :
  exists u w',
    parse_user (fst (login_world ST_USER [lit "user"; lit "admin"] []))
      (snd (login_world ST_USER [lit "user"; lit "admin"] []))
      = (0%Z,
         mk_management 7 ST_PASS PARSE_OK 2 [0%nat; 1%nat] (Some u),
         w') /\
    blocks (heap (snd (login_world ST_USER [lit "user"; lit "admin"] []))) !! u
      = None /\
    blocks (heap w') !! u = Some (lit "admin") /\
    c_str (lit "admin") = None /\
    faults (heap w')
      = faults (heap (snd (login_world ST_USER [lit "user"; lit "admin"] [])))
        ++ [Overflow u (Z.of_nat (length (lit "admin")))
              (Z.of_nat (length (lit "admin")) + 1)] /\
    wire w'
      = wire (snd (login_world ST_USER [lit "user"; lit "admin"] []))
        ++ [SendOk (lit "Welcome")].
Proof.
  apply (user_copy_has_no_terminator
           (fst (login_world ST_USER [lit "user"; lit "admin"] []))
           (snd (login_world ST_USER [lit "user"; lit "admin"] []))
           0%nat 1%nat (lit "user" ++ [NUL]) (lit "admin" ++ [NUL])
           (lit "user") (lit "admin"));
    vm_compute; reflexivity.
Defined.

End ManagementLogin.


(* ===================================================================== *)
(** * pop3.c: the connection counters over every trace *)
(* ===================================================================== *)

Module Accounting.
Import Fsm Metrics.

(** X14, [pop3_passive_accept] and [pop3_done]: over any sequence of
    reactor events, [concurrent_connections] is the number of sessions
    not yet in DONE/ERROR, plus the sessions that ended without an
    origin descriptor, plus the [accept] calls that registered no
    session: the counter is raised before the result of [accept] is
    looked at, and nothing lowers it for a connection that never became
    a session.  [historical_access] is the number of [accept] calls. *)
Theorem failed_accepts_stay_counted (tr : list event) :
  (Z.of_nat (length tr) < 2 ^ 32)%Z ->
  concurrent_connections (metricas (run tr initial))
    = Z.of_nat (count live (sessions (run tr initial))
                + count orphan (sessions (run tr initial))
                + tally accept_fails tr) /\
  historical_access (metricas (run tr initial))
    = Z.of_nat (tally is_accept tr) /\
  (length (sessions (run tr initial)) + tally accept_fails tr
   = tally is_accept tr)%nat.
Proof.
  intros Hb.
  destruct (tallied_run tr 0 0 initial) as (Hc & Hh & Hl).
  - repeat split.
  - simpl. lia.
  - cbn [Nat.add] in *. rewrite count_counted in Hc. auto.
Qed.

(** Three connection attempts: the second [accept] fails, the third
    client is refused by its origin. *)
Definition sample_attempts : list event :=
  [Accept 5 true true true; Accept (-1) true true true;
   Accept 6 true true true;
   Handler 0 CONNECTING; Connecting 0 9 true true; Handler 0 DONE;
   Handler 1 CONNECTING; Connecting 1 10 false true].

Lemma failed_accepts_stay_counted_witness :
  concurrent_connections (metricas (run sample_attempts initial)) = 1%Z /\
  count live (sessions (run sample_attempts initial)) = 0%nat /\
  (concurrent_connections (metricas (run sample_attempts initial))
     = Z.of_nat (count live (sessions (run sample_attempts initial))
                 + count orphan (sessions (run sample_attempts initial))
                 + tally accept_fails sample_attempts) /\
   historical_access (metricas (run sample_attempts initial))
     = Z.of_nat (tally is_accept sample_attempts) /\
   (length (sessions (run sample_attempts initial))
    + tally accept_fails sample_attempts
    = tally is_accept sample_attempts)%nat).
Proof.
  split; [reflexivity|]. split; [reflexivity|].
  apply (failed_accepts_stay_counted sample_attempts).
  vm_compute. reflexivity.
Defined.

End Accounting.


(* ===================================================================== *)
(** * pop3.c: the life of the object pool *)
(* ===================================================================== *)

Module PoolLife.
Import Pool.

(** ** Reuse *)

(** Does the call put an object on the free list? *)
Definition pools (o : op) (st : state) : bool :=
  match o with
  | Destroy (Some a) =>
      match heap st !! a with
      | Some ob => (references ob =? 1)%Z && (pool_size st <? max_pool)%Z
      | None => false
      end
  | _ => false
  end.

(** The number of calls of a run that put an object on the free list. *)
Fixpoint poolings (ops : list op) (st : state) : nat :=
  match ops with
  | [] => 0
  | o :: ops' =>
      (if pools o st then 1 else 0)
      + match step o st with
        | Some st' => poolings ops' st'
        | None => 0
        end
  end.

Lemma pool_size_step (o : op) (st st' : state) :
  (0 <= pool_size st <= max_pool)%Z ->
  step o st = Some st' ->
  pool_size st' = (pool_size st + if pools o st then 1 else 0)%Z.
Proof.
  intros Hb. destruct o as [fd ok|[a|]]; cbn [step pools].
  - unfold pop3_new. destruct (pool st) as [p|].
    + destruct (heap st !! p); [|discriminate]. intros [= <-]. cbn. lia.
    + destruct ok; intros [= <-]; cbn; lia.
  - unfold pop3_destroy. destruct (heap st !! a) as [ob|]; [|discriminate].
    destruct (references ob =? 1)%Z; cbn [andb].
    + destruct (pool_size st <? max_pool)%Z eqn:El; intros [= <-].
      * apply Z.ltb_lt in El. cbn [pool_size].
        rewrite Z.mod_small by (unfold UINT_MOD, max_pool in *; lia).
        reflexivity.
      * cbn. lia.
    + intros [= <-]. cbn. lia.
  - intros [= <-]. lia.
Qed.

Lemma pool_size_run (ops : list op) :
  forall st st',
  (0 <= pool_size st <= max_pool)%Z ->
  run ops st = Some st' ->
  pool_size st' = (pool_size st + Z.of_nat (poolings ops st))%Z /\
  (pool_size st' <= max_pool)%Z.
Proof.
  induction ops as [|o ops IH]; intros st st' Hb; cbn [run poolings].
  - intros [= <-]. lia.
  - destruct (step o st) as [st1|] eqn:Es; [|discriminate].
    intros Hr. pose proof (pool_size_step o st st1 Hb Es) as H1.
    assert (0 <= pool_size st1 <= max_pool)%Z as Hb1.
    { rewrite H1. destruct o as [fd ok|[a|]]; cbn [pools]; try lia.
      destruct (heap st !! a) as [ob|]; [|lia].
      destruct (references ob =? 1)%Z; cbn [andb]; [|lia].
      destruct (pool_size st <? max_pool)%Z eqn:El; [|lia].
      apply Z.ltb_lt in El. lia. }
    destruct (IH st1 st' Hb1 Hr) as [H2 H3].
    split; [|exact H3]. rewrite H2, H1.
    destruct (pools o st); lia.
Qed.

(** X15, [pop3_destroy] with [pop3_new]: along any run from the empty
    pool, [pool_size] is the number of calls that put an object on the
    free list so far, whether or not the object was taken out again; so
    at most 50 objects are ever pooled in the life of the process. *)
Theorem pool_slots_are_never_given_back (ops : list op) (st : state) :
  run ops initial = Some st ->
  pool_size st = Z.of_nat (poolings ops initial) /\
  (poolings ops initial <= 50)%nat.
Proof.
  intros Hr.
  destruct (pool_size_run ops initial st) as [H1 H2];
    [cbn; unfold max_pool; lia | exact Hr |].
  cbn [pool_size initial] in H1. unfold max_pool in H2. split; lia.
Qed.

(** X16: an object destroyed with its last reference while there is
    room in the pool is the one the next [pop3_new] hands out, without
    calling [malloc], reinitialised for the new client; the free list
    is then what it was before, and [pool_size] is one higher. *)
Theorem destroy_then_new_reuses_the_object
    (a : addr) (o : pop3) (fd : Z) (malloc_ok : bool) (st : state) :
  heap st !! a = Some o -> references o = 1%Z ->
  (0 <= pool_size st < max_pool)%Z ->
  exists st1,
    pop3_destroy (Some a) st = Some st1 /\
    pool st1 = Some a /\
    pop3_new fd malloc_ok st1
      = Some ({| heap := <[a := fresh_pop3 fd]> (heap st);
                 pool := pool st;
                 pool_size := (pool_size st + 1)%Z |}, Some a).
Proof.
  intros Ha Hr Hb. unfold pop3_destroy. rewrite Ha, Hr.
  change (1 =? 1)%Z with true. cbv iota.
  destruct (pool_size st <? max_pool)%Z eqn:El;
    [|apply Z.ltb_ge in El; lia].
  eexists. split; [reflexivity|]. split; [reflexivity|].
  unfold pop3_new. cbn [pool heap pool_size]. rewrite lookup_insert_eq.
  cbn [next]. rewrite insert_insert_eq.
  rewrite Z.mod_small by (unfold UINT_MOD, max_pool in *; lia).
  reflexivity.
Qed.

(** ** [pop3_pool_destroy] *)

(** How the loop of [pop3_pool_destroy] ends: every object of the list
    is freed; or it reads [s->next] in an object that is freed already;
    or it is still going after [fuel] objects. *)
Inductive sweep :=
| Swept (h : gmap addr pop3)
| UseAfterFree (a : addr)
| Unfinished.

(** [for(s = pool; s != NULL; s = next) { next = s->next; free(s); }] *)
Fixpoint pool_destroy_loop (fuel : nat) (s : option addr) (h : gmap addr pop3)
  : sweep :=
  match s with
  | None => Swept h
  | Some a =>
      match fuel with
      | O => Unfinished
      | S f =>
          match h !! a with
          | None => UseAfterFree a
          | Some o => pool_destroy_loop f (next o) (delete a h)
          end
      end
  end.

(** [pop3_pool_destroy()]; [pool] and [pool_size] are left as they
    are. *)
Definition pop3_pool_destroy (fuel : nat) (st : state) : sweep :=
  pool_destroy_loop fuel (pool st) (heap st).

(** A run in which no call destroys an object that sits on the free
    list. *)
Fixpoint disciplined (ops : list op) (st : state) : bool :=
  match ops with
  | [] => true
  | o :: ops' =>
      match o with
      | Destroy (Some a) =>
          negb (existsb (Nat.eqb a) (walk 50 (heap st) (pool st)))
      | _ => true
      end
      && match step o st with
         | Some st' => disciplined ops' st'
         | None => true
         end
  end.

(** The free list from [p]: the objects [l], linked by [next], ending
    in NULL. *)
Fixpoint chain (h : gmap addr pop3) (p : option addr) (l : list addr) : Prop :=
  match l with
  | [] => p = None
  | a :: l' => p = Some a /\ exists o, h !! a = Some o /\ chain h (next o) l'
  end.

Lemma chain_insert (h : gmap addr pop3) (x : addr) (v : pop3) (l : list addr) :
  forall p, x ∉ l -> chain h p l -> chain (<[x := v]> h) p l.
Proof.
  induction l as [|a l IH]; intros p Hx; cbn [chain]; [auto|].
  intros (-> & o & Ho & Hc). split; [reflexivity|].
  exists o. split.
  - rewrite lookup_insert_ne; [exact Ho|]. intros ->. apply Hx. left.
  - apply IH; [|exact Hc]. intros Hin. apply Hx. right. exact Hin.
Qed.

Lemma chain_delete (h : gmap addr pop3) (x : addr) (l : list addr) :
  forall p, x ∉ l -> chain h p l -> chain (delete x h) p l.
Proof.
  induction l as [|a l IH]; intros p Hx; cbn [chain]; [auto|].
  intros (-> & o & Ho & Hc). split; [reflexivity|].
  exists o. split.
  - rewrite lookup_delete_ne; [exact Ho|]. intros ->. apply Hx. left.
  - apply IH; [|exact Hc]. intros Hin. apply Hx. right. exact Hin.
Qed.

Lemma chain_live (h : gmap addr pop3) (l : list addr) :
  forall p a, chain h p l -> a ∈ l -> is_Some (h !! a).
Proof.
  induction l as [|b l IH]; intros p a; cbn [chain].
  - intros _ Hin. inversion Hin.
  - intros (-> & o & Ho & Hc) Hin. apply elem_of_cons in Hin as [->|Hin].
    + eexists; exact Ho.
    + eapply IH; eauto.
Qed.

Lemma chain_walk (h : gmap addr pop3) (l : list addr) :
  forall p fuel, chain h p l -> (length l <= fuel)%nat -> walk fuel h p = l.
Proof.
  induction l as [|a l IH]; intros p fuel; cbn [chain length].
  - intros -> _. destruct fuel; reflexivity.
  - intros (-> & o & Ho & Hc) Hf. destruct fuel as [|f]; [lia|].
    cbn [walk]. rewrite Ho. f_equal. apply IH; [exact Hc | lia].
Qed.

(** The free list is a list: it ends, it meets no object twice, and it
    is no longer than [pool_size]. *)
Definition listed (st : state) : Prop :=
  exists l, chain (heap st) (pool st) l /\ NoDup l /\
            (Z.of_nat (length l) <= pool_size st <= max_pool)%Z.

Lemma existsb_eqb_false (a : addr) (l : list addr) :
  existsb (Nat.eqb a) l = false -> a ∉ l.
Proof.
  induction l as [|b l IH]; cbn [existsb]; intros H Hin.
  - inversion Hin.
  - apply orb_false_iff in H as [Hb Hl].
    apply elem_of_cons in Hin as [->|Hin].
    + rewrite Nat.eqb_refl in Hb. discriminate.
    + exact (IH Hl Hin).
Qed.

Lemma listed_step (o : op) (st st' : state) :
  listed st ->
  match o with
  | Destroy (Some a) => a ∉ walk 50 (heap st) (pool st)
  | _ => True
  end ->
  step o st = Some st' -> listed st'.
Proof.
  intros (l & Hc & Hnd & Hlen) Hd.
  assert (walk 50 (heap st) (pool st) = l) as Hw
    by (apply chain_walk; [exact Hc | unfold max_pool in Hlen; lia]).
  destruct o as [fd ok|[a|]]; cbn [step].
  - unfold pop3_new. destruct (pool st) as [p|] eqn:Ep.
    + destruct (heap st !! p) as [ob|] eqn:Eo; [|discriminate].
      intros [= <-]. destruct l as [|b l]; cbn [chain] in Hc; [discriminate|].
      destruct Hc as ([= <-] & o' & Ho' & Hc). rewrite Eo in Ho'.
      injection Ho' as <-. apply NoDup_cons in Hnd as [Hnot Hnd].
      exists l. cbn [heap pool pool_size]. split; [|split; [exact Hnd|]].
      * apply chain_insert; assumption.
      * cbn [length] in Hlen. lia.
    + destruct l as [|b l]; cbn [chain] in Hc; [|destruct Hc; discriminate].
      destruct ok; intros [= <-].
      * exists []. cbn [heap pool pool_size chain length]. split; [reflexivity|].
        split; [constructor|]. cbn [length] in Hlen. lia.
      * exists []. rewrite Ep. cbn [chain length]. split; [reflexivity|].
        split; [constructor|]. cbn [length] in Hlen. lia.
  - rewrite Hw in Hd. unfold pop3_destroy.
    destruct (heap st !! a) as [ob|] eqn:Eo; [|discriminate].
    destruct (references ob =? 1)%Z.
    + destruct (pool_size st <? max_pool)%Z eqn:El; intros [= <-].
      * apply Z.ltb_lt in El. exists (a :: l).
        cbn [heap pool pool_size chain length].
        split; [|split; [apply NoDup_cons; split; assumption|]].
        -- split; [reflexivity|]. eexists. split; [apply lookup_insert_eq|].
           cbn [next]. apply chain_insert; assumption.
        -- rewrite Z.mod_small by (unfold UINT_MOD, max_pool in *; lia). lia.
      * exists l. unfold pop3_destroy_. cbn [heap pool pool_size].
        split; [apply chain_delete; assumption|]. split; assumption.
    + intros [= <-]. exists l. cbn [heap pool pool_size].
      split; [apply chain_insert; assumption|]. split; assumption.
  - intros [= <-]. exists l. auto.
Qed.

Lemma listed_run (ops : list op) :
  forall st st',
  listed st -> disciplined ops st = true -> run ops st = Some st' -> listed st'.
Proof.
  induction ops as [|o ops IH]; intros st st' Hl; cbn [disciplined run].
  - intros _ [= <-]. exact Hl.
  - intros Hd. apply andb_true_iff in Hd as [Ho Hd].
    destruct (step o st) as [st1|] eqn:Es; [|discriminate].
    intros Hr. apply (IH st1 st'); [|exact Hd | exact Hr].
    apply (listed_step o st st1 Hl); [|exact Es].
    destruct o as [fd ok|[a|]]; [exact I| |exact I].
    apply existsb_eqb_false. apply negb_true_iff in Ho. exact Ho.
Qed.

Lemma sweep_chain (l : list addr) :
  forall (h : gmap addr pop3) (p : option addr) (fuel : nat),
  chain h p l -> NoDup l -> (length l <= fuel)%nat ->
  exists h',
    pool_destroy_loop fuel p h = Swept h' /\
    forall a, h' !! a = if bool_decide (a ∈ l) then None else h !! a.
Proof.
  induction l as [|b l IH]; intros h p fuel; cbn [chain length].
  - intros -> _ _. exists h. split; [destruct fuel; reflexivity|].
    intros a. rewrite bool_decide_eq_false_2; [reflexivity|].
    intros Hin. inversion Hin.
  - intros (-> & o & Ho & Hc) Hnd Hf. apply NoDup_cons in Hnd as [Hnot Hnd].
    destruct fuel as [|f]; [lia|]. cbn [pool_destroy_loop]. rewrite Ho.
    destruct (IH (delete b h) (next o) f) as (h' & Hs & Hh');
      [apply chain_delete; assumption | exact Hnd | lia |].
    exists h'. split; [exact Hs|]. intros a. rewrite Hh'.
    destruct (decide (a = b)) as [->|Hab].
    + rewrite (bool_decide_eq_true_2 (b ∈ b :: l)) by left.
      rewrite lookup_delete_eq. destruct (bool_decide (b ∈ l)); reflexivity.
    + rewrite lookup_delete_ne by congruence.
      destruct (bool_decide (a ∈ l)) eqn:E.
      * apply bool_decide_eq_true in E.
        rewrite bool_decide_eq_true_2 by (right; exact E). reflexivity.
      * apply bool_decide_eq_false in E.
        rewrite bool_decide_eq_false_2; [reflexivity|].
        intros Hin. apply elem_of_cons in Hin as [?|?]; contradiction.
Qed.

Lemma listed_initial : listed initial.
Proof.
  exists []. cbn [chain initial heap pool pool_size length].
  split; [reflexivity|]. split; [constructor|]. unfold max_pool. lia.
Qed.

(** X17, [pop3_pool_destroy]: after a run in which no call destroys
    an object that sits on the free list, the loop ends within 50
    rounds, frees exactly the objects of the free list and touches no
    other.  It leaves [pool] as it was: when the list was not empty, a
    later [pop3_new] reads freed memory. *)
Theorem pool_destroy_frees_the_free_list
    (ops : list op) (st : state) (fd : Z) (malloc_ok : bool) :
  run ops initial = Some st ->
  disciplined ops initial = true ->
  exists h,
    pop3_pool_destroy 50 st = Swept h /\
    (forall a, h !! a = if bool_decide (a ∈ walk 50 (heap st) (pool st))
                        then None else heap st !! a) /\
    (pool st <> None ->
     pop3_new fd malloc_ok {| heap := h; pool := pool st;
                              pool_size := pool_size st |} = None).
Proof.
  intros Hr Hd.
  destruct (listed_run ops initial st listed_initial Hd Hr)
    as (l & Hc & Hnd & Hlen).
  assert (length l <= 50)%nat as Hl50 by (unfold max_pool in Hlen; lia).
  rewrite (chain_walk (heap st) l (pool st) 50 Hc Hl50).
  destruct (sweep_chain l (heap st) (pool st) 50 Hc Hnd Hl50) as (h & Hs & Hh).
  exists h. split; [exact Hs|]. split; [exact Hh|].
  intros Hp. unfold pop3_new. cbn [pool heap].
  destruct l as [|b l']; cbn [chain] in Hc; [contradiction|].
  destruct Hc as (-> & _). rewrite Hh.
  rewrite bool_decide_eq_true_2 by left. reflexivity.
Qed.

Lemma pool_slots_are_never_given_back_witness :
  exists st,
    run sample_ops initial = Some st /\
    pool_size st = Z.of_nat (poolings sample_ops initial) /\
    (poolings sample_ops initial <= 50)%nat.
Proof.
  eexists. split; [vm_compute; reflexivity|].
  apply (pool_slots_are_never_given_back sample_ops). vm_compute. reflexivity.
Defined.

(** One live session, nothing pooled yet. *)
Definition one_session : state :=
  {| heap := {[0%nat := fresh_pop3 7]}; pool := None; pool_size := 0 |}.

Lemma destroy_then_new_reuses_the_object_witness :
  exists st1,
    pop3_destroy (Some 0%nat) one_session = Some st1 /\
    pool st1 = Some 0%nat /\
    pop3_new 8 false st1
      = Some ({| heap := <[0%nat := fresh_pop3 8]> (heap one_session);
                 pool := pool one_session;
                 pool_size := (pool_size one_session + 1)%Z |}, Some 0%nat).
Proof.
  apply (destroy_then_new_reuses_the_object 0%nat (fresh_pop3 7) 8 false
           one_session).
  - vm_compute. reflexivity.
  - reflexivity.
  - unfold max_pool. simpl. lia.
Defined.

(** Where [sample_ops] leaves the allocator. *)
Definition sample_final : state := default initial (run sample_ops initial).

Lemma pool_destroy_frees_the_free_list_witness :
  walk 50 (heap sample_final) (pool sample_final) = [1%nat; 0%nat] /\
  exists h,
    pop3_pool_destroy 50 sample_final = Swept h /\
    (forall a, h !! a
               = if bool_decide
                      (a ∈ walk 50 (heap sample_final) (pool sample_final))
                 then None else heap sample_final !! a) /\
    (pool sample_final <> None ->
     pop3_new 7 true {| heap := h; pool := pool sample_final;
                        pool_size := pool_size sample_final |} = None).
Proof.
  split; [vm_compute; reflexivity|].
  apply (pool_destroy_frees_the_free_list sample_ops sample_final 7 true).
  - vm_compute. reflexivity.
  - vm_compute. reflexivity.
Defined.

End PoolLife.


(* ===================================================================== *)
(** * pop3.c: RESPONSE, from the reply to the next request *)
(* ===================================================================== *)

Module ResponseFlow.
Import CStr Buffer Fsm Session.

(** [fd_interest], as in the transformation state. *)
Abbreviation fd_interest := ExtTransf.fd_interest.
Abbreviation OP_NOOP := ExtTransf.OP_NOOP.
Abbreviation OP_READ := ExtTransf.OP_READ.
Abbreviation OP_WRITE := ExtTransf.OP_WRITE.

Definition set_session_user (u : option bytes) (s : pop3_session)
  : pop3_session :=
  {| session_user := u; session_state := session_state s;
     concurrent_invalid_commands := concurrent_invalid_commands s;
     pipelining := pipelining s; request_queue := request_queue s |}.

Definition set_session_state (p : pop3_session_state) (s : pop3_session)
  : pop3_session :=
  {| session_user := session_user s; session_state := p;
     concurrent_invalid_commands := concurrent_invalid_commands s;
     pipelining := pipelining s; request_queue := request_queue s |}.

(** What [response_process] and [response_write] write of
    [struct response_st] and of the selector: the request whose
    response is being relayed, the staging buffer [wb] (the session's
    [super_buffer]), and the interests of the client and of the origin
    socket.  What the response parser found out is an argument of the
    two functions: [status_ok] for
    [request->response->status == response_status_ok], [done] for
    [response_parser.state == response_done]. *)
Record response_st := mk_response_st {
  request : pop3_request;
  wb : buffer;
  client_interest : fd_interest;
  origin_interest : fd_interest;
}.

(** [set_request(d, request)]; [abort()] on a NULL request is the
    [None] of [response_init]. *)
Definition set_request (r : pop3_request) (d : response_st) : response_st :=
  mk_response_st r (wb d) (client_interest d) (origin_interest d).

Definition with_interests (ci oi : fd_interest) (d : response_st)
  : response_st :=
  mk_response_st (request d) (wb d) ci oi.

Definition with_wb (b : buffer) (d : response_st) : response_st :=
  mk_response_st (request d) b (client_interest d) (origin_interest d).

(** [response_init]: a request is taken from the queue and bound.
    [None]: the queue is empty, [set_request] aborts. *)
Definition response_init (s : pop3_session) (d : response_st)
  : option (pop3_session * response_st) :=
  match request_queue s with
  | r :: q => Some (set_request_queue q s, set_request r d)
  | [] => None
  end.

(** [response_process(key, d)]; [key] is the client's.  [ss]: the
    interest changes succeed. *)
Definition response_process (ss status_ok : bool) (s : pop3_session)
    (d : response_st) : pop3_state * pop3_session * response_st :=
  match cmd (request d) with
  | quit =>
      (DONE, set_session_state POP3_UPDATE s,
       with_interests OP_NOOP (origin_interest d) d)
  | c =>
      let s :=
        match c with
        | user => set_session_user (args (request d)) s
        | pass => if status_ok then set_session_state POP3_TRANSACTION s
                  else s
        | _ => s
        end in
      match request_queue s with
      | r :: q =>
          if pipelining s then
            (if ss then RESPONSE else ERROR,
             set_request_queue q s,
             with_interests OP_NOOP OP_READ (set_request r d))
          else
            (if ss then REQUEST else ERROR, s,
             with_interests OP_NOOP OP_WRITE d)
      | [] =>
          (if ss then REQUEST else ERROR, s,
           with_interests OP_READ OP_NOOP d)
      end
  end.

Definition is_retr (d : response_st) : bool :=
  match cmd (request d) with retr => true | _ => false end.

(** [response_write(key)]: [o] is what the client socket answers to
    [send].  The result carries the state answered, the two metrics
    [retrieved_messages] and [transferred_bytes], and the bytes put on
    the client socket.  [None]: a buffer assertion fails. *)
Definition response_write (o : outgoing) (ss status_ok done : bool)
    (s : pop3_session) (d : response_st) (rm tb : Z)
  : option (pop3_state * pop3_session * response_st * Z * Z * bytes) :=
  let '(ptr, count) := buffer_read_ptr (wb d) in
  let '(n, put) := send o (take count (drop ptr (data (wb d)))) in
  if (n =? -1)%Z then Some (ERROR, s, d, rm, tb, [])
  else
    b ← buffer_read_adv (wb d) n;
    let d := with_wb b d in
    if negb (buffer_can_read b) then
      if negb done then
        let tb := if is_retr d then (tb + n)%Z else tb in
        Some (if ss then RESPONSE else ERROR, s,
              with_interests OP_NOOP OP_READ d, rm, tb, put)
      else
        let rm := if is_retr d then Metrics.uint (rm + 1) else rm in
        let '(st, s, d) := response_process ss status_ok s d in
        Some (st, s, d, rm, tb, put)
    else Some (RESPONSE, s, d, rm, tb, put).

(** ** A pipeline of responses *)

Definition is_quit (r : pop3_request) : bool :=
  match cmd r with quit => true | _ => false end.

(** The requests of a list up to and including its first QUIT. *)
Fixpoint until_quit (l : list pop3_request) : list pop3_request :=
  match l with
  | [] => []
  | r :: l' => if is_quit r then [r] else r :: until_quit l'
  end.

(** The successive [response_process] calls of a session, one per
    response relayed in full ([oks]: the status of each), for as long
    as they answer RESPONSE: the state and the session reached, and
    the requests whose responses were relayed, in order. *)
Fixpoint relay (oks : list bool) (s : pop3_session) (d : response_st)
  : pop3_state * pop3_session * response_st * list pop3_request :=
  match oks with
  | [] => (RESPONSE, s, d, [])
  | ok :: oks' =>
      let '(st, s', d') := response_process true ok s d in
      match st with
      | RESPONSE =>
          let '(st'', s'', d'', l) := relay oks' s' d' in
          (st'', s'', d'', request d :: l)
      | _ => (st, s', d', [request d])
      end
  end.

(** ** Facts *)

Lemma response_process_keeps_pipelining ss ok s d :
  pipelining (snd (fst (response_process ss ok s d))) = pipelining s.
Proof.
  unfold response_process.
  destruct (cmd (request d)); cbn [fst snd];
    try destruct ok;
    repeat match goal with
           | |- context [match request_queue ?x with _ => _ end] =>
               destruct (request_queue x)
           | |- context [if pipelining ?x then _ else _] =>
               destruct (pipelining x) eqn:?
           end; cbn; try reflexivity; try assumption.
Qed.

Lemma response_process_pipelined (ok : bool) (s : pop3_session)
    (d : response_st) :
  is_quit (request d) = false -> pipelining s = true ->
  match request_queue s with
  | r :: q =>
      exists s' d',
        response_process true ok s d = (RESPONSE, s', d') /\
        request d' = r /\ request_queue s' = q /\ pipelining s' = true
  | [] =>
      exists s' d',
        response_process true ok s d = (REQUEST, s', d') /\
        request_queue s' = [] /\
        client_interest d' = OP_READ /\ origin_interest d' = OP_NOOP
  end.
Proof.
  intros Hq Hp. unfold is_quit in Hq. unfold response_process.
  destruct (cmd (request d)); try discriminate; try destruct ok;
    cbn [request_queue pipelining set_session_user set_session_state];
    rewrite ?Hp;
    destruct (request_queue s) as [|r q] eqn:Eq;
    eexists _, _; (split; [reflexivity|]); cbn; rewrite ?Eq; auto.
Qed.

Lemma response_process_quit (ss ok : bool) (s : pop3_session)
    (d : response_st) :
  is_quit (request d) = true ->
  exists s' d',
    response_process ss ok s d = (DONE, s', d') /\
    request_queue s' = request_queue s /\
    session_state s' = POP3_UPDATE.
Proof.
  intros Hq. unfold is_quit in Hq. unfold response_process.
  destruct (cmd (request d)); try discriminate.
  eexists _, _. split; [reflexivity|]. split; reflexivity.
Qed.

(** X18, [response_process] over a pipeline: with the origin
    pipelining, the responses relayed one after the other are those of
    the request in hand and then of the queued requests, in queue
    order, each call taking the next request from the head of the
    queue.  The first QUIT among them ends the session in DONE with the
    requests behind it still queued; without a QUIT the queue empties
    and the machine goes back to REQUEST with the client armed for
    reading and the origin idle. *)
Theorem pipelined_responses_follow_the_queue (oks : list bool) :
  forall (s : pop3_session) (d : response_st),
  pipelining s = true ->
  (length (request_queue s) < length oks)%nat ->
  let reqs := request d :: request_queue s in
  let '(st, s', d', relayed) := relay oks s d in
  relayed = until_quit reqs /\
  st = (if existsb is_quit reqs then DONE else REQUEST) /\
  request_queue s' = drop (length relayed - 1) (request_queue s) /\
  (st = REQUEST -> request_queue s' = [] /\
                   client_interest d' = OP_READ /\
                   origin_interest d' = OP_NOOP).
Proof.
  induction oks as [|ok oks IH]; intros s d Hp Hl; cbn [length] in Hl; [lia|].
  cbv zeta. cbn [relay until_quit existsb].
  destruct (is_quit (request d)) eqn:Eq.
  - destruct (response_process_quit true ok s d Eq) as (s' & d' & -> & Hq & _).
    cbn [orb length Nat.sub drop]. rewrite Hq.
    split; [reflexivity|]. split; [reflexivity|]. split; [reflexivity|].
    discriminate.
  - pose proof (response_process_pipelined ok s d Eq Hp) as Hstep.
    destruct (request_queue s) as [|r q] eqn:Eqs.
    + destruct Hstep as (s' & d' & -> & Hq' & Hci & Hoi).
      cbn [until_quit existsb orb length Nat.sub drop].
      rewrite Hq'. repeat split; auto.
    + destruct Hstep as (s' & d' & -> & Hr & Hq' & Hp').
      specialize (IH s' d' Hp'). rewrite Hq', Hr in IH.
      cbn [length] in Hl. specialize (IH ltac:(lia)). cbv zeta in IH.
      destruct (relay oks s' d') as [[[st'' s''] d''] l].
      destruct IH as (Hl' & Hst & Hqq & Hreq).
      cbn [orb]. split; [rewrite Hl'; reflexivity|].
      split; [exact Hst|]. split; [|exact Hreq].
      rewrite Hqq. cbn [length Nat.sub].
      rewrite Nat.sub_0_r.
      assert (length l <> 0)%nat as Hne.
      { rewrite Hl'. cbn [until_quit]. destruct (is_quit r); discriminate. }
      destruct (length l) as [|k] eqn:El; [contradiction|].
      cbn [Nat.sub drop]. rewrite Nat.sub_0_r. reflexivity.
Qed.

Lemma take_rest {A} (m : nat) (l : list A) :
  take m l ++ drop (length (take m l)) l = l.
Proof.
  rewrite length_take. destruct (Nat.le_gt_cases m (length l)).
  - rewrite Nat.min_l by lia. apply take_drop.
  - rewrite Nat.min_r by lia. rewrite take_ge, drop_ge by lia.
    apply app_nil_r.
Qed.

Lemma can_read_readable (b : buffer) :
  (write b <= limit b)%nat ->
  buffer_can_read b = false -> readable b = [].
Proof.
  intros Hl Hc. unfold buffer_can_read in Hc. apply Nat.ltb_ge in Hc.
  unfold readable. replace (write b - read b)%nat with 0%nat by lia.
  reflexivity.
Qed.

Lemma can_read_nonempty (b : buffer) :
  (write b <= limit b)%nat ->
  buffer_can_read b = true -> readable b <> [].
Proof.
  intros Hl Hc. unfold buffer_can_read in Hc. apply Nat.ltb_lt in Hc.
  intros He. apply (f_equal (@length ascii)) in He. revert He.
  unfold readable, limit in *. rewrite length_take, length_drop. simpl. lia.
Qed.

(** X19, [response_write]: what goes to the client is a prefix of the
    staged bytes and the buffer keeps the rest; a failed [send] answers
    ERROR and sends nothing.  [transferred_bytes] never grows by more
    than what was sent, and grows only when the call empties the buffer
    of a RETR reply that is not complete; [retrieved_messages] changes
    only when the call empties the buffer of a complete RETR reply.  A
    call that leaves bytes in the buffer changes neither the session
    nor the request in hand. *)
Theorem response_write_counts_only_flushes
    (o : outgoing) (ss status_ok done : bool) (s : pop3_session)
    (d : response_st) (rm tb : Z) :
  (read (wb d) <= write (wb d) <= limit (wb d))%nat ->
  exists st s' d' rm' tb' put,
    response_write o ss status_ok done s d rm tb
      = Some (st, s', d', rm', tb', put) /\
    readable (wb d) = put ++ readable (wb d') /\
    (o = SendError -> st = ERROR /\ put = []) /\
    (tb <= tb' <= tb + Z.of_nat (length put))%Z /\
    (tb' <> tb ->
     is_retr d = true /\ done = false /\ readable (wb d') = []) /\
    (rm' <> rm ->
     is_retr d = true /\ done = true /\ readable (wb d') = []) /\
    (readable (wb d') <> [] -> s' = s /\ request d' = request d).
Proof.
  intros [Hr Hl]. unfold response_write, buffer_read_ptr.
  change (take (write (wb d) - read (wb d)) (drop (read (wb d)) (data (wb d))))
    with (readable (wb d)).
  assert (length (readable (wb d)) = (write (wb d) - read (wb d))%nat) as Hlen
    by (unfold readable, limit in *; rewrite length_take, length_drop; lia).
  destruct o as [|k]; cbn [send].
  - change (-1 =? -1)%Z with true. cbv iota.
    eexists _, _, _, _, _, _. split; [reflexivity|].
    cbn [app length]. repeat split; try reflexivity; try lia;
      intros; contradiction.
  - set (put := take k (readable (wb d))).
    assert (length put <= write (wb d) - read (wb d))%nat as Hput
      by (subst put; rewrite length_take; lia).
    assert ((Z.of_nat (length put) =? -1)%Z = false) as ->
      by (apply Z.eqb_neq; lia).
    cbv iota.
    rewrite read_adv_some by (rewrite ?Nat2Z.id; lia).
    cbn [mbind option_bind].
    set (b := if (read (wb d) + Z.to_nat (Z.of_nat (length put)) =? write (wb d))%nat
              then buffer_reset (wb d)
              else {| data := data (wb d);
                      read := read (wb d) + Z.to_nat (Z.of_nat (length put));
                      write := write (wb d) |}).
    assert (readable b = drop (length put) (readable (wb d))) as Hrest.
    { apply (readable_read_adv (wb d) b (length put)); [lia|].
      apply read_adv_some; rewrite ?Nat2Z.id; lia. }
    assert (readable (wb d) = put ++ readable b) as Hsplit
      by (rewrite Hrest; symmetry; apply take_rest).
    assert (write b <= limit b)%nat as Hlb.
    { subst b. destruct (_ =? _)%nat; unfold limit in *; cbn; lia. }
    destruct (buffer_can_read b) eqn:Ec; cbn [negb].
    + pose proof (can_read_nonempty b Hlb Ec) as Hne.
      eexists _, _, _, _, _, _. split; [reflexivity|].
      cbn [wb with_wb request].
      split; [exact Hsplit|]. split; [discriminate|].
      split; [lia|]. split; [intros H; contradiction|].
      split; [intros H; contradiction|]. auto.
    + pose proof (can_read_readable b Hlb Ec) as He.
      destruct done; cbn [negb].
      * destruct (response_process ss status_ok s (with_wb b d))
          as [[st s'] d'] eqn:Ep.
        assert (wb d' = b) as Hwb.
        { revert Ep. unfold response_process.
          repeat match goal with
                 | |- context [match ?x with _ => _ end] => destruct x
                 end; intros [= <- <- <-]; reflexivity. }
        eexists _, _, _, _, _, _. split; [reflexivity|].
        rewrite Hwb. split; [exact Hsplit|]. split; [discriminate|].
        split; [lia|]. split; [intros H; contradiction|].
        split.
        -- change (is_retr (with_wb b d)) with (is_retr d).
           destruct (is_retr d); [auto | intros H; contradiction].
        -- intros H; contradiction.
      * eexists _, _, _, _, _, _. split; [reflexivity|].
        cbn [wb with_wb with_interests request].
        split; [exact Hsplit|]. split; [discriminate|].
        change (is_retr (with_wb b d)) with (is_retr d).
        destruct (is_retr d).
        -- split; [lia|]. split; [auto|].
           split; [intros H; contradiction | intros H; contradiction].
        -- split; [lia|]. split; [intros H; contradiction|].
           split; [intros H; contradiction | intros H; contradiction].
Qed.

(** Three commands sent in one go to an origin that pipelines; the
    second is QUIT. *)
Definition sample_pipeline : pop3_session * response_st :=
  ({| session_user := None; session_state := POP3_AUTHORIZATION;
      concurrent_invalid_commands := 0; pipelining := true;
      request_queue := [mk_request quit None; mk_request stat None] |},
   mk_response_st (mk_request noop None) (buffer_init 8) OP_NOOP OP_NOOP).

Lemma pipelined_responses_follow_the_queue_witness :
  snd (relay [true; true; true] (fst sample_pipeline) (snd sample_pipeline))
    = [mk_request noop None; mk_request quit None] /\
  let '(st, s', d', relayed) :=
    relay [true; true; true] (fst sample_pipeline) (snd sample_pipeline) in
  relayed = until_quit (request (snd sample_pipeline)
                          :: request_queue (fst sample_pipeline)) /\
  st = (if existsb is_quit (request (snd sample_pipeline)
                              :: request_queue (fst sample_pipeline))
        then DONE else REQUEST) /\
  request_queue s'
    = drop (length relayed - 1) (request_queue (fst sample_pipeline)) /\
  (st = REQUEST -> request_queue s' = [] /\
                   client_interest d' = OP_READ /\
                   origin_interest d' = OP_NOOP).
Proof.
  split; [reflexivity|].
  apply (pipelined_responses_follow_the_queue [true; true; true]
           (fst sample_pipeline) (snd sample_pipeline)).
  - reflexivity.
  - simpl. lia.
Defined.

(** A RETR reply of twelve bytes in the staging buffer. *)
Definition sample_reply : response_st :=
  mk_response_st (mk_request retr (Some (lit "1")))
    (mk_buffer (lit "+OK 120 oct" ++ [LF] ++ replicate 4 NUL) 0 12)
    OP_WRITE OP_NOOP.

Lemma response_write_counts_only_flushes_witness :
  exists st s' d' rm' tb' put,
    response_write (SendAccepts 5) true true false (fst sample_pipeline)
      sample_reply 0 0
      = Some (st, s', d', rm', tb', put) /\
    readable (wb sample_reply) = put ++ readable (wb d') /\
    (SendAccepts 5 = SendError -> st = ERROR /\ put = []) /\
    (0 <= tb' <= 0 + Z.of_nat (length put))%Z /\
    (tb' <> 0%Z ->
     is_retr sample_reply = true /\ false = false /\ readable (wb d') = []) /\
    (rm' <> 0%Z ->
     is_retr sample_reply = true /\ false = true /\ readable (wb d') = []) /\
    (readable (wb d') <> [] ->
     s' = fst sample_pipeline /\ request d' = request sample_reply).
Proof.
  apply (response_write_counts_only_flushes (SendAccepts 5) true true false
           (fst sample_pipeline) sample_reply 0 0).
  vm_compute. lia.
Defined.

End ResponseFlow.


(* ===================================================================== *)
(** * pop3.c: REQUEST, from the queue to the origin *)
(* ===================================================================== *)

Module RequestFlow.
Import CStr Buffer Fsm Session.

Section WithMarshall.
(** [request_marshall(r, b)] belongs to request.c, which is not part of
    the sources: the buffer it leaves, and whether its result is other
    than -1. *)
Variable request_marshall : pop3_request -> buffer -> buffer * bool.

(** Modelled from the spec: the loop over [queue_get_next] marshals the
    entire queue, in order, and stops at the first request that does
    not fit. *)
Fixpoint marshall_all (q : list pop3_request) (b : buffer) : buffer * bool :=
  match q with
  | [] => (b, true)
  | r :: q' =>
      let '(b', fits) := request_marshall r b in
      if fits then marshall_all q' b' else (b', false)
  end.

(** [request_write(key)]: [o] is what the origin socket answers to
    [send], [ss] whether the interest change succeeds.  The queue is
    read, not changed.  The result carries the state answered, the
    buffer and the bytes put on the origin socket.  [None]: a buffer
    assertion fails. *)
Definition request_write (o : outgoing) (ss : bool) (s : pop3_session)
    (b : buffer) : option (pop3_state * buffer * bytes) :=
  let marshalled :=
    if negb (pipelining s) then
      match request_queue s with
      | [] => (ERROR, b, false)
      | r :: _ =>
          let '(b', fits) := request_marshall r b in
          (if fits then REQUEST else ERROR, b', true)
      end
    else
      let '(b', fits) := marshall_all (request_queue s) b in
      (REQUEST, b', fits) in
  let '(ret, b, goes_on) := marshalled in
  if negb goes_on then Some (ERROR, b, [])
  else
    let '(ptr, count) := buffer_read_ptr b in
    let '(n, put) := send o (take count (drop ptr (data b))) in
    if (n =? -1)%Z then Some (ERROR, b, [])
    else
      b ← buffer_read_adv b n;
      if negb (buffer_can_read b) then
        Some (if ss then RESPONSE else ERROR, b, put)
      else Some (ret, b, put).

End WithMarshall.

Section MarshallFacts.
Variable request_marshall : pop3_request -> buffer -> buffer * bool.

(** What the theorems below ask of [request_marshall]: with room in
    the buffer, the text of the request is appended to it. *)
Definition appends (text : pop3_request -> bytes) : Prop :=
  forall r b,
    (write b + length (text r) <= limit b)%nat ->
    request_marshall r b = (EtHandlers.received b (text r), true).

(** X20, [request_write] without pipelining: the request at the head
    of the queue is marshalled on every call, also on a call that only
    has the rest of an earlier [send] to finish.  So when the origin
    socket takes a part of the request only, the next call appends the
    request once more, and the origin receives the rest of the first
    copy followed by a second copy before the machine moves on to
    RESPONSE. *)
Theorem partial_send_repeats_the_request
    (text : pop3_request -> bytes) (s : pop3_session)
    (r : pop3_request) (q : list pop3_request) (b : buffer) (k : nat) :
  appends text ->
  pipelining s = false ->
  request_queue s = r :: q ->
  read b = 0%nat -> write b = 0%nat ->
  (2 * length (text r) <= limit b)%nat ->
  (0 < k < length (text r))%nat ->
  exists b1 b2,
    request_write request_marshall (SendAccepts k) true s b
      = Some (REQUEST, b1, take k (text r)) /\
    request_write request_marshall
      (SendAccepts (2 * length (text r))) true s b1
      = Some (RESPONSE, b2, drop k (text r) ++ text r) /\
    readable b2 = [].
Proof.
  intros Happ Hp Hq Hr0 Hw0 Hlim Hk.
  set (t := text r) in *.
  assert (readable b = []) as Hv0
    by (unfold readable; rewrite Hr0, Hw0; reflexivity).
  (* first call *)
  set (b' := EtHandlers.received b t).
  assert (read b' = 0%nat) as Hr' by exact Hr0.
  assert (write b' = length t) as Hw'
    by (unfold b', EtHandlers.received; cbn [write]; rewrite Hw0; reflexivity).
  assert (limit b' = limit b) as Hl'.
  { unfold b', EtHandlers.received, EtHandlers.landed, limit. cbn [data].
    unfold limit in Hlim.
    rewrite !length_app, length_take, length_drop. lia. }
  assert (readable b' = t) as Hv'.
  { unfold b'. rewrite EtHandlers.readable_received by lia.
    rewrite Hv0. reflexivity. }
  set (b1 := {| data := data b'; read := k; write := length t |}).
  assert (request_write request_marshall (SendAccepts k) true s b
          = Some (REQUEST, b1, take k t)) as H1.
  { unfold request_write. rewrite Hp, Hq. cbn [negb].
    rewrite (Happ r b) by (fold t; lia). fold t. fold b'.
    cbv beta iota zeta. cbn [negb].
    unfold buffer_read_ptr. rewrite EtHandlers.view_is_readable, Hv'.
    cbn [send]. rewrite length_take, Nat.min_l by lia.
    assert ((Z.of_nat k =? -1)%Z = false) as -> by (apply Z.eqb_neq; lia).
    rewrite read_adv_some by (rewrite ?Nat2Z.id, ?Hr', ?Hw'; lia).
    rewrite Hr', Hw', Nat2Z.id. cbn [Nat.add mbind option_bind].
    assert ((k =? length t)%nat = false) as -> by (apply Nat.eqb_neq; lia).
    fold b1. unfold buffer_can_read. cbn [read write b1].
    assert ((k <? length t)%nat = true) as -> by (apply Nat.ltb_lt; lia).
    reflexivity. }
  (* second call *)
  assert (limit b1 = limit b) as Hl1 by exact Hl'.
  assert (readable b1 = drop k t) as Hv1.
  { assert (t = take (length t) (data b')) as Ht.
    { rewrite <- Hv' at 1. unfold readable.
      rewrite Hr', Hw', drop_0, Nat.sub_0_r. reflexivity. }
    unfold readable. cbn [read write data b1].
    rewrite take_drop_commute.
    replace (k + (length t - k))%nat with (length t) by lia.
    rewrite <- Ht. reflexivity. }
  set (b'' := EtHandlers.received b1 t).
  assert (read b'' = k) as Hr'' by reflexivity.
  assert (write b'' = (length t + length t)%nat) as Hw'' by reflexivity.
  assert (readable b'' = drop k t ++ t) as Hv''.
  { unfold b''. rewrite EtHandlers.readable_received
      by (cbn [read write b1]; rewrite ?Hl1; lia).
    rewrite Hv1. reflexivity. }
  exists b1, (buffer_reset b''). split; [exact H1|]. split; [|reflexivity].
  unfold request_write. rewrite Hp, Hq. cbn [negb].
  rewrite (Happ r b1) by (fold t; cbn [write b1]; rewrite Hl1; lia).
  fold t. fold b''. cbv beta iota zeta. cbn [negb].
  unfold buffer_read_ptr. rewrite EtHandlers.view_is_readable, Hv''.
  cbn [send].
  assert (length (drop k t ++ t) = (length t - k + length t)%nat) as Hlen
    by (rewrite length_app, length_drop; reflexivity).
  rewrite take_ge by (rewrite Hlen; lia). rewrite Hlen.
  assert ((Z.of_nat (length t - k + length t) =? -1)%Z = false) as ->
    by (apply Z.eqb_neq; lia).
  rewrite read_adv_some by (rewrite ?Nat2Z.id, ?Hr'', ?Hw''; lia).
  rewrite Hr'', Hw'', Nat2Z.id. cbn [mbind option_bind].
  assert ((k + (length t - k + length t) =? length t + length t)%nat = true)
    as -> by (apply Nat.eqb_eq; lia).
  reflexivity.
Qed.

(** X21, [request_write] then [response_init], without pipelining:
    when the origin socket takes the whole request, what it receives is
    the text of the request at the head of the queue and nothing else,
    the buffer is empty and the machine moves to RESPONSE, where
    [response_init] takes that very request off the queue and binds it
    to the response. *)
Theorem request_sent_is_request_bound
    (text : pop3_request -> bytes) (s : pop3_session)
    (r : pop3_request) (q : list pop3_request) (b : buffer) (k : nat)
    (d : ResponseFlow.response_st) :
  appends text ->
  pipelining s = false ->
  request_queue s = r :: q ->
  read b = 0%nat -> write b = 0%nat ->
  (length (text r) <= limit b)%nat ->
  (0 < length (text r) <= k)%nat ->
  exists b1 s1 d1,
    request_write request_marshall (SendAccepts k) true s b
      = Some (RESPONSE, b1, text r) /\
    readable b1 = [] /\
    ResponseFlow.response_init s d = Some (s1, d1) /\
    ResponseFlow.request d1 = r /\ request_queue s1 = q.
Proof.
  intros Happ Hp Hq Hr0 Hw0 Hlim Hk.
  set (t := text r) in *.
  assert (readable b = []) as Hv0
    by (unfold readable; rewrite Hr0, Hw0; reflexivity).
  set (b' := EtHandlers.received b t).
  assert (read b' = 0%nat) as Hr' by exact Hr0.
  assert (write b' = length t) as Hw'
    by (unfold b', EtHandlers.received; cbn [write]; rewrite Hw0; reflexivity).
  assert (readable b' = t) as Hv'.
  { unfold b'. rewrite EtHandlers.readable_received by lia.
    rewrite Hv0. reflexivity. }
  exists (buffer_reset b'). eexists _, _. split; [|split; [reflexivity|]].
  - unfold request_write. rewrite Hp, Hq. cbn [negb].
    rewrite (Happ r b) by (fold t; lia). fold t. fold b'.
    cbv beta iota zeta. cbn [negb].
    unfold buffer_read_ptr. rewrite EtHandlers.view_is_readable, Hv'.
    cbn [send]. rewrite take_ge by lia.
    assert ((Z.of_nat (length t) =? -1)%Z = false) as ->
      by (apply Z.eqb_neq; lia).
    rewrite read_adv_some by (rewrite ?Nat2Z.id, ?Hr', ?Hw'; lia).
    rewrite Hr', Hw', Nat2Z.id. cbn [Nat.add mbind option_bind].
    rewrite Nat.eqb_refl. reflexivity.
  - unfold ResponseFlow.response_init. rewrite Hq.
    split; [reflexivity|]. split; reflexivity.
Qed.

End MarshallFacts.

(** ** A sample marshaller *)

Definition verb (c : pop3_cmd_id) : bytes :=
  match c with
  | user => lit "USER" | pass => lit "PASS" | capa => lit "CAPA"
  | stat => lit "STAT" | list_ => lit "LIST" | retr => lit "RETR"
  | dele => lit "DELE" | noop => lit "NOOP" | rset => lit "RSET"
  | top => lit "TOP" | uidl => lit "UIDL" | quit => lit "QUIT"
  | unknown => []
  end.

(** The line of a request; a stand-in for request.c in the examples. *)
Definition sample_text (r : pop3_request) : bytes :=
  verb (cmd r)
  ++ match args r with Some a => lit " " ++ a | None => [] end ++ CRLF.

Definition sample_marshall (r : pop3_request) (b : buffer) : buffer * bool :=
  if (write b + length (sample_text r) <=? limit b)%nat
  then (EtHandlers.received b (sample_text r), true)
  else (b, false).

Lemma sample_marshall_appends : appends sample_marshall sample_text.
Proof.
  intros r b Hl. unfold sample_marshall.
  apply Nat.leb_le in Hl. rewrite Hl. reflexivity.
Qed.

(** One RETR waiting for an origin that does not pipeline. *)
Definition sample_waiting : pop3_session :=
  {| session_user := None; session_state := POP3_TRANSACTION;
     concurrent_invalid_commands := 0; pipelining := false;
     request_queue := [mk_request retr (Some (lit "1"))] |}.

Lemma partial_send_repeats_the_request_witness :
  exists b1 b2,
    request_write sample_marshall (SendAccepts 3) true sample_waiting
      (buffer_init 32)
      = Some (REQUEST, b1, lit "RET") /\
    request_write sample_marshall (SendAccepts 16) true sample_waiting b1
      = Some (RESPONSE, b2, lit "R 1" ++ CRLF ++ lit "RETR 1" ++ CRLF) /\
    readable b2 = [].
Proof.
  apply (partial_send_repeats_the_request sample_marshall sample_text
           sample_waiting (mk_request retr (Some (lit "1"))) []
           (buffer_init 32) 3).
  - exact sample_marshall_appends.
  - reflexivity.
  - reflexivity.
  - reflexivity.
  - reflexivity.
  - vm_compute. lia.
  - vm_compute. lia.
Defined.

Lemma request_sent_is_request_bound_witness :
  exists b1 s1 d1,
    request_write sample_marshall (SendAccepts 64) true sample_waiting
      (buffer_init 32)
      = Some (RESPONSE, b1, lit "RETR 1" ++ CRLF) /\
    readable b1 = [] /\
    ResponseFlow.response_init sample_waiting ResponseFlow.sample_reply
      = Some (s1, d1) /\
    ResponseFlow.request d1 = mk_request retr (Some (lit "1")) /\
    request_queue s1 = [].
Proof.
  apply (request_sent_is_request_bound sample_marshall sample_text
           sample_waiting (mk_request retr (Some (lit "1"))) []
           (buffer_init 32) 64).
  - exact sample_marshall_appends.
  - reflexivity.
  - reflexivity.
  - reflexivity.
  - reflexivity.
  - vm_compute. lia.
  - vm_compute. lia.
Defined.

End RequestFlow.


(* ===================================================================== *)
(** * pop3.c: the read handlers of REQUEST and RESPONSE *)
(* ===================================================================== *)

Module Reads.
Import CStr Buffer Fsm Mem Session Capa.

Abbreviation fd_interest := ExtTransf.fd_interest.
Abbreviation OP_NOOP := ExtTransf.OP_NOOP.
Abbreviation OP_READ := ExtTransf.OP_READ.
Abbreviation OP_WRITE := ExtTransf.OP_WRITE.

Section WithResponseParser.
(** The response parser (response_parser.c) is not part of the
    sources.  [response_consume] receives and answers the flag behind
    [&error] besides the two buffers, the parser and the heap;
    [is_response_mail st] stands for [st == response_mail]. *)
Context {I : Type} {response_state : Type}.
Variable response_consume :
  buffer -> buffer -> response_parser I -> mem -> bool ->
  response_state * buffer * buffer * response_parser I * mem * bool.
Variable response_is_done : response_state -> bool.
Variable is_response_mail : response_state -> bool.

(** The end of [response_read], from the interest changes on. *)
Definition response_read_end (st : response_state) (d : response_st I)
    (m : mem) (error ss : bool)
  : option (pop3_state * response_st I * mem * fd_interest * fd_interest) :=
  let ret := if ss then RESPONSE else ERROR in
  '(d, m) ←
    (if pop3_state_eqb ret RESPONSE && response_is_done st then
       match cmd (request d) with
       | capa =>
           '(_, d, m) ← Response.response_process_capa d m; Some (d, m)
       | _ => Some (d, m)
       end
     else Some (d, m));
  Some (if error then ERROR else ret, d, m, OP_WRITE, OP_NOOP).

(** [response_read(key)]; [key] is the origin's.  [ci], [oi]: the
    interests of the client and of the origin socket; [i]: what the
    origin offers; [status_ok]: the response read so far is [+OK];
    [et_activated], [has_filter]: [parameters->et_activated] and
    [parameters->filter_command != NULL]; [ss]: the interest changes
    succeed.  [None]: a buffer assertion fails or a store runs past an
    array. *)
Definition response_read (d : response_st I) (m : mem) (ci oi : fd_interest)
    (i : incoming) (status_ok et_activated has_filter ss : bool)
  : option (pop3_state * response_st I * mem * fd_interest * fd_interest) :=
  let b := rb d in
  let '(ptr, count) := buffer_write_ptr b in
  let '(n, got) := recv i count in
  if (0 <? n)%Z || buffer_can_read b then
    b ← Buffer.store b ptr got;
    b ← buffer_write_adv b n;
    let '(st, b, w, p, m, error) := response_consume b (wb d) (parser d) m false in
    if first_line_done p then
      let p := mk_parser false (capa_response p) (internal p) in
      if is_response_mail st && status_ok
         && match cmd (request d) with retr => true | _ => false end
         && et_activated && has_filter
      then
        Some (if ss then EXTERNAL_TRANSFORMATION else ERROR,
              mk_response_st b (drain w) (request d) p, m, ci, OP_NOOP)
      else
        let '(st, b, w, p, m, error) := response_consume b w p m error in
        response_read_end st (mk_response_st b w (request d) p) m error ss
    else
      response_read_end st (mk_response_st b w (request d) p) m error ss
  else
    Some (if (n =? -1)%Z then ERROR else RESPONSE, d, m, ci, oi).

End WithResponseParser.

Section WithRequestParser.
(** The request parser (request_parser.c) is not part of the sources:
    [request_consume] works on the buffer and the parser of the
    [request_st] and on the flag behind [&error]. *)
Variable request_consume : Request.request_st -> bool -> Request.request_st * bool.
Variable request_is_done : Request.request_state -> bool.

(** [request_read(key)]: [i] is what the client offers.  The result
    carries the lines sent to the client by [request_process]. *)
Definition request_read (s : pop3_session) (d : Request.request_st)
    (i : incoming) (alloc_ok ss : bool)
  : option (pop3_state * pop3_session * Request.request_st * list bytes) :=
  let b := Request.rb d in
  let '(ptr, count) := buffer_write_ptr b in
  let '(n, got) := recv i count in
  if (0 <? n)%Z || buffer_can_read b then
    b ← Buffer.store b ptr got;
    b ← buffer_write_adv b n;
    let '(d, error) :=
      request_consume
        (Request.mk_request_st b (Request.wb d) (Request.request d)
           (Request.parser_state d)) false in
    if request_is_done (Request.parser_state d) then
      Request.request_process s d alloc_ok ss
    else Some (REQUEST, s, d, [])
  else Some (ERROR, s, d, []).

End WithRequestParser.

(** ** Facts *)

Lemma readable_drain (b : buffer) : readable (drain b) = [].
Proof.
  destruct (Nat.le_gt_cases (read b) (write b)) as [H|H].
  - apply (drain_spec b H).
  - unfold drain. replace (write b - read b)%nat with 0%nat by lia.
    cbn [drain_loop]. unfold readable.
    replace (write b - read b)%nat with 0%nat by lia. reflexivity.
Qed.

Lemma recv_eof (count : nat) : recv (RecvBytes []) count = (0%Z, []).
Proof. unfold recv. rewrite take_nil. reflexivity. Qed.

Section ReadFacts.
Context {I : Type} {response_state : Type}.
Variable response_consume :
  buffer -> buffer -> response_parser I -> mem -> bool ->
  response_state * buffer * buffer * response_parser I * mem * bool.
Variable response_is_done : response_state -> bool.
Variable is_response_mail : response_state -> bool.
Variable capa_consume_twice :
  buffer -> buffer -> response_parser I -> mem ->
  response_state * buffer * buffer * response_parser I * mem * bool.
Variable request_consume : Request.request_st -> bool -> Request.request_st * bool.
Variable request_is_done : Request.request_state -> bool.

(** X22, the read handlers when [recv] returns 0 and nothing is
    buffered.  In HELLO and CAPA (the origin closes) and in REQUEST
    (the client closes) the handler answers ERROR and the session
    ends.  In RESPONSE and in EXTERNAL_TRANSFORMATION (the origin
    closes) the handler answers the state it is in and changes
    nothing: buffers, parser, heap and interests are as before, so the
    end of the stream is not acted upon. *)
Theorem end_of_stream_by_state
    {P : Type} (parser_feed : P -> ascii -> P * bool)
    (s : pop3_session) (dq : Request.request_st) (d : response_st I)
    (m : mem) (ci oi : fd_interest) (e : ExtTransf.pop3 P) (hb : buffer)
    (alloc_ok status_ok et_activated has_filter ss : bool) :
  buffer_can_read (Request.rb dq) = false ->
  buffer_can_read (rb d) = false ->
  match Hello.hello_read hb (RecvBytes []) ss with
  | Some (st, _) => st = ERROR
  | None => True
  end /\
  capa_read capa_consume_twice response_is_done s d m (RecvBytes []) ss
    = Some (ERROR, s, d, m) /\
  request_read request_consume request_is_done s dq (RecvBytes []) alloc_ok ss
    = Some (ERROR, s, dq, []) /\
  response_read response_consume response_is_done is_response_mail
    d m ci oi (RecvBytes []) status_ok et_activated has_filter ss
    = Some (RESPONSE, d, m, ci, oi) /\
  ExtTransf.external_transformation_read parser_feed e (RecvBytes [])
    = Some (EXTERNAL_TRANSFORMATION, e).
Proof.
  intros Hq Hr. repeat split.
  - unfold Hello.hello_read.
    destruct (buffer_write_ptr hb) as [ptr count].
    destruct (Buffer.store hb ptr _) as [b1|]; cbn [mbind option_bind]; [|exact Logic.I].
    destruct (buffer_write_adv b1 _) as [b2|]; cbn [mbind option_bind];
      [|exact Logic.I].
    destruct (buffer_write_ptr b2) as [ptr2 count2]. rewrite recv_eof.
    destruct (Buffer.store b2 ptr2 []) as [b3|]; cbn [mbind option_bind]; [|exact Logic.I].
    reflexivity.
  - unfold capa_read, capa_consume.
    destruct (buffer_write_ptr (rb d)) as [ptr count]. rewrite recv_eof.
    reflexivity.
  - unfold request_read.
    destruct (buffer_write_ptr (Request.rb dq)) as [ptr count].
    rewrite recv_eof, Hq. reflexivity.
  - unfold response_read.
    destruct (buffer_write_ptr (rb d)) as [ptr count].
    rewrite recv_eof, Hr. reflexivity.
  - unfold ExtTransf.external_transformation_read.
    destruct (buffer_write_ptr _) as [ptr count].
    rewrite recv_eof. reflexivity.
Qed.

Lemma response_read_end_state (st : response_state) (d : response_st I)
    (m : mem) (error ss : bool) :
  match response_read_end response_is_done st d m error ss with
  | Some (st', _, _, _, _) => st' = RESPONSE \/ st' = ERROR
  | None => True
  end.
Proof.
  unfold response_read_end.
  destruct (_ && _).
  - destruct (cmd (request d));
      try (cbn [mbind option_bind]; destruct error, ss; auto; fail).
    destruct (Response.response_process_capa d m) as [[[st' d'] m']|];
      cbn [mbind option_bind]; [|exact Logic.I].
    destruct error, ss; auto.
  - cbn [mbind option_bind]. destruct error, ss; auto.
Qed.

(** X23, [response_read]: it answers EXTERNAL_TRANSFORMATION, RESPONSE
    or ERROR.  It answers EXTERNAL_TRANSFORMATION only for a RETR whose
    response is [+OK], with [et_activated] set and a filter command
    configured, and when the interest changes succeed; the staging
    buffer is then empty (the status line of the origin is not
    forwarded), the request stays bound, the client's interest is left
    as it was and the origin is idle. *)
Theorem retr_is_diverted_only_when_filtering
    (d : response_st I) (m : mem) (ci oi : fd_interest) (i : incoming)
    (status_ok et_activated has_filter ss : bool) :
  match response_read response_consume response_is_done is_response_mail
          d m ci oi i status_ok et_activated has_filter ss with
  | Some (st, d', m', ci', oi') =>
      st = EXTERNAL_TRANSFORMATION \/ st = RESPONSE \/ st = ERROR
  | None => True
  end /\
  forall d' m' ci' oi',
    response_read response_consume response_is_done is_response_mail
      d m ci oi i status_ok et_activated has_filter ss
      = Some (EXTERNAL_TRANSFORMATION, d', m', ci', oi') ->
    cmd (request d) = retr /\ status_ok = true /\
    et_activated = true /\ has_filter = true /\ ss = true /\
    readable (wb d') = [] /\ request d' = request d /\
    first_line_done (parser d') = false /\
    ci' = ci /\ oi' = OP_NOOP.
Proof.
  unfold response_read.
  destruct (buffer_write_ptr (rb d)) as [ptr count].
  destruct (recv i count) as [n got].
  destruct (_ || _).
  2: { split; [destruct (n =? -1)%Z; auto|].
       intros d' m' ci' oi'. destruct (n =? -1)%Z; discriminate. }
  destruct (Buffer.store (rb d) ptr got) as [b1|]; cbn [mbind option_bind];
    [|split; [exact Logic.I | discriminate]].
  destruct (buffer_write_adv b1 n) as [b2|]; cbn [mbind option_bind];
    [|split; [exact Logic.I | discriminate]].
  destruct (response_consume b2 (wb d) (parser d) m false)
    as [[[[[st1 b3] w1] p1] m1] e1].
  destruct (first_line_done p1).
  - destruct (is_response_mail st1); cbn [andb].
    2: { destruct (response_consume b3 w1 _ m1 e1)
           as [[[[[st2 b4] w2] p2] m2] e2].
         pose proof (response_read_end_state st2
                       (mk_response_st b4 w2 (request d) p2) m2 e2 ss) as He.
         destruct (response_read_end _ _ _ _ _ _) as [[[[[st' d1] m3] c1] o1]|].
         - split; [destruct He; auto|].
           intros d' m' ci' oi' [= -> _ _ _ _]. destruct He; discriminate.
         - split; [exact Logic.I | discriminate]. }
    destruct status_ok; cbn [andb].
    2: { destruct (response_consume b3 w1 _ m1 e1)
           as [[[[[st2 b4] w2] p2] m2] e2].
         pose proof (response_read_end_state st2
                       (mk_response_st b4 w2 (request d) p2) m2 e2 ss) as He.
         destruct (response_read_end _ _ _ _ _ _) as [[[[[st' d1] m3] c1] o1]|].
         - split; [destruct He; auto|].
           intros d' m' ci' oi' [= -> _ _ _ _]. destruct He; discriminate.
         - split; [exact Logic.I | discriminate]. }
    destruct (cmd (request d)) eqn:Ec; cbn [andb];
      try (destruct (response_consume b3 w1 _ m1 e1)
             as [[[[[st2 b4] w2] p2] m2] e2];
           pose proof (response_read_end_state st2
                         (mk_response_st b4 w2 (request d) p2) m2 e2 ss) as He;
           destruct (response_read_end _ _ _ _ _ _)
             as [[[[[st' d1] m3] c1] o1]|];
           [split; [destruct He; auto|];
            intros d' m' ci' oi' [= -> _ _ _ _]; destruct He; discriminate
           |split; [exact Logic.I | discriminate]]).
    destruct et_activated; cbn [andb].
    2: { destruct (response_consume b3 w1 _ m1 e1)
           as [[[[[st2 b4] w2] p2] m2] e2].
         pose proof (response_read_end_state st2
                       (mk_response_st b4 w2 (request d) p2) m2 e2 ss) as He.
         destruct (response_read_end _ _ _ _ _ _) as [[[[[st' d1] m3] c1] o1]|].
         - split; [destruct He; auto|].
           intros d' m' ci' oi' [= -> _ _ _ _]. destruct He; discriminate.
         - split; [exact Logic.I | discriminate]. }
    destruct has_filter.
    2: { destruct (response_consume b3 w1 _ m1 e1)
           as [[[[[st2 b4] w2] p2] m2] e2].
         pose proof (response_read_end_state st2
                       (mk_response_st b4 w2 (request d) p2) m2 e2 ss) as He.
         destruct (response_read_end _ _ _ _ _ _) as [[[[[st' d1] m3] c1] o1]|].
         - split; [destruct He; auto|].
           intros d' m' ci' oi' [= -> _ _ _ _]. destruct He; discriminate.
         - split; [exact Logic.I | discriminate]. }
    split; [destruct ss; auto|].
    intros d' m' ci' oi'. destruct ss; [|discriminate].
    intros [= <- <- <- <-]. cbn [wb request parser first_line_done].
    rewrite readable_drain. repeat split.
  - pose proof (response_read_end_state st1
                  (mk_response_st b3 w1 (request d) p1) m1 e1 ss) as He.
    destruct (response_read_end _ _ _ _ _ _) as [[[[[st' d1] m3] c1] o1]|].
    + split; [destruct He; auto|].
      intros d' m' ci' oi' [= -> _ _ _ _]. destruct He; discriminate.
    + split; [exact Logic.I | discriminate].
Qed.

End ReadFacts.

(** ** Sample parsers *)

(** A response parser that has seen the first line of a mail and moves
    the bytes along, and a request parser that asks for more. *)
Definition sample_response_consume (b w : buffer) (p : response_parser unit)
    (m : mem) (error : bool)
  : bool * buffer * buffer * response_parser unit * mem * bool :=
  (true, b, w, mk_parser true (capa_response p) (internal p), m, error).

Definition sample_request_consume (d : Request.request_st) (error : bool)
  : Request.request_st * bool := (d, error).

Definition sample_retr : response_st unit :=
  mk_response_st (buffer_init 32)
    (mk_buffer (lit "+OK 120 octets" ++ CRLF ++ replicate 16 NUL) 0 16)
    (mk_request retr (Some (lit "1"))) (mk_parser false None tt).

Definition sample_idle_request : Request.request_st :=
  Request.mk_request_st (buffer_init 32) (buffer_init 32)
    (mk_request noop None) Request.request_verb.

Lemma end_of_stream_by_state_witness :
  match Hello.hello_read (buffer_init 64) (RecvBytes []) true with
  | Some (st, _) => st = ERROR
  | None => True
  end /\
  capa_read Capa.sample_consume id (pop3_session_init false) sample_retr
    Mem.empty (RecvBytes []) true
    = Some (ERROR, pop3_session_init false, sample_retr, Mem.empty) /\
  request_read sample_request_consume (fun _ => false)
    (pop3_session_init false) sample_idle_request (RecvBytes []) true true
    = Some (ERROR, pop3_session_init false, sample_idle_request, []) /\
  response_read sample_response_consume id id sample_retr Mem.empty
    OP_NOOP OP_READ (RecvBytes []) true true true true
    = Some (RESPONSE, sample_retr, Mem.empty, OP_NOOP, OP_READ) /\
  ExtTransf.external_transformation_read EtHandlers.sample_feed
    EtHandlers.sample_running (RecvBytes [])
    = Some (EXTERNAL_TRANSFORMATION, EtHandlers.sample_running).
Proof.
  apply (end_of_stream_by_state sample_response_consume id id
           Capa.sample_consume sample_request_consume (fun _ => false)
           EtHandlers.sample_feed (pop3_session_init false)
           sample_idle_request sample_retr Mem.empty OP_NOOP OP_READ
           EtHandlers.sample_running (buffer_init 64) true true true true true).
  - reflexivity.
  - reflexivity.
Defined.

(** The diversion happens: a RETR answered +OK, with the filter
    configured and switched on, goes to the transformation with an
    empty staging buffer. *)
Example retr_is_diverted :
  exists d',
    response_read sample_response_consume id id sample_retr Mem.empty
      OP_NOOP OP_READ (RecvBytes (lit "Subject: hi" ++ CRLF))
      true true true true
    = Some (EXTERNAL_TRANSFORMATION, d', Mem.empty, OP_NOOP, OP_NOOP) /\
    readable (wb sample_retr) = lit "+OK 120 octets" ++ CRLF /\
    readable (wb d') = [] /\
    readable (rb d') = lit "Subject: hi" ++ CRLF.
Proof. eexists. vm_compute. repeat split; reflexivity. Qed.

End Reads.


(* ===================================================================== *)
(** * pop3.c: from the resolved name to HELLO *)
(* ===================================================================== *)

Module Setup.
Import CStr Fsm Session.

Abbreviation fd_interest := ExtTransf.fd_interest.
Abbreviation OP_NOOP := ExtTransf.OP_NOOP.
Abbreviation OP_READ := ExtTransf.OP_READ.
Abbreviation OP_WRITE := ExtTransf.OP_WRITE.

(** What [connect] answers on a non-blocking socket: 0, -1 with
    [errno == EINPROGRESS], -1 with another [errno]. *)
Inductive connect_result := Connected | InProgress | Refused.

(** What the three handlers do to the outside, in order. *)
Inductive effect :=
| ToClient (msg : bytes)          (* send(client_fd, msg, strlen(msg), 0) *)
| CloseFd (fd : Z)                (* close(fd) *)
| Register (fd : Z).              (* selector_register(s, fd, ..., OP_WRITE, data) *)

(** The session while its origin connection is set up: the object of
    the pool, the POP3 session, the interest of the client socket, the
    origin socket's interest once it is registered, and the effects so
    far. *)
Record setup := mk_setup {
  obj : Pool.pop3;
  session : pop3_session;
  client_interest : fd_interest;
  origin_interest : option fd_interest;
  effects : list effect;
}.

Definition with_obj (o : Pool.pop3) (c : setup) : setup :=
  mk_setup o (session c) (client_interest c) (origin_interest c) (effects c).

Definition with_client (i : fd_interest) (c : setup) : setup :=
  mk_setup (obj c) (session c) i (origin_interest c) (effects c).

Definition with_origin (i : option fd_interest) (c : setup) : setup :=
  mk_setup (obj c) (session c) (client_interest c) i (effects c).

Definition does (e : effect) (c : setup) : setup :=
  mk_setup (obj c) (session c) (client_interest c) (origin_interest c)
    (effects c ++ [e]).

Definition invalid_domain : bytes := lit "-ERR Invalid domain." ++ CRLF.
Definition connection_refused : bytes := lit "-ERR Connection refused." ++ CRLF.

(** [origin_connect(key)]; [key] is the client's.  [sock]: what
    [socket] returns; [nio_ok], [noop_ok], [reg_ok]: the calls on the
    selector succeed.  [None]: [abort()]. *)
Definition origin_connect (sock : Z) (nio_ok : bool) (cr : connect_result)
    (noop_ok reg_ok : bool) (c : setup) : option (pop3_state * setup) :=
  let error (c : setup) :=
    Some (ERROR, if negb (sock =? -1)%Z then does (CloseFd sock) c else c) in
  if (sock <? 0)%Z then Some (ERROR, c)
  else if negb nio_ok then error c
  else
    match cr with
    | InProgress =>
        if negb noop_ok then error c
        else
          let c := with_client OP_NOOP c in
          if negb reg_ok then error c
          else
            let c := with_origin (Some OP_WRITE) (does (Register sock) c) in
            let o := obj c in
            Some (CONNECTING,
                  with_obj (Pool.mk_pop3 (Pool.client_fd o) (Pool.origin_fd o)
                              (Pool.origin_resolution o)
                              ((Pool.references o + 1) mod Pool.UINT_MOD)%Z
                              (Pool.next o)) c)
    | Refused => error c
    | Connected => None
    end.

(** [origin_resolv_done(key)]: [write_ok]: the change of the client's
    interest to [OP_WRITE] succeeds. *)
Definition origin_resolv_done (write_ok : bool) (sock : Z) (nio_ok : bool)
    (cr : connect_result) (noop_ok reg_ok : bool) (c : setup)
  : option (pop3_state * setup) :=
  if negb (Pool.origin_resolution (obj c)) then
    Some (ERROR, does (ToClient invalid_domain) c)
  else
    let o := obj c in
    let c := with_obj (Pool.mk_pop3 (Pool.client_fd o) (Pool.origin_fd o)
                         false (Pool.references o) (Pool.next o)) c in
    if negb write_ok then Some (ERROR, c)
    else origin_connect sock nio_ok cr noop_ok reg_ok (with_client OP_WRITE c).

(** [connecting(key)]; [key] is the origin's, [fd] its descriptor. *)
Definition connecting (fd : Z) (getsockopt_ok : bool) (so_error : Z)
    (ss : bool) (c : setup) : pop3_state * setup :=
  let o := obj c in
  let c := with_obj (Pool.mk_pop3 (Pool.client_fd o) fd
                       (Pool.origin_resolution o) (Pool.references o)
                       (Pool.next o)) c in
  if negb getsockopt_ok || negb (so_error =? 0)%Z then
    (ERROR,
     with_origin (ExtTransf.set_interest OP_NOOP (origin_interest c))
       (does (ToClient connection_refused) c))
  else
    let c := mk_setup (obj c) (pop3_session_init false)
               OP_NOOP (ExtTransf.set_interest OP_READ (origin_interest c))
               (effects c) in
    (if ss then HELLO else ERROR, c).

(** From the end of the name resolution to HELLO: [origin_resolv_done]
    on the block event, then [connecting] on the write event of the
    origin socket. *)
Definition connect_origin (write_ok : bool) (sock : Z) (nio_ok : bool)
    (cr : connect_result) (noop_ok reg_ok getsockopt_ok : bool)
    (so_error : Z) (ss : bool) (c : setup) : option (pop3_state * setup) :=
  '(st, c') ← origin_resolv_done write_ok sock nio_ok cr noop_ok reg_ok c;
  match st with
  | CONNECTING => Some (connecting sock getsockopt_ok so_error ss c')
  | _ => Some (st, c')
  end.

(** Everything works. *)
Definition all_well (write_ok : bool) (sock : Z) (nio_ok : bool)
    (cr : connect_result) (noop_ok reg_ok getsockopt_ok : bool)
    (so_error : Z) (ss : bool) (c : setup) : bool :=
  Pool.origin_resolution (obj c) && write_ok && (0 <=? sock)%Z && nio_ok
  && match cr with InProgress => true | _ => false end
  && noop_ok && reg_ok && getsockopt_ok && (so_error =? 0)%Z && ss.

(** A session as [pop3_passive_accept] and the resolver thread leave
    it: one reference, no origin descriptor, the client idle. *)
Definition accepted (fd : Z) (resolved : bool) : setup :=
  mk_setup (Pool.mk_pop3 fd (-1) resolved 1 None) (pop3_session_init false)
    OP_NOOP None [].

(** X24, [origin_resolv_done], [origin_connect] and [connecting] in
    a row, on a freshly accepted session.  The machine reaches HELLO
    exactly when the name resolved and every call on the way succeeded
    with [connect] in progress and [SO_ERROR] zero; the session then
    holds two references and the new descriptor in [origin_fd], POP3
    starts without pipelining, the origin is armed for reading and the
    client is idle.  In every other case the answer is ERROR.  The
    client is told [-ERR Invalid domain.] when the name did not
    resolve, and [-ERR Connection refused.] only when the connection
    fails after the socket was registered; a socket that is closed on
    the way is never left registered, the reference count is raised
    exactly when the socket is registered, and a registered socket is
    always recorded in [origin_fd]. *)
Theorem origin_setup_reaches_hello_or_tells_why
    (fd : Z) (resolved write_ok : bool) (sock : Z) (nio_ok : bool)
    (cr : connect_result) (noop_ok reg_ok getsockopt_ok : bool)
    (so_error : Z) (ss : bool) :
  cr <> Connected ->
  exists st c',
    connect_origin write_ok sock nio_ok cr noop_ok reg_ok getsockopt_ok
      so_error ss (accepted fd resolved) = Some (st, c') /\
    (st = HELLO \/ st = ERROR) /\
    (st = HELLO <->
     all_well write_ok sock nio_ok cr noop_ok reg_ok getsockopt_ok so_error ss
       (accepted fd resolved) = true) /\
    (st = HELLO ->
     Pool.references (obj c') = 2%Z /\ Pool.origin_fd (obj c') = sock /\
     Pool.origin_resolution (obj c') = false /\
     pipelining (session c') = false /\
     client_interest c' = OP_NOOP /\ origin_interest c' = Some OP_READ /\
     effects c' = [Register sock]) /\
    (resolved = false -> effects c' = [ToClient invalid_domain]) /\
    (Pool.references (obj c') = 2%Z <-> In (Register sock) (effects c')) /\
    (Pool.references (obj c') = 1%Z \/ Pool.references (obj c') = 2%Z) /\
    (In (CloseFd sock) (effects c') -> ~ In (Register sock) (effects c')) /\
    (In (Register sock) (effects c') -> Pool.origin_fd (obj c') = sock) /\
    (In (ToClient connection_refused) (effects c') ->
     st = ERROR /\ In (Register sock) (effects c') /\
     origin_interest c' = Some OP_NOOP).
Proof.
  intros Hcr.
  unfold connect_origin, origin_resolv_done, origin_connect, connecting,
    accepted, all_well.
  rewrite (Z.leb_antisym sock 0).
  cbn [obj Pool.origin_resolution Pool.references Pool.client_fd
       Pool.origin_fd Pool.next with_obj with_client with_origin does
       session client_interest origin_interest effects].
  change ((1 + 1) mod Pool.UINT_MOD)%Z with 2%Z.
  destruct resolved, write_ok, (sock <? 0)%Z, nio_ok, cr, noop_ok, reg_ok;
    try contradiction;
    cbn [negb andb orb mbind option_bind];
    try (destruct (sock =? -1)%Z; cbn [negb];
         eexists _, _; (split; [reflexivity|]);
         cbn [obj Pool.origin_resolution Pool.references Pool.client_fd
              Pool.origin_fd Pool.next with_obj with_client with_origin does
              session client_interest origin_interest effects app In];
         repeat split; intros; try discriminate; try tauto;
         try (intuition (discriminate || congruence)); fail).
  all: destruct getsockopt_ok, (so_error =? 0)%Z, ss;
    cbn [negb andb orb mbind option_bind];
    eexists _, _; (split; [reflexivity|]);
    cbn [obj Pool.origin_resolution Pool.references Pool.client_fd
         Pool.origin_fd Pool.next with_obj with_client with_origin does
         session client_interest origin_interest effects app In
         ExtTransf.set_interest pipelining pop3_session_init];
    repeat split; intros; try discriminate; try tauto;
    try (intuition (discriminate || congruence)).
Qed.

Lemma origin_setup_reaches_hello_or_tells_why_witness :
  exists st c',
    connect_origin true 9 true InProgress true true true 111 true
      (accepted 5 true) = Some (st, c') /\
    (st = HELLO \/ st = ERROR) /\
    (st = HELLO <->
     all_well true 9 true InProgress true true true 111 true
       (accepted 5 true) = true) /\
    (st = HELLO ->
     Pool.references (obj c') = 2%Z /\ Pool.origin_fd (obj c') = 9%Z /\
     Pool.origin_resolution (obj c') = false /\
     pipelining (session c') = false /\
     client_interest c' = OP_NOOP /\ origin_interest c' = Some OP_READ /\
     effects c' = [Register 9]) /\
    (true = false -> effects c' = [ToClient invalid_domain]) /\
    (Pool.references (obj c') = 2%Z <-> In (Register 9) (effects c')) /\
    (Pool.references (obj c') = 1%Z \/ Pool.references (obj c') = 2%Z) /\
    (In (CloseFd 9) (effects c') -> ~ In (Register 9) (effects c')) /\
    (In (Register 9) (effects c') -> Pool.origin_fd (obj c') = 9%Z) /\
    (In (ToClient connection_refused) (effects c') ->
     st = ERROR /\ In (Register 9) (effects c') /\
     origin_interest c' = Some OP_NOOP).
Proof.
  apply (origin_setup_reaches_hello_or_tells_why 5 true true 9 true
           InProgress true true true 111 true).
  discriminate.
Defined.

(** The refused connection of the witness, run: the client is told,
    the origin descriptor is recorded and stays registered for
    [pop3_done] to remove. *)
Example refused_connection :
  connect_origin true 9 true InProgress true true true 111 true
    (accepted 5 true)
  = Some (ERROR,
          mk_setup (Pool.mk_pop3 5 9 false 2 None) (pop3_session_init false)
            OP_NOOP (Some OP_NOOP)
            [Register 9; ToClient connection_refused]).
Proof. reflexivity. Qed.

End Setup.


(* ===================================================================== *)
(** * stripmime.c: matching the media type against the tree *)
(* ===================================================================== *)

Module StripMime.
Import CStr.

(** The event types of the comparison parsers that stripmime.c names,
    and any other. *)
Inductive event_type := STRING_CMP_EQ | STRING_CMP_NEQ | OTHER_EVENT (t : nat).

Definition is_eq (t : event_type) : bool :=
  match t with STRING_CMP_EQ => true | _ => false end.

(** [struct parser_event]: [n] is the length of [data]; [next] is the
    chain of the events that follow, each with its type and data, empty
    for NULL. *)
Record parser_event := Event {
  type : event_type;
  data : bytes;
  next : list (event_type * bytes);
}.

Section WithParser.
(** [struct parser] and [parser_feed] belong to the parser engine,
    which is not part of the sources. *)
Context {S : Type}.
Variable parser_feed : S -> ascii -> S * parser_event.

(** [struct TreeNode], by the fields stripmime.c uses: the siblings
    linked by [next] are a list, [children] is the list of the first
    child and its siblings (empty for NULL), [event] is NULL until the
    node is fed. *)
#[local] Unset Elimination Schemes.
Inductive TreeNode :=
| Node (parser : S) (event : option parser_event) (wildcard : bool)
       (children : list TreeNode).
#[local] Set Elimination Schemes.

Definition parser (n : TreeNode) : S := match n with Node p _ _ _ => p end.
Definition event (n : TreeNode) : option parser_event :=
  match n with Node _ e _ _ => e end.
Definition wildcard (n : TreeNode) : bool :=
  match n with Node _ _ w _ => w end.
Definition children (n : TreeNode) : list TreeNode :=
  match n with Node _ _ _ c => c end.

(** [node->event = parser_feed(node->parser, c)] *)
Definition feed_node (c : ascii) (n : TreeNode) : TreeNode :=
  let '(p, e) := parser_feed (parser n) c in
  Node p (Some e) (wildcard n) (children n).

(** The [while (node->next != NULL)] loop of [parser_feed_type] and
    [parser_feed_subtype]. *)
Fixpoint feed_rest (c : ascii) (global_event : parser_event)
    (l : list TreeNode) : list TreeNode * parser_event :=
  match l with
  | [] => ([], global_event)
  | n :: l' =>
      let n' := feed_node c n in
      let g := match event n' with
               | Some e => if is_eq (type e) then e else global_event
               | None => global_event
               end in
      let '(l'', g') := feed_rest c g l' in
      (n' :: l'', g')
  end.

(** [parser_feed_type(mime_tree, c)]: the tree after the call and the
    event returned.  [None]: [mime_tree->first] is NULL. *)
Definition parser_feed_type (tree : list TreeNode) (c : ascii)
  : option (list TreeNode * parser_event) :=
  match tree with
  | [] => None
  | n :: l =>
      let n' := feed_node c n in
      g ← event n';
      let '(l', g') := feed_rest c g l in
      Some (n' :: l', g')
  end.

(** [parser_feed_subtype(node, c)] *)
Definition parser_feed_subtype (nodes : list TreeNode) (c : ascii)
  : option (list TreeNode * parser_event) :=
  match nodes with
  | [] => None
  | n :: l =>
      if wildcard n then Some (nodes, Event STRING_CMP_EQ [c] [])
      else
        let n' := feed_node c n in
        g ← event n';
        let '(l', g') := feed_rest c g l in
        Some (n' :: l', g')
  end.

(** [setContextType(ctx)]: the new [ctx->subtype].  [None]: the tree
    is empty, or a node that was never fed is met. *)
Fixpoint setContextType (tree : list TreeNode) (subtype : list TreeNode)
  : option (list TreeNode) :=
  match tree with
  | [] => None
  | n :: l =>
      e ← event n;
      if is_eq (type e) then Some (children n)
      else match l with
           | [] => Some subtype
           | _ :: _ => setContextType l subtype
           end
  end.

(** Does the parser of the node answer [STRING_CMP_EQ] to [c]? *)
Definition matches (c : ascii) (n : TreeNode) : bool :=
  is_eq (type (snd (parser_feed (parser n) c))).

(** ** Facts *)

Lemma feed_node_event (c : ascii) (n : TreeNode) :
  event (feed_node c n) = Some (snd (parser_feed (parser n) c)) /\
  children (feed_node c n) = children n /\
  wildcard (feed_node c n) = wildcard n.
Proof.
  unfold feed_node. destruct (parser_feed (parser n) c). repeat split.
Qed.

Lemma feed_rest_spec (c : ascii) (l : list TreeNode) :
  forall g,
  fst (feed_rest c g l) = map (feed_node c) l /\
  is_eq (type (snd (feed_rest c g l)))
    = is_eq (type g) || existsb (matches c) l /\
  (existsb (matches c) l = false -> snd (feed_rest c g l) = g).
Proof.
  induction l as [|n l IH]; intros g; cbn [feed_rest map existsb].
  - rewrite orb_false_r. repeat split.
  - destruct (feed_node_event c n) as (He & _ & _). rewrite He.
    unfold matches at 1 3.
    set (e := snd (parser_feed (parser n) c)) in *.
    specialize (IH (if is_eq (type e) then e else g)).
    destruct (feed_rest c (if is_eq (type e) then e else g) l) as [l' g'].
    cbn [fst snd] in *. destruct IH as (Hl & Hg & Hn).
    split; [rewrite Hl; reflexivity|]. split.
    + rewrite Hg. destruct (is_eq (type e)) eqn:Ee.
      * rewrite Ee. cbn. rewrite orb_true_r. reflexivity.
      * cbn. reflexivity.
    + destruct (is_eq (type e)); cbn [orb]; [discriminate|]. exact Hn.
Qed.

Lemma parser_feed_type_unfold (n : TreeNode) (l : list TreeNode) (c : ascii) :
  parser_feed_type (n :: l) c
  = Some (map (feed_node c) (n :: l),
          snd (feed_rest c (snd (parser_feed (parser n) c)) l)).
Proof.
  unfold parser_feed_type.
  destruct (feed_node_event c n) as (He & _ & _). rewrite He.
  cbn [mbind option_bind].
  pose proof (feed_rest_spec c l (snd (parser_feed (parser n) c)))
    as (Hl & _ & _).
  destruct (feed_rest c _ l) as [l' g']. cbn [fst snd map] in *.
  rewrite Hl. reflexivity.
Qed.

Lemma fed_event_is_eq_iff (n : TreeNode) (l : list TreeNode) (c : ascii) :
  is_eq (type (snd (feed_rest c (snd (parser_feed (parser n) c)) l))) = true
  <-> exists x, x ∈ n :: l /\ matches c x = true.
Proof.
  pose proof (feed_rest_spec c l (snd (parser_feed (parser n) c)))
    as (_ & Hg & _).
  rewrite Hg.
  change (is_eq (type (snd (parser_feed (parser n) c)))) with (matches c n).
  split.
  - intros H. apply orb_true_iff in H as [H|H].
    + exists n. split; [left | exact H].
    + apply existsb_exists in H as (x & Hin & Hx).
      exists x. split; [right; apply list_elem_of_In; exact Hin | exact Hx].
  - intros (x & Hin & Hx). apply elem_of_cons in Hin as [->|Hin].
    + rewrite Hx. reflexivity.
    + apply orb_true_iff. right. apply existsb_exists.
      exists x. split; [apply list_elem_of_In; exact Hin | exact Hx].
Qed.

(** X25, [parser_feed_type]: every node of the type list is fed the
    byte once, in order, and keeps the event of its own parser.  The
    event returned has type [STRING_CMP_EQ] exactly when the parser of
    some node answers [STRING_CMP_EQ]; when none does, it is the event
    of the first node. *)
Theorem type_event_is_eq_iff_a_node_matches (tree : list TreeNode) (c : ascii) :
  tree <> [] ->
  exists tree' e,
    parser_feed_type tree c = Some (tree', e) /\
    tree' = map (feed_node c) tree /\
    (is_eq (type e) = true <-> exists n, n ∈ tree /\ matches c n = true) /\
    (existsb (matches c) tree = false ->
     Some e = head tree' ≫= event).
Proof.
  intros Hne. destruct tree as [|n l]; [contradiction|].
  eexists _, _. split; [apply parser_feed_type_unfold|].
  split; [reflexivity|]. split; [apply fed_event_is_eq_iff|].
  cbn [existsb map head mbind option_bind]. intros H.
  apply orb_false_iff in H as [_ H].
  destruct (feed_node_event c n) as (He & _ & _). rewrite He.
  pose proof (feed_rest_spec c l (snd (parser_feed (parser n) c)))
    as (_ & _ & Hn).
  rewrite (Hn H). reflexivity.
Qed.

Lemma setContextType_fed (c : ascii) (l : list TreeNode) :
  forall subtype,
  l <> [] ->
  setContextType (map (feed_node c) l) subtype
  = Some (match list_find (fun n => matches c n = true) l with
          | Some (_, n) => children n
          | None => subtype
          end).
Proof.
  induction l as [|n l IH]; intros subtype Hne; [contradiction|].
  cbn [map setContextType].
  destruct (feed_node_event c n) as (He & Hc & _). rewrite He.
  cbn [mbind option_bind list_find].
  change (is_eq (type (snd (parser_feed (parser n) c)))) with (matches c n).
  destruct (decide (matches c n = true)) as [Hm|Hm].
  - rewrite Hm, Hc. reflexivity.
  - apply not_true_is_false in Hm. rewrite Hm.
    destruct l as [|n2 l]; [reflexivity|].
    change (map (feed_node c) (n2 :: l))
      with (feed_node c n2 :: map (feed_node c) l).
    change (feed_node c n2 :: map (feed_node c) l)
      with (map (feed_node c) (n2 :: l)).
    rewrite IH by discriminate.
    destruct (list_find _ (n2 :: l)) as [[i x]|]; reflexivity.
Qed.

(** X26, [setContextType] after [parser_feed_type]: [ctx->subtype]
    becomes the children of the first node whose parser answered
    [STRING_CMP_EQ], and stays what it was when no parser did, which is
    the case whenever the event returned by [parser_feed_type] is not
    [STRING_CMP_EQ]. *)
Theorem subtype_context_is_first_matching_type
    (tree subtype : list TreeNode) (c : ascii) :
  tree <> [] ->
  exists tree' e,
    parser_feed_type tree c = Some (tree', e) /\
    setContextType tree' subtype
    = Some (match list_find (fun n => matches c n = true) tree with
            | Some (_, n) => children n
            | None => subtype
            end) /\
    (is_eq (type e) = false -> setContextType tree' subtype = Some subtype).
Proof.
  intros Hne.
  destruct tree as [|n0 l0]; [contradiction|].
  eexists _, _. split; [apply parser_feed_type_unfold|].
  rewrite (setContextType_fed c (n0 :: l0) subtype Hne).
  split; [reflexivity|].
  intros He. destruct (list_find _ (n0 :: l0)) as [[i n]|] eqn:El;
    [|reflexivity].
  apply list_find_Some in El as (Hin & Hm & _).
  assert (is_eq (type (snd (feed_rest c (snd (parser_feed (parser n0) c)) l0)))
          = true) as Ht.
  { apply fed_event_is_eq_iff. exists n. split; [|exact Hm].
    apply (list_elem_of_lookup_2 _ i). exact Hin. }
  rewrite Ht in He. discriminate.
Qed.

(** X27, [parser_feed_subtype]: the event returned has type
    [STRING_CMP_EQ] exactly when the first node of the subtype list is
    a wildcard or the parser of some node answers [STRING_CMP_EQ].
    With a wildcard in front no parser is fed and the event carries the
    byte alone; otherwise every node is fed once.  The wildcard flag of
    a node that is not the first is not looked at. *)
Theorem subtype_event_is_eq_iff_wildcard_or_match
    (n : TreeNode) (l : list TreeNode) (c : ascii) :
  exists nodes' e,
    parser_feed_subtype (n :: l) c = Some (nodes', e) /\
    (is_eq (type e) = true
     <-> wildcard n = true \/ exists x, x ∈ n :: l /\ matches c x = true) /\
    (wildcard n = true -> nodes' = n :: l /\ data e = [c] /\ next e = []) /\
    (wildcard n = false -> nodes' = map (feed_node c) (n :: l)).
Proof.
  unfold parser_feed_subtype. destruct (wildcard n) eqn:Hw.
  - eexists _, _. split; [reflexivity|]. cbn [type data next is_eq].
    split; [split; auto|]. split; [auto | discriminate].
  - pose proof (parser_feed_type_unfold n l c) as Hf.
    unfold parser_feed_type in Hf. rewrite Hf.
    eexists _, _. split; [reflexivity|]. split.
    + rewrite fed_event_is_eq_iff.
      split; [auto | intros [H|H]; [discriminate | exact H]].
    + split; [discriminate | intros _; reflexivity].
Qed.

End WithParser.

(** ** A sample tree *)

(** A parser that compares one byte with the byte it holds. *)
Definition sample_parser_feed (p c : ascii) : ascii * parser_event :=
  (p, Event (if Ascii.eqb p c then STRING_CMP_EQ else STRING_CMP_NEQ) [c] []).

(** Types [t] (any subtype) and [i] (subtypes [p] and [*]). *)
Definition sample_tree : list (@TreeNode ascii) :=
  [Node "t"%char None false [Node "*"%char None true []];
   Node "i"%char None false
     [Node "p"%char None false []; Node "*"%char None true []]].

Lemma type_event_is_eq_iff_a_node_matches_witness :
  exists tree' e,
    parser_feed_type sample_parser_feed sample_tree "i"%char
      = Some (tree', e) /\
    tree' = map (feed_node sample_parser_feed "i"%char) sample_tree /\
    (is_eq (type e) = true
     <-> exists n, n ∈ sample_tree
                   /\ matches sample_parser_feed "i"%char n = true) /\
    (existsb (matches sample_parser_feed "i"%char) sample_tree = false ->
     Some e = head tree' ≫= event).
Proof.
  apply (type_event_is_eq_iff_a_node_matches sample_parser_feed sample_tree
           "i"%char).
  discriminate.
Defined.

Lemma subtype_context_is_first_matching_type_witness :
  exists tree' e,
    parser_feed_type sample_parser_feed sample_tree "i"%char
      = Some (tree', e) /\
    setContextType tree' []
    = Some (match list_find
                    (fun n => matches sample_parser_feed "i"%char n = true)
                    sample_tree with
            | Some (_, n) => children n
            | None => []
            end) /\
    (is_eq (type e) = false -> setContextType tree' [] = Some []).
Proof.
  apply (subtype_context_is_first_matching_type sample_parser_feed
           sample_tree [] "i"%char).
  discriminate.
Defined.

(** The subtypes of [i]: the [*] that follows [p] is compared as a
    byte, not taken as a wildcard. *)
Example wildcard_counts_only_in_front :
  (type <$> (snd <$> parser_feed_subtype sample_parser_feed
                       [Node "p"%char None false [];
                        Node "*"%char None true []] "x"%char))
    = Some STRING_CMP_NEQ /\
  (type <$> (snd <$> parser_feed_subtype sample_parser_feed
                       [Node "*"%char None true [];
                        Node "p"%char None false []] "x"%char))
    = Some STRING_CMP_EQ.
Proof. split; reflexivity. Qed.

End StripMime.


(* ===================================================================== *)
(** * A mail through the external transformation *)
(* ===================================================================== *)

Module MailThrough.
Import CStr Buffer Fsm ExtTransf EtHandlers.

Section WholeMail.
Context {P : Type}.
Variable parser_new : P.
Variable parser_reset : P -> P.
Variable parser_feed : P -> ascii -> P * bool.

(** The session after an [external_transformation_init] in which the
    child was started, for a mail that [parse_mail] finds complete in
    the buffer. *)
Definition started (mb : buffer) (qe : bool) (pr : P) (n : nat) : pop3 P :=
  mk_pop3
    (mk_et et_status_ok (Some pr) (Some (parser_reset parser_new))
       false true false false false false 0%nat n)
    mb (staged (buffer_init BUFFER_SIZE) ok_msg) qe
    OP_NOOP OP_NOOP (Some OP_READ) (Some OP_WRITE) 0 0.

Lemma init_started (mb : buffer) (qe : bool) (pr : P) (n : nat) :
  feed_all parser_feed (parser_reset parser_new) (readable mb) 0
    = (pr, Some n) ->
  external_transformation_init parser_new parser_reset parser_feed
    0 0 1 true true true true (entering mb qe)
  = Some (started mb qe pr n).
Proof.
  intros Hf. unfold external_transformation_init.
  rewrite (open_entering 0 0 1 true true true true mb qe).
  change (spawned 0 0 1 true true true true) with true.
  change (forked 0 0 1 && true) with true. cbv iota.
  unfold entering.
  cbn [extern_read_buffer write_buffer et parser_read parser_write
       queue_is_empty client_interest origin_interest retrieved_messages
       transferred_bytes default].
  unfold started.
  set (B := buffer_init BUFFER_SIZE).
  assert (write B = 0%nat) as HBw by reflexivity.
  assert (limit B = 2048%nat) as HBl
    by (unfold limit, B, buffer_init; cbn [data]; apply length_replicate).
  clearbody B. unfold buffer_write_ptr.
  assert (length ok_msg = 19%nat) as Lo by reflexivity.
  rewrite stage_store by (rewrite HBw, Lo, HBl; lia).
  cbn [mbind option_bind].
  rewrite stage_adv by (rewrite HBw, Lo, HBl; lia).
  cbn [mbind option_bind].
  unfold parse_mail. rewrite Hf. reflexivity.
Qed.

(** X28, [external_transformation_init], [ext_write], [ext_read] and
    [external_transformation_write] in turn: for a mail that is complete
    in the buffer, a child that was started, takes the mail in one
    [send] and answers [out] in one [recv], and a client that accepts
    the reply in one [send].  The child is sent the mail, terminating
    line included; the client is sent the +OK line followed by [out]
    when the terminating line ends [out] and comes nowhere earlier in
    the +OK line followed by [out]; the machine then leaves for REQUEST
    or RESPONSE with both buffers empty, one message counted and the
    bytes of the reply added to the transferred bytes. *)
Theorem transformed_mail_reaches_the_client
    (mb : buffer) (qe : bool) (mail out : bytes) (pr pw : P) (k1 k2 : nat) :
  readable mb = mail ->
  (read mb <= write mb <= limit mb)%nat ->
  (0 < length mail <= k1)%nat ->
  (0 < length out)%nat ->
  (19 + length out <= 2048)%nat ->
  (19 + length out <= k2)%nat ->
  feed_all parser_feed (parser_reset parser_new) mail 0
    = (pr, Some (length mail)) ->
  feed_all parser_feed (parser_reset parser_new) (ok_msg ++ out) 0
    = (pw, Some (length (ok_msg ++ out))) ->
  exists s1 s2 s3 s4,
    external_transformation_init parser_new parser_reset parser_feed
      0 0 1 true true true true (entering mb qe) = Some s1 /\
    ext_write s1 (SendAccepts k1) = Some (s2, mail) /\
    ext_write_interest s2 = None /\
    ext_read parser_feed s2 (RecvBytes out) = Some s3 /\
    ext_read_interest s3 = None /\ client_interest s3 = OP_WRITE /\
    external_transformation_write s3 (SendAccepts k2)
      = Some (if qe then REQUEST else RESPONSE, s4, ok_msg ++ out) /\
    readable (write_buffer s4) = [] /\
    readable (extern_read_buffer s4) = [] /\
    retrieved_messages s4 = 1%Z /\
    transferred_bytes s4 = Z.of_nat (length (ok_msg ++ out)) /\
    client_interest s4 = (if qe then OP_READ else OP_NOOP) /\
    origin_interest s4 = (if qe then OP_NOOP else OP_READ).
Proof.
  intros Hmail [Hrw Hwl] Hk1 Hout Hroom Hk2 Hfr Hfw.
  pose proof (readable_length mb Hwl) as Hlen. rewrite Hmail in Hlen.
  exists (started mb qe pr (length mail)).
  (* the child takes the mail *)
  set (s2 := mk_pop3
    (mk_et et_status_ok (Some pr) (Some (parser_reset parser_new))
       false true false false false false 0%nat 0%nat)
    (buffer_reset mb) (staged (buffer_init BUFFER_SIZE) ok_msg) qe
    OP_NOOP OP_NOOP (Some OP_READ) None 0 0).
  exists s2.
  rewrite (init_started mb qe pr (length mail))
    by (rewrite Hmail; exact Hfr).
  unfold started. subst s2.
  set (B := staged (buffer_init BUFFER_SIZE) ok_msg) in *.
  set (s2 := mk_pop3
    (mk_et et_status_ok (Some pr) (Some (parser_reset parser_new))
       false true false false false false 0%nat 0%nat)
    (buffer_reset mb) B qe
    OP_NOOP OP_NOOP (Some OP_READ) None 0 0).
  assert (read B = 0%nat) as HBr by reflexivity.
  assert (write B = 19%nat) as HBw by reflexivity.
  assert (limit B = 2048%nat) as HBl.
  { unfold B, staged, stored, limit, buffer_init. cbn [data write].
    rewrite !length_app, length_take, length_drop, length_replicate.
    simpl. lia. }
  assert (readable B = ok_msg) as HBv.
  { unfold B. rewrite readable_staged.
    - reflexivity.
    - cbn. lia.
    - unfold limit, buffer_init. cbn [data write].
      rewrite length_replicate. simpl. unfold BUFFER_SIZE. lia. }
  clearbody B.
  set (s3 := mk_pop3
    (mk_et et_status_ok (Some pr) (Some pw)
       false true false false false false (length (ok_msg ++ out)) 0%nat)
    (buffer_reset mb) (received B out) qe
    OP_WRITE OP_NOOP None None 0 0).
  exists s3.
  exists (mk_pop3
    (mk_et et_status_ok (Some pr) (Some pw)
       true true false false true false 0%nat 0%nat)
    (buffer_reset mb) (buffer_reset (received B out)) qe
    (if qe then OP_READ else OP_NOOP) (if qe then OP_NOOP else OP_READ)
    None None 1 (Z.of_nat (length (ok_msg ++ out)))).
  split; [reflexivity|].
  split.
  { unfold ext_write.
    cbn [et write_buffer send_bytes_read finish_rd extern_read_buffer
         queue_is_empty client_interest origin_interest ext_read_interest
         ext_write_interest retrieved_messages transferred_bytes status
         parser_read parser_write finish_wr error_wr error_rd did_write
         write_error send_bytes_write].
    unfold buffer_read_ptr.
    assert ((length mail =? 0)%nat = false) as E0 by (apply Nat.eqb_neq; lia).
    rewrite E0. cbn [negb].
    assert (take (length mail) (drop (read mb) (data mb)) = mail) as ->.
    { rewrite <- Hmail at 2. unfold readable. rewrite Hlen. reflexivity. }
    cbn [send]. rewrite take_ge by lia.
    assert ((0 <? Z.of_nat (length mail))%Z = true) as ->
      by (apply Z.ltb_lt; lia).
    rewrite read_adv_some by (rewrite ?Nat2Z.id; lia).
    rewrite Nat2Z.id.
    assert ((read mb + length mail =? write mb)%nat = true) as ->
      by (apply Nat.eqb_eq; lia).
    cbn [mbind option_bind]. rewrite Nat.sub_diag. cbn [Nat.eqb andb].
    reflexivity. }
  split; [reflexivity|].
  split.
  { unfold ext_read, s2.
    cbn [et write_buffer send_bytes_read finish_rd extern_read_buffer
         queue_is_empty client_interest origin_interest ext_read_interest
         ext_write_interest retrieved_messages transferred_bytes status
         parser_read parser_write finish_wr error_wr error_rd did_write
         write_error send_bytes_write].
    unfold buffer_write_ptr. cbn [recv].
    rewrite take_ge by (rewrite HBl, HBw; lia).
    assert ((Z.of_nat (length out) <? 0)%Z = false) as ->
      by (apply Z.ltb_ge; lia).
    rewrite receive_store by (rewrite HBw, HBl; lia).
    cbn [mbind option_bind].
    rewrite receive_adv by (rewrite HBw, HBl; lia).
    cbn [mbind option_bind].
    unfold parse_mail.
    rewrite readable_received by (rewrite ?HBr, ?HBw, ?HBl; lia).
    rewrite HBv, Hfw. cbn [orb]. reflexivity. }
  split; [reflexivity|]. split; [reflexivity|].
  assert (read (received B out) = 0%nat) as Hr3 by exact HBr.
  assert (write (received B out) = (19 + length out)%nat) as Hw3
    by (unfold received; cbn [write]; rewrite HBw; reflexivity).
  assert (readable (received B out) = ok_msg ++ out) as Hv3
    by (rewrite readable_received by (rewrite ?HBr, ?HBw, ?HBl; lia);
        rewrite HBv; reflexivity).
  assert (length (ok_msg ++ out) = (19 + length out)%nat) as Hl3
    by (rewrite length_app; reflexivity).
  split.
  { unfold external_transformation_write, s3.
    cbn [et write_buffer send_bytes_read finish_rd extern_read_buffer
         queue_is_empty client_interest origin_interest ext_read_interest
         ext_write_interest retrieved_messages transferred_bytes status
         parser_read parser_write finish_wr error_wr error_rd did_write
         write_error send_bytes_write andb negb mbind option_bind].
    unfold buffer_read_ptr.
    assert ((length (ok_msg ++ out) =? 0)%nat = false) as E0
      by (apply Nat.eqb_neq; lia).
    rewrite E0. cbn [negb].
    assert (take (length (ok_msg ++ out))
              (drop (read (received B out)) (data (received B out)))
            = ok_msg ++ out) as ->.
    { rewrite <- Hv3 at 2. unfold readable. rewrite Hw3, Hr3, Hl3.
      rewrite Nat.sub_0_r. reflexivity. }
    cbn [send]. rewrite take_ge by lia.
    assert ((0 <? Z.of_nat (length (ok_msg ++ out)))%Z = true) as ->
      by (apply Z.ltb_lt; lia).
    rewrite read_adv_some by (rewrite ?Nat2Z.id, ?Hr3, ?Hw3; lia).
    rewrite Nat2Z.id, Hr3, Hw3, Hl3. cbn [Nat.add].
    rewrite Nat.eqb_refl. cbn [mbind option_bind].
    rewrite Nat.sub_diag. cbn [Nat.eqb orb andb].
    unfold finished_et. cbn [finish_rd finish_wr andb].
    unfold leave. cbn [queue_is_empty].
    destruct qe; cbn [negb]; reflexivity. }
  cbn [write_buffer extern_read_buffer retrieved_messages
       transferred_bytes client_interest origin_interest].
  repeat split; reflexivity.
Qed.

End WholeMail.

(** A mail of one header line and the child's rewriting of it. *)
Definition sample_mail : bytes := lit "Subject: hi" ++ body_end.
Definition sample_out : bytes := lit "Subject: HI" ++ body_end.
Definition sample_mailbox : buffer := received (buffer_init 64) sample_mail.

Lemma transformed_mail_reaches_the_client_witness :
  exists s1 s2 s3 s4,
    external_transformation_init 0%nat (fun _ => 0%nat) sample_feed
      0 0 1 true true true true (entering sample_mailbox true) = Some s1 /\
    ext_write s1 (SendAccepts 64) = Some (s2, sample_mail) /\
    ext_write_interest s2 = None /\
    ext_read sample_feed s2 (RecvBytes sample_out) = Some s3 /\
    ext_read_interest s3 = None /\ client_interest s3 = OP_WRITE /\
    external_transformation_write s3 (SendAccepts 64)
      = Some (REQUEST, s4, ok_msg ++ sample_out) /\
    readable (write_buffer s4) = [] /\
    readable (extern_read_buffer s4) = [] /\
    retrieved_messages s4 = 1%Z /\
    transferred_bytes s4 = Z.of_nat (length (ok_msg ++ sample_out)) /\
    client_interest s4 = OP_READ /\
    origin_interest s4 = OP_NOOP.
Proof.
  apply (transformed_mail_reaches_the_client 0%nat (fun _ => 0%nat)
           sample_feed sample_mailbox true sample_mail sample_out
           0%nat 0%nat 64 64).
  - reflexivity.
  - vm_compute. lia.
  - vm_compute. lia.
  - vm_compute. lia.
  - unfold sample_out. simpl. lia.
  - vm_compute. lia.
  - reflexivity.
  - reflexivity.
Defined.

End MailThrough.


(* ===================================================================== *)
(** * The management channel: the name kept from USER *)
(* ===================================================================== *)

Module LoginLeak.
Import CStr Mem Management ManagementLogin.

(** An object of the heap that has not been freed. *)
Definition allocated {M} (w : world M) (p : ptr) : Prop :=
  is_Some (blocks (heap w) !! p).

Section LeakFacts.
Context {M : Type} `{externals M}.

(** [parse_pass] frees the name kept from USER only when the login
    succeeds. *)
Lemma parse_pass_keeps (data : management) (w : world M) :
  status data = ST_PASS ->
  status (snd (fst (parse_pass data w))) <> ST_CONFIG ->
  user (snd (fst (parse_pass data w))) = user data /\
  blocks (heap (snd (parse_pass data w))) = blocks (heap w).
Proof.
  intros Hs. unfold parse_pass.
  pose proof (arg_blocks data 0 w) as E0.
  destruct (arg data 0 w) as [cmd0 w0]. cbn [snd] in E0.
  destruct (_ =? 0)%Z.
  2: { cbn [fst snd say heap]. intros _. split; [reflexivity | exact E0]. }
  pose proof (arg_blocks data 1 w0) as E1.
  destruct (arg data 1 w0) as [cmd1 w1]. cbn [snd] in E1.
  pose proof (load_str_blocks (opt_pass (parameters w1)) (heap w1)) as E2.
  destruct (load_str (opt_pass (parameters w1)) (heap w1)) as [pass m2].
  cbn [snd] in E2. cbv zeta.
  destruct (strcmp pass cmd1 =? 0)%Z.
  - cbn [with_heap parameters heap].
    pose proof (load_str_blocks (opt_user (parameters w1)) m2) as E3.
    destruct (load_str (opt_user (parameters w1)) m2) as [pu m3].
    cbn [snd] in E3.
    pose proof (load_str_blocks (user data) m3) as E4.
    destruct (load_str (user data) m3) as [du m4]. cbn [snd] in E4.
    cbn [andb]. destruct (strcmp pu du =? 0)%Z.
    + cbn [fst snd status]. intros C. contradiction C. reflexivity.
    + cbn [fst snd user say heap with_heap]. intros _.
      split; [reflexivity | congruence].
  - cbn [andb fst snd user say heap with_heap]. intros _.
    split; [reflexivity | congruence].
Qed.

(** A USER command that is accepted puts a new object in
    [data->user]; what the field pointed to before stays allocated. *)
Lemma parse_user_replaces (data : management) (w : world M) :
  strcasecmp (lit "USER") (fst (arg data 0 w)) = 0%Z ->
  hd false (oom (heap w)) = false ->
  exists p,
    user (snd (fst (parse_user data w))) = Some p /\
    blocks (heap w) !! p = None /\
    dom (blocks (heap (snd (parse_user data w))))
      = {[p]} ∪ dom (blocks (heap w)).
Proof.
  intros Hc Ho. unfold parse_user.
  pose proof (arg_blocks data 0 w) as E0. pose proof (arg_oom data 0 w) as O0.
  destruct (arg data 0 w) as [cmd0 w0]. cbn [fst snd] in *.
  rewrite Hc. cbn [Z.eqb].
  pose proof (arg_blocks data 1 w0) as E1. pose proof (arg_oom data 1 w0) as O1.
  destruct (arg data 1 w0) as [cmd1 w1]. cbn [snd] in *.
  unfold malloc_strlen, malloc.
  rewrite alloc_ok by congruence.
  set (p := fresh (dom (blocks (heap w1)))).
  exists p. cbn [fst snd user say heap with_heap do_strcpy].
  split; [reflexivity|]. split.
  - apply not_elem_of_dom. rewrite <- E0, <- E1. apply is_fresh.
  - unfold strcpy. rewrite store_dom. cbn [blocks].
    rewrite dom_insert_L. rewrite E1, E0. reflexivity.
Qed.

(** X29, [parse_pass] and [parse_user]: a PASS command that does not
    log in keeps [data->user] and frees nothing; the next accepted
    USER command stores a newly allocated object in [data->user]
    without freeing the one the field pointed to, which stays
    allocated. *)
Theorem failed_login_leaves_the_user_copy_allocated
    (data d2 : management) (w w2 : world M) (u : ptr) :
  status data = ST_PASS -> user data = Some u -> allocated w u ->
  status (snd (fst (parse_pass data w))) <> ST_CONFIG ->
  user d2 = Some u -> allocated w2 u ->
  strcasecmp (lit "USER") (fst (arg d2 0 w2)) = 0%Z ->
  hd false (oom (heap w2)) = false ->
  (user (snd (fst (parse_pass data w))) = Some u /\
   allocated (snd (parse_pass data w)) u) /\
  exists p,
    user (snd (fst (parse_user d2 w2))) = Some p /\ p <> u /\
    allocated (snd (parse_user d2 w2)) p /\
    allocated (snd (parse_user d2 w2)) u /\
    dom (blocks (heap (snd (parse_user d2 w2))))
      = {[p]} ∪ dom (blocks (heap w2)).
Proof.
  intros Hs Hu Hl Hf Hu2 Hl2 Hc Ho.
  destruct (parse_pass_keeps data w Hs Hf) as [Eu Eb].
  split.
  - split; [congruence|]. unfold allocated. rewrite Eb. exact Hl.
  - destruct (parse_user_replaces d2 w2 Hc Ho) as (p & Ep & Hn & Hd).
    exists p. split; [exact Ep|].
    assert (p <> u) as Hne.
    { intros ->. destruct Hl2 as [x Hx]. rewrite Hn in Hx. discriminate. }
    split; [exact Hne|].
    unfold allocated. rewrite <- !elem_of_dom, Hd.
    split; [apply elem_of_union_l, elem_of_singleton; reflexivity|].
    split; [|reflexivity].
    apply elem_of_union_r, elem_of_dom. exact Hl2.
Qed.

End LeakFacts.

#[local] Existing Instance sample_externals.

(** A PASS command with a wrong password, and the USER command that
    follows it on the same connection. *)
Definition wrong_pass : management * world (list (bytes * bytes)) :=
  login_world ST_PASS [lit "pass"; lit "wrong"] (lit "admin").
Definition user_again : management * world (list (bytes * bytes)) :=
  login_world ST_USER [lit "user"; lit "admin"] (lit "admin").

Lemma failed_login_leaves_the_user_copy_allocated_witness :
  (user (snd (fst (parse_pass (fst wrong_pass) (snd wrong_pass)))) = Some 4%nat /\
   allocated (snd (parse_pass (fst wrong_pass) (snd wrong_pass))) 4%nat) /\
  exists p,
    user (snd (fst (parse_user (fst user_again) (snd user_again)))) = Some p /\
    p <> 4%nat /\
    allocated (snd (parse_user (fst user_again) (snd user_again))) p /\
    allocated (snd (parse_user (fst user_again) (snd user_again))) 4%nat /\
    dom (blocks (heap (snd (parse_user (fst user_again) (snd user_again)))))
      = {[p]} ∪ dom (blocks (heap (snd user_again))).
Proof.
  apply (failed_login_leaves_the_user_copy_allocated
           (fst wrong_pass) (fst user_again)
           (snd wrong_pass) (snd user_again) 4%nat).
  - reflexivity.
  - reflexivity.
  - vm_compute. eexists. reflexivity.
  - vm_compute. discriminate.
  - reflexivity.
  - vm_compute. eexists. reflexivity.
  - vm_compute. reflexivity.
  - reflexivity.
Defined.

End LoginLeak.
